(** * A model of [RawMemory<T>] and [Vector<T>] (vector.h)

    The development embeds the two class templates of the repository in
    Rocq and proves properties of the embedded code.

    - Raw allocations are blocks of slots in a store; a slot is either raw
      memory ([None]) or holds a live object with a value ([Some x]).
    - [T*] is a block identifier with an offset, or the null pointer.
    - [Vector] objects live in a store indexed by their address, so that
      [this != &rhs] can be decided; local [RawMemory] objects live on a
      stack of locals.
    - Every operation of the element type (constructors, assignments,
      destructor) and every call of [operator new] / [operator delete] is
      recorded in a trace.  An oracle decides, from the trace so far,
      whether the next operation throws.
    - A computation returns normally, propagates an exception, or has no
      defined behaviour (failed [assert], access to raw memory, ...).

    [size_t] quantities are natural numbers: a buffer of [capacity_]
    slots is a list of that length, so counts stay far below [2^63]; the
    two places where the source subtracts from a possibly zero [size_]
    are written out. *)

From stdpp Require Import base option list gmap.
From Stdlib Require Import Lia.

Set Default Proof Using "Type".

(** ** Pointers *)

Inductive ptr : Type :=
| Null
| Ptr (b : nat) (off : nat).

#[global] Instance ptr_eq_dec : EqDecision ptr.
Proof. solve_decision. Defined.

(** [p + k] on a raw pointer. *)
Definition ptr_add (p : ptr) (k : nat) : ptr :=
  match p with
  | Null => Null
  | Ptr b off => Ptr b (off + k)
  end.

(** [p - 1]; there is no pointer before the start of a block. *)
Definition ptr_pred (p : ptr) : option ptr :=
  match p with
  | Ptr b (S off) => Some (Ptr b off)
  | _ => None
  end.

(** [last - first] as a [size_t]: defined inside one block, for
    [first <= last]. *)
Definition ptr_diff (last first : ptr) : option nat :=
  match last, first with
  | Null, Null => Some 0
  | Ptr b1 o1, Ptr b2 o2 =>
      if decide (b1 = b2 ∧ o2 ≤ o1) then Some (o1 - o2) else None
  | _, _ => None
  end.

(** ** The two class records *)

Record RawMemory : Type := mkRawMemory {
  buffer_ : ptr;
  capacity_ : nat
}.

Record Vector : Type := mkVector {
  data_ : RawMemory;
  size_ : nat
}.

#[global] Instance RawMemory_eq_dec : EqDecision RawMemory.
Proof. solve_decision. Defined.

#[global] Instance Vector_eq_dec : EqDecision Vector.
Proof. solve_decision. Defined.

(** A reference to a [RawMemory] object: the member [data_] of the vector
    at an address, or a local on the stack of locals. *)
Inductive rawref : Type :=
| DataOf (v : nat)
| Local (i : nat).

#[global] Instance rawref_eq_dec : EqDecision rawref.
Proof. solve_decision. Defined.

Section Types.

Context {T A : Type}.

(** ** Events

    [T] is the type of element values and [A] the type of argument packs
    accepted by a constructor [T(args...)].  An operation that completes
    is recorded as itself, one that throws as [EvThrow]. *)
Inductive event : Type :=
| EvNew (n : nat)
| EvDelete (b : nat)
| EvCtorArgs (a : A)
| EvCtorCopy (x : T)
| EvCtorMove (x : T)
| EvCtorValue
| EvCtorDefault
| EvAssignCopy (x old : T)
| EvAssignMove (x old : T)
| EvDtor (x : T)
| EvThrow (e : event).

(** What [std::forward<Args>(args)...] carries into a constructor of [T]:
    a [const T&], a [T&&] or an argument pack. *)
Inductive init : Type :=
| ByCopy (x : T)
| ByMove (x : T)
| ByArgs (a : A).

(** ** State and computations *)

Record state : Type := mkState {
  vecs : gmap nat Vector;
  locals : list RawMemory;
  mem : gmap nat (list (option T));
  trace : list event
}.

Inductive outcome (R : Type) : Type :=
| Ret (r : R) (s : state)
| Throw (s : state)
| Undef.
#[global] Arguments Ret {R} r s.
#[global] Arguments Throw {R} s.
#[global] Arguments Undef {R}.

Definition Comp (R : Type) : Type := state → outcome R.

Definition ret {R} (r : R) : Comp R := fun s => Ret r s.

Definition bind {R R'} (m : Comp R) (k : R → Comp R') : Comp R' :=
  fun s => match m s with
           | Ret r s' => k r s'
           | Throw s' => Throw s'
           | Undef => Undef
           end.

Definition undef {R} : Comp R := fun _ => Undef.

(** [throw;] *)
Definition rethrow {R} : Comp R := fun s => Throw s.

(** [try { m } catch (...) { h }] *)
Definition try_catch {R} (m : Comp R) (h : Comp R) : Comp R :=
  fun s => match m s with
           | Throw s' => h s'
           | o => o
           end.

(** Runs [c] when [m] is left, normally or by an exception: the
    destructor of a local. *)
Definition finally {R} (m : Comp R) (c : Comp unit) : Comp R :=
  fun s => match m s with
           | Ret r s' => bind c (fun _ => ret r) s'
           | Throw s' => bind c (fun _ => rethrow) s'
           | Undef => Undef
           end.

(** Runs [c] only when [m] is left by an exception, which propagates. *)
Definition on_throw {R} (m : Comp R) (c : Comp unit) : Comp R :=
  try_catch m (bind c (fun _ => rethrow)).

Definition from_option {R} (o : option R) : Comp R :=
  match o with
  | Some r => ret r
  | None => undef
  end.

Definition set_vecs (f : gmap nat Vector → gmap nat Vector) (s : state) : state :=
  mkState (f (vecs s)) (locals s) (mem s) (trace s).

Definition set_locals (f : list RawMemory → list RawMemory) (s : state) : state :=
  mkState (vecs s) (f (locals s)) (mem s) (trace s).

Definition set_mem
    (f : gmap nat (list (option T)) → gmap nat (list (option T))) (s : state) : state :=
  mkState (vecs s) (locals s) (f (mem s)) (trace s).

Definition log (e : event) (s : state) : state :=
  mkState (vecs s) (locals s) (mem s) (trace s ++ [e]).

End Types.

Notation "'let*' x := m 'in' k" := (bind m (fun x => k))
  (at level 10, x name, m at level 100, k at level 200).
Notation "m ;;; k" := (bind m (fun _ => k))
  (at level 100, k at level 200, right associativity).

(** ** The element type

    The container relies on the usual contract of a value type: a copy
    has the value of its source; a move gives the target the value of the
    source and leaves [moved_from x] behind.  [throws tr e] tells whether,
    after the history [tr], the operation [e] throws; it also decides
    whether [operator new] throws [std::bad_alloc]. *)
Class ElemType (T A : Type) : Type := {
  make : A → T;
  moved_from : T → T;
  value_init : T;
  default_init : T;
  is_nothrow_move_constructible : bool;
  is_copy_constructible : bool;
  throws : list (@event T A) → @event T A → bool
}.

Section Ops.

Context {T A : Type} {E : ElemType T A}.

Local Abbreviation M := (@Comp T A).

(** ** Element operations and raw memory *)

(** An operation that may throw: the oracle decides. *)
Definition attempt (e : event) : M unit :=
  fun s => if throws (trace s) e then Throw (log (EvThrow e) s) else Ret () (log e s).

(** An operation that cannot throw. *)
Definition record (e : event) : M unit :=
  fun s => Ret () (log e s).

(** The move constructor cannot throw when it is [noexcept]. *)
Definition attempt_move (e : event) : M unit :=
  if is_nothrow_move_constructible then record e else attempt e.

Definition slot_of (s : @state T A) (p : ptr) : option (option T) :=
  match p with
  | Null => None
  | Ptr b off => mem s !! b ≫= (.!! off)
  end.

(** Reads a slot; the pointer has to point into an allocation. *)
Definition get_slot (p : ptr) : M (option T) :=
  fun s => from_option (slot_of s p) s.

(** The value of the live object at [p]. *)
Definition load (p : ptr) : M T :=
  let* o := get_slot p in from_option o.

Definition put_slot (p : ptr) (o : option T) : M unit :=
  fun s => match p with
           | Null => Undef
           | Ptr b off =>
               match mem s !! b with
               | Some sl =>
                   if decide (off < length sl)
                   then Ret () (set_mem <[b := <[off := o]> sl]> s)
                   else Undef
               | None => Undef
               end
           end.

(** The constructor call [T(std::forward<Args>(args)...)]. *)
Definition run_ctor (i : init) : M T :=
  match i with
  | ByCopy x => attempt (EvCtorCopy x) ;;; ret x
  | ByMove x => attempt_move (EvCtorMove x) ;;; ret x
  | ByArgs a => attempt (EvCtorArgs a) ;;; ret (make a)
  end.

(** [new (p) T(std::forward<Args>(args)...)] *)
Definition construct_at (p : ptr) (i : init) : M unit :=
  get_slot p ;;;
  let* x := run_ctor i in
  put_slot p (Some x).

(** Copy construction at [dst] from the object at [src]. *)
Definition copy_construct (dst src : ptr) : M unit :=
  let* x := load src in
  construct_at dst (ByCopy x).

(** Move construction at [dst] from the object at [src]. *)
Definition move_construct (dst src : ptr) : M unit :=
  let* x := load src in
  get_slot dst ;;;
  attempt_move (EvCtorMove x) ;;;
  put_slot src (Some (moved_from x)) ;;;
  put_slot dst (Some x).

(** [new (p) T()] *)
Definition value_construct (p : ptr) : M unit :=
  get_slot p ;;;
  attempt EvCtorValue ;;;
  put_slot p (Some value_init).

(** [new (p) T] *)
Definition default_construct (p : ptr) : M unit :=
  get_slot p ;;;
  attempt EvCtorDefault ;;;
  put_slot p (Some default_init).

(** Copy assignment of the object at [src] to the object at [dst]. *)
Definition copy_assign (dst src : ptr) : M unit :=
  let* x := load src in
  let* old := load dst in
  attempt (EvAssignCopy x old) ;;;
  put_slot dst (Some x).

(** Move assignment of the object at [src] to the object at [dst]. *)
Definition move_assign (dst src : ptr) : M unit :=
  let* x := load src in
  let* old := load dst in
  attempt (EvAssignMove x old) ;;;
  put_slot dst (Some x) ;;;
  put_slot src (Some (moved_from x)).

(** [std::destroy_at(p)]; a destructor does not throw. *)
Definition destroy_at (p : ptr) : M unit :=
  let* x := load p in
  record (EvDtor x) ;;;
  put_slot p None.

(** [operator new(n * sizeof(T))]: a fresh block of [n] raw slots. *)
Definition operator_new (n : nat) : M ptr :=
  attempt (EvNew n) ;;;
  fun s => let b := fresh (dom (mem s)) in
           Ret (Ptr b 0) (set_mem <[b := replicate n None]> s).

(** [operator delete(p)]: nothing for the null pointer, otherwise [p] has
    to be the start of an allocation. *)
Definition operator_delete (p : ptr) : M unit :=
  match p with
  | Null => ret ()
  | Ptr b 0 =>
      fun s => match mem s !! b with
               | Some _ => Ret () (log (EvDelete b) (set_mem (delete b) s))
               | None => Undef
               end
  | Ptr _ (S _) => undef
  end.

(** ** The algorithms of [<memory>] and [<algorithm>] used by the source

    The uninitialized algorithms destroy what they constructed when a
    constructor throws, and let the exception propagate.  The standard
    leaves the order of these destructions open; here the last
    constructed object is destroyed first. *)

Fixpoint uninitialized_copy_n (first : ptr) (count : nat) (d_first : ptr) : M ptr :=
  match count with
  | 0 => ret d_first
  | S n =>
      copy_construct d_first first ;;;
      on_throw (uninitialized_copy_n (ptr_add first 1) n (ptr_add d_first 1))
               (destroy_at d_first)
  end.

Fixpoint uninitialized_move_n (first : ptr) (count : nat) (d_first : ptr) : M (ptr * ptr) :=
  match count with
  | 0 => ret (first, d_first)
  | S n =>
      move_construct d_first first ;;;
      on_throw (uninitialized_move_n (ptr_add first 1) n (ptr_add d_first 1))
               (destroy_at d_first)
  end.

Fixpoint uninitialized_value_construct_n (first : ptr) (count : nat) : M ptr :=
  match count with
  | 0 => ret first
  | S n =>
      value_construct first ;;;
      on_throw (uninitialized_value_construct_n (ptr_add first 1) n) (destroy_at first)
  end.

Fixpoint uninitialized_default_construct_n (first : ptr) (count : nat) : M ptr :=
  match count with
  | 0 => ret first
  | S n =>
      default_construct first ;;;
      on_throw (uninitialized_default_construct_n (ptr_add first 1) n) (destroy_at first)
  end.

Fixpoint destroy_n (first : ptr) (count : nat) : M ptr :=
  match count with
  | 0 => ret first
  | S n => destroy_at first ;;; destroy_n (ptr_add first 1) n
  end.

Fixpoint copy_loop (first : ptr) (count : nat) (d_first : ptr) : M ptr :=
  match count with
  | 0 => ret d_first
  | S n => copy_assign d_first first ;;; copy_loop (ptr_add first 1) n (ptr_add d_first 1)
  end.

(** [std::copy(first, last, d_first)] *)
Definition std_copy (first last d_first : ptr) : M ptr :=
  let* n := from_option (ptr_diff last first) in
  copy_loop first n d_first.

Fixpoint move_loop (first : ptr) (count : nat) (d_first : ptr) : M ptr :=
  match count with
  | 0 => ret d_first
  | S n => move_assign d_first first ;;; move_loop (ptr_add first 1) n (ptr_add d_first 1)
  end.

(** [std::move(first, last, d_first)] *)
Definition std_move (first last d_first : ptr) : M ptr :=
  let* n := from_option (ptr_diff last first) in
  move_loop first n d_first.

Fixpoint move_backward_loop (count : nat) (last d_last : ptr) : M ptr :=
  match count with
  | 0 => ret d_last
  | S n =>
      let* last' := from_option (ptr_pred last) in
      let* d_last' := from_option (ptr_pred d_last) in
      move_assign d_last' last' ;;;
      move_backward_loop n last' d_last'
  end.

(** [std::move_backward(first, last, d_last)] *)
Definition std_move_backward (first last d_last : ptr) : M ptr :=
  let* n := from_option (ptr_diff last first) in
  move_backward_loop n last d_last.

(** ** [RawMemory<T>] *)

Definition raw_at (s : @state T A) (r : rawref) : option RawMemory :=
  match r with
  | DataOf v => data_ <$> vecs s !! v
  | Local i => locals s !! i
  end.

Definition put_raw (r : rawref) (x : RawMemory) (s : @state T A) : @state T A :=
  match r with
  | DataOf v => set_vecs (alter (fun o => mkVector x (size_ o)) v) s
  | Local i => set_locals <[i := x]> s
  end.

Definition get_raw (r : rawref) : M RawMemory :=
  fun s => from_option (raw_at s r) s.

Definition set_raw (r : rawref) (x : RawMemory) : M unit :=
  get_raw r ;;;
  fun s => Ret () (put_raw r x s).

Definition Allocate (n : nat) : M ptr :=
  if decide (n ≠ 0) then operator_new n else ret Null.

Definition Deallocate (buf : ptr) : M unit :=
  operator_delete buf.

(** [RawMemory() = default], with the default member initializers. *)
Definition RawMemory_ctor_default (this : rawref) : M unit :=
  set_raw this (mkRawMemory Null 0).

(** [explicit RawMemory(size_t capacity)] *)
Definition RawMemory_ctor (this : rawref) (capacity : nat) : M unit :=
  let* p := Allocate capacity in
  set_raw this (mkRawMemory p capacity).

(** [void Swap(RawMemory& other) noexcept]: two calls of [std::swap]. *)
Definition RawMemory_Swap (this other : rawref) : M unit :=
  let* a := get_raw this in
  let* b := get_raw other in
  set_raw this (mkRawMemory (buffer_ b) (capacity_ a)) ;;;
  set_raw other (mkRawMemory (buffer_ a) (capacity_ b)) ;;;
  let* a := get_raw this in
  let* b := get_raw other in
  set_raw this (mkRawMemory (buffer_ a) (capacity_ b)) ;;;
  set_raw other (mkRawMemory (buffer_ b) (capacity_ a)).

(** [RawMemory(RawMemory&& other) noexcept] *)
Definition RawMemory_ctor_move (this other : rawref) : M unit :=
  RawMemory_ctor_default this ;;;
  RawMemory_Swap this other.

(** [RawMemory& operator=(RawMemory&& rhs) noexcept] *)
Definition RawMemory_assign_move (this rhs : rawref) : M unit :=
  RawMemory_Swap this rhs.

(** [~RawMemory()] *)
Definition RawMemory_dtor (this : rawref) : M unit :=
  let* r := get_raw this in
  Deallocate (buffer_ r).

(** [T* operator+(size_t offset) noexcept] *)
Definition RawMemory_plus (this : rawref) (offset : nat) : M ptr :=
  let* r := get_raw this in
  if decide (offset ≤ capacity_ r) then ret (ptr_add (buffer_ r) offset) else undef.

(** [T& operator[](size_t index) noexcept] *)
Definition RawMemory_index (this : rawref) (index : nat) : M ptr :=
  let* r := get_raw this in
  if decide (index < capacity_ r) then ret (ptr_add (buffer_ r) index) else undef.

Definition GetAddress (this : rawref) : M ptr :=
  let* r := get_raw this in ret (buffer_ r).

Definition RawMemory_Capacity (this : rawref) : M nat :=
  let* r := get_raw this in ret (capacity_ r).

(** ** Storage of locals *)

(** Storage for a local [RawMemory] on the stack of locals. *)
Definition push_local : M rawref :=
  fun s => Ret (Local (length (locals s)))
               (set_locals (fun l => l ++ [mkRawMemory Null 0]) s).

Definition pop_local : M unit :=
  fun s => Ret () (set_locals (fun l => take (length l - 1) l) s).

(** [{ RawMemory<T> new_data(capacity); body }]: the destructor runs when
    the block is left, unless the constructor itself threw. *)
Definition with_RawMemory {R} (capacity : nat) (body : rawref → M R) : M R :=
  let* new_data := push_local in
  finally (RawMemory_ctor new_data capacity ;;;
           finally (body new_data) (RawMemory_dtor new_data))
          pop_local.

(** Automatic storage for one local object of type [T]. *)
Definition push_frame : M ptr :=
  fun s => let b := fresh (dom (mem s)) in
           Ret (Ptr b 0) (set_mem <[b := [None]]> s).

Definition pop_frame (p : ptr) : M unit :=
  fun s => match p with
           | Ptr b _ => Ret () (set_mem (delete b) s)
           | Null => Undef
           end.

(** [{ T new_elem(std::forward<Args>(args)...); body }] *)
Definition with_local_T {R} (args : init) (body : ptr → M R) : M R :=
  let* new_elem := push_frame in
  finally (construct_at new_elem args ;;;
           finally (body new_elem) (destroy_at new_elem))
          (pop_frame new_elem).

(** Storage for a [Vector] object at a fresh address. *)
Definition new_object : M nat :=
  fun s => let a := fresh (dom (vecs s)) in
           Ret a (set_vecs <[a := mkVector (mkRawMemory Null 0) 0]> s).

Definition delete_object (a : nat) : M unit :=
  fun s => Ret () (set_vecs (delete a) s).

(** ** [Vector<T>] *)

Definition size_at (s : @state T A) (this : nat) : option nat :=
  size_ <$> vecs s !! this.

Definition put_size (this : nat) (n : nat) (s : @state T A) : @state T A :=
  set_vecs (alter (fun o => mkVector (data_ o) n) this) s.

Definition get_size (this : nat) : M nat :=
  fun s => from_option (size_at s this) s.

Definition set_size (this : nat) (n : nat) : M unit :=
  get_size this ;;;
  fun s => Ret () (put_size this n s).

(** The condition of every [if constexpr] of the source. *)
Definition relocate_by_move : bool :=
  is_nothrow_move_constructible || negb is_copy_constructible.

(** [Vector() = default] *)
Definition Vector_ctor_default (this : nat) : M unit :=
  RawMemory_ctor_default (DataOf this) ;;;
  set_size this 0.

(** [explicit Vector(size_t size)]: when the body throws, the member
    [data_] is destroyed. *)
Definition Vector_ctor_size (this : nat) (size : nat) : M unit :=
  RawMemory_ctor (DataOf this) size ;;;
  set_size this size ;;;
  on_throw (let* p := GetAddress (DataOf this) in
            uninitialized_value_construct_n p size ;;; ret ())
           (RawMemory_dtor (DataOf this)).

(** [Vector(const Vector& other)] *)
Definition Vector_ctor_copy (this other : nat) : M unit :=
  let* n := get_size other in
  RawMemory_ctor (DataOf this) n ;;;
  let* n := get_size other in
  set_size this n ;;;
  on_throw (let* src := GetAddress (DataOf other) in
            let* n := get_size other in
            let* dst := GetAddress (DataOf this) in
            uninitialized_copy_n src n dst ;;; ret ())
           (RawMemory_dtor (DataOf this)).

(** [Vector(Vector&& other) noexcept] *)
Definition Vector_ctor_move (this other : nat) : M unit :=
  RawMemory_ctor_move (DataOf this) (DataOf other) ;;;
  let* n := get_size other in
  set_size other 0 ;;;
  set_size this n.

(** [~Vector()], followed by the destructor of the member [data_]. *)
Definition Vector_dtor (this : nat) : M unit :=
  let* p := GetAddress (DataOf this) in
  let* n := get_size this in
  destroy_n p n ;;;
  RawMemory_dtor (DataOf this).

(** [{ Vector rhs_copy(rhs); body }] *)
Definition with_Vector_copy {R} (rhs : nat) (body : nat → M R) : M R :=
  let* rhs_copy := new_object in
  finally (Vector_ctor_copy rhs_copy rhs ;;;
           finally (body rhs_copy) (Vector_dtor rhs_copy))
          (delete_object rhs_copy).

Definition begin (this : nat) : M ptr := GetAddress (DataOf this).

Definition end_ (this : nat) : M ptr :=
  let* n := get_size this in RawMemory_plus (DataOf this) n.

Definition cbegin (this : nat) : M ptr := GetAddress (DataOf this).

Definition cend (this : nat) : M ptr :=
  let* n := get_size this in RawMemory_plus (DataOf this) n.

Definition Size (this : nat) : M nat := get_size this.

Definition Capacity (this : nat) : M nat := RawMemory_Capacity (DataOf this).

(** [void Swap(Vector& other) noexcept] *)
Definition Swap (this other : nat) : M unit :=
  RawMemory_Swap (DataOf this) (DataOf other) ;;;
  let* a := get_size this in
  let* b := get_size other in
  set_size this b ;;;
  set_size other a.

(** [void CopyOrMoveAndSwap(RawMemory<T>& new_data)] *)
Definition CopyOrMoveAndSwap (this : nat) (new_data : rawref) : M unit :=
  (if relocate_by_move then
     let* src := GetAddress (DataOf this) in
     let* n := get_size this in
     let* dst := GetAddress new_data in
     uninitialized_move_n src n dst ;;; ret ()
   else
     let* src := GetAddress (DataOf this) in
     let* n := get_size this in
     let* dst := GetAddress new_data in
     uninitialized_copy_n src n dst ;;; ret ()) ;;;
  let* p := GetAddress (DataOf this) in
  let* n := get_size this in
  destroy_n p n ;;;
  RawMemory_Swap (DataOf this) new_data.

(** [void Reserve(size_t new_capacity)] *)
Definition Reserve (this : nat) (new_capacity : nat) : M unit :=
  let* cap := RawMemory_Capacity (DataOf this) in
  if decide (new_capacity ≤ cap) then ret ()
  else with_RawMemory new_capacity (fun new_data => CopyOrMoveAndSwap this new_data).

(** [T& operator[](size_t index) noexcept] *)
Definition Vector_index (this : nat) (index : nat) : M ptr :=
  let* n := get_size this in
  if decide (index < n) then RawMemory_index (DataOf this) index else undef.

(** [void Resize(size_t new_size)] *)
Definition Resize (this : nat) (new_size : nat) : M unit :=
  let* n := get_size this in
  (if decide (new_size < n) then
     let* p := RawMemory_plus (DataOf this) new_size in
     destroy_n p (n - new_size) ;;; ret ()
   else if decide (n < new_size) then
     Reserve this new_size ;;;
     let* n := get_size this in
     let* p := RawMemory_plus (DataOf this) n in
     uninitialized_default_construct_n p (new_size - n) ;;; ret ()
   else ret ()) ;;;
  set_size this new_size.

(** [void PopBack()]: [data_ + size_ - 1] does not exist when [size_] is
    zero. *)
Definition PopBack (this : nat) : M unit :=
  let* n := get_size this in
  let* e := RawMemory_plus (DataOf this) n in
  let* p := from_option (ptr_pred e) in
  destroy_at p ;;;
  set_size this (n - 1).

(** [template <typename... Args> T& EmplaceBack(Args&&... args)] *)
Definition EmplaceBack (this : nat) (args : init) : M ptr :=
  let* n := get_size this in
  let* cap := Capacity this in
  (if decide (n = cap) then
     with_RawMemory (if decide (n = 0) then 1 else n * 2) (fun new_data =>
       let* p := RawMemory_plus new_data n in
       construct_at p args ;;;
       CopyOrMoveAndSwap this new_data)
   else
     let* p := RawMemory_plus (DataOf this) n in
     construct_at p args) ;;;
  set_size this (S n) ;;;
  let* n := get_size this in
  RawMemory_index (DataOf this) (n - 1).

(** [void PushBack(const T& value)] *)
Definition PushBack_copy (this : nat) (value : T) : M unit :=
  EmplaceBack this (ByCopy value) ;;; ret ().

(** [void PushBack(T&& value)] *)
Definition PushBack_move (this : nat) (value : T) : M unit :=
  EmplaceBack this (ByMove value) ;;; ret ().

(** [template <typename... Args> iterator Emplace(const_iterator pos, Args&&... args)] *)
Definition Emplace (this : nat) (pos : ptr) (args : init) : M ptr :=
  let* e := cend this in
  if decide (pos = e) then
    EmplaceBack this args
  else
  let* n := get_size this in
  let* cap := Capacity this in
  if decide (n = cap) then
    with_RawMemory (if decide (n = 0) then 1 else n * 2) (fun new_data =>
      let* b := begin this in
      let* dist_pos := from_option (ptr_diff pos b) in
      let* p := RawMemory_plus new_data dist_pos in
      construct_at p args ;;;
      (if relocate_by_move then
         let* b := begin this in
         let* d := GetAddress new_data in
         uninitialized_move_n b dist_pos d ;;; ret ()
       else
         try_catch
           (let* b := begin this in
            let* d := GetAddress new_data in
            uninitialized_copy_n b dist_pos d ;;; ret ())
           (let* p := RawMemory_plus new_data dist_pos in
            destroy_at p)) ;;;
      (if relocate_by_move then
         let* src := RawMemory_plus (DataOf this) dist_pos in
         let* d := RawMemory_plus new_data dist_pos in
         uninitialized_move_n src (n - dist_pos) (ptr_add d 1) ;;; ret ()
       else
         try_catch
           (let* src := RawMemory_plus (DataOf this) dist_pos in
            let* d := RawMemory_plus new_data dist_pos in
            uninitialized_copy_n src (n - dist_pos) (ptr_add d 1) ;;; ret ())
           (let* d := GetAddress new_data in
            destroy_n d (dist_pos + 1) ;;; ret ())) ;;;
      let* b := begin this in
      destroy_n b n ;;;
      RawMemory_Swap (DataOf this) new_data ;;;
      let* b := begin this in
      set_size this (S n) ;;;
      ret (ptr_add b dist_pos))
  else
    with_local_T args (fun new_elem =>
      let* dst := RawMemory_plus (DataOf this) n in
      let* src := match n with
                  | 0 => undef
                  | S k => RawMemory_index (DataOf this) k
                  end in
      move_construct dst src ;;;
      let* e := end_ this in
      let* last := from_option (ptr_pred e) in
      std_move_backward pos last e ;;;
      move_assign pos new_elem ;;;
      set_size this (S n) ;;;
      ret pos).

(** [iterator Insert(const_iterator pos, const T& value)] *)
Definition Insert_copy (this : nat) (pos : ptr) (value : T) : M ptr :=
  Emplace this pos (ByCopy value).

(** [iterator Insert(const_iterator pos, T&& value)] *)
Definition Insert_move (this : nat) (pos : ptr) (value : T) : M ptr :=
  Emplace this pos (ByMove value).

(** [iterator Erase(const_iterator pos)] *)
Definition Erase (this : nat) (pos : ptr) : M ptr :=
  let* e := end_ this in
  std_move (ptr_add pos 1) e pos ;;;
  PopBack this ;;;
  ret pos.

(** [Vector& operator=(const Vector& rhs)] of vector.h *)
Definition Vector_assign_copy (this rhs : nat) : M unit :=
  if decide (this ≠ rhs) then
    let* rn := get_size rhs in
    let* cap := RawMemory_Capacity (DataOf this) in
    if decide (cap < rn) then
      with_Vector_copy rhs (fun rhs_copy => Swap this rhs_copy)
    else
      let* n := get_size this in
      let copy_count := if decide (rn < n) then rn else n in
      let* first := GetAddress (DataOf rhs) in
      let* last := RawMemory_plus (DataOf rhs) copy_count in
      let* d := GetAddress (DataOf this) in
      std_copy first last d ;;;
      (if decide (rn < n) then
         let* p := RawMemory_plus (DataOf this) rn in
         destroy_n p (n - rn) ;;; ret ()
       else if decide (n < rn) then
         let* src := RawMemory_plus (DataOf rhs) n in
         let* d := GetAddress (DataOf this) in
         uninitialized_copy_n src (rn - n) (ptr_add d n) ;;; ret ()
       else ret ()) ;;;
      set_size this rn
  else ret ().

(** [Vector& operator=(const Vector& rhs)] of the earlier variant of the
    header, which has no [copy_count]. *)
Definition Vector_assign_copy_v0 (this rhs : nat) : M unit :=
  if decide (this ≠ rhs) then
    let* rn := get_size rhs in
    let* cap := RawMemory_Capacity (DataOf this) in
    if decide (cap < rn) then
      with_Vector_copy rhs (fun rhs_copy => Swap this rhs_copy)
    else
      let* n := get_size this in
      (if decide (rn < n) then
         let* first := GetAddress (DataOf rhs) in
         let* last := RawMemory_plus (DataOf rhs) rn in
         let* d := GetAddress (DataOf this) in
         std_copy first last d ;;;
         let* p := RawMemory_plus (DataOf this) rn in
         destroy_n p (n - rn) ;;; ret ()
       else
         let* first := GetAddress (DataOf rhs) in
         let* last := RawMemory_plus (DataOf rhs) n in
         let* d := GetAddress (DataOf this) in
         std_copy first last d ;;;
         let* src := RawMemory_plus (DataOf rhs) n in
         let* d := GetAddress (DataOf this) in
         uninitialized_copy_n src (rn - n) (ptr_add d n) ;;; ret ()) ;;;
      set_size this rn
  else ret ().

(** [Vector& operator=(Vector&& rhs) noexcept] *)
Definition Vector_assign_move (this rhs : nat) : M unit :=
  Swap this rhs.

(** ** Observations used by the statements *)

(** The value a constructor call gives the new element. *)
Definition value_of (i : init) : T :=
  match i with
  | ByCopy x => x
  | ByMove x => x
  | ByArgs a => make a
  end.

(** The slots of a buffer of [cap] slots whose prefix holds [xs]. *)
Definition layout (xs : list T) (cap : nat) : list (option T) :=
  (Some <$> xs) ++ replicate (cap - length xs) None.

(** The allocation a buffer pointer owns; none for the null pointer. *)
Definition block_of (s : @state T A) (buf : ptr) : option (list (option T)) :=
  match buf with
  | Null => Some []
  | Ptr b 0 => mem s !! b
  | Ptr _ (S _) => None
  end.

(** The vector at [this] has buffer [buf] of [cap] slots, and exactly the
    slots [[0, length xs)] hold live elements, with the values [xs]. *)
Definition is_vector (s : @state T A) (this : nat) (buf : ptr)
    (xs : list T) (cap : nat) : Prop :=
  vecs s !! this = Some (mkVector (mkRawMemory buf cap) (length xs))
  ∧ length xs ≤ cap
  ∧ block_of s buf = Some (layout xs cap).

(** [s'] differs from [s] at most in the blocks [b1] and [b2] and in the
    trace. *)
Definition frame2 (s s' : @state T A) (b1 b2 : nat) : Prop :=
  vecs s' = vecs s ∧ locals s' = locals s
  ∧ ∀ b, b ≠ b1 → b ≠ b2 → mem s' !! b = mem s !! b.

(** What the destructor of a [RawMemory] needs: a null pointer or the
    start of a live block. *)
Definition can_free (s : @state T A) (p : ptr) : Prop :=
  match p with
  | Null => True
  | Ptr b 0 => is_Some (mem s !! b)
  | Ptr _ (S _) => False
  end.

Definition freed (p : ptr) (m : gmap nat (list (option T))) : gmap nat (list (option T)) :=
  match p with
  | Null => m
  | Ptr b _ => delete b m
  end.

Definition is_throw (e : @event T A) : bool :=
  match e with
  | EvThrow _ => true
  | _ => false
  end.

(** [s'] is [s] up to the trace. *)
Definition unchanged (s s' : @state T A) : Prop :=
  vecs s' = vecs s ∧ locals s' = locals s ∧ mem s' = mem s.

(** Between [s] and [s'] events were recorded, and none of them is an
    operation that threw. *)
Definition quiet (s s' : @state T A) : Prop :=
  ∃ es, trace s' = trace s ++ es ∧ Forall (fun e => is_throw e = false) es.

(** The strong guarantee for an operation started in [s]: it returns
    normally only if no operation threw, and then [post] holds; if it
    throws, the state is [s] up to the trace; its behaviour is defined. *)
Definition strong_guarantee {R} (s : @state T A) (o : outcome R)
    (post : @state T A → Prop) : Prop :=
  match o with
  | Ret _ s' => quiet s s' ∧ post s'
  | Throw s' => unchanged s s'
  | Undef => False
  end.

(** No operation of the element type and no allocation throws. *)
Definition NeverThrows : Prop := ∀ tr e, throws tr e = false.

(** The element types for which a relocation that fails leaves the old
    buffer as it was: those relocated by copy, and those whose move
    constructor is [noexcept], for which relocation cannot fail. *)
Definition safe_relocation : Prop :=
  relocate_by_move = false ∨ is_nothrow_move_constructible = true.

(** A sequence of appends. *)
Fixpoint appends (this : nat) (l : list init) : M unit :=
  match l with
  | [] => ret ()
  | a :: l' => EmplaceBack this a ;;; appends this l'
  end.

End Ops.


(** ** A concrete element type

    Elements are natural numbers, [T(a)] has the value [a], a moved-from
    element is [0], [T()] is [0] and a default-initialized element is
    [7]. *)
Definition nat_elem (nothrow_move copyable : bool)
    (oracle : list (@event nat nat) → @event nat nat → bool) : ElemType nat nat :=
  {| make := fun a => a;
     moved_from := fun _ => 0;
     value_init := 0;
     default_init := 7;
     is_nothrow_move_constructible := nothrow_move;
     is_copy_constructible := copyable;
     throws := oracle |}.

(** Nothing throws. *)
Definition never : list (@event nat nat) → @event nat nat → bool :=
  fun _ _ => false.

(** The copy constructor throws when it copies the value [v]. *)
Definition copy_throws_on (v : nat) : list (@event nat nat) → @event nat nat → bool :=
  fun _ e => match e with
             | EvCtorCopy x => bool_decide (x = v)
             | _ => false
             end.

(** The copy constructor throws on its [k]-th invocation, counted from [1]. *)
Definition is_copy (e : @event nat nat) : bool :=
  match e with
  | EvCtorCopy _ | EvThrow (EvCtorCopy _) => true
  | _ => false
  end.

Definition kth_copy_throws (k : nat) : list (@event nat nat) → @event nat nat → bool :=
  fun tr e => match e with
              | EvCtorCopy _ => bool_decide (S (length (filter is_copy tr)) = k)
              | _ => false
              end.

(** A state with one vector at address [0] that holds [xs] in a buffer of
    [cap] slots (block [0]), and an empty trace. *)
Definition one_vector (xs : list nat) (cap : nat) : @state nat nat :=
  mkState {[ 0 := mkVector (mkRawMemory (Ptr 0 0) cap) (length xs) ]}
          []
          {[ 0 := (Some <$> xs) ++ replicate (cap - length xs) None ]}
          [].

(** A state with one default-constructed vector at address [0]. *)
Definition empty_vector : @state nat nat :=
  mkState {[ 0 := mkVector (mkRawMemory Null 0) 0 ]} [] ∅ [].

(** A state with two [RawMemory] locals that own blocks [0] and [1]. *)
Definition two_raws : @state nat nat :=
  mkState ∅
          [mkRawMemory (Ptr 0 0) 2; mkRawMemory (Ptr 1 0) 3]
          {[ 0 := [None; None]; 1 := [None; None; None] ]}
          [].

(** A state with two vectors: [[1; 2]] at address [0] and [[5; 6; 7]] in
    a buffer of four slots at address [1]. *)
Definition two_vectors : @state nat nat :=
  mkState {[ 0 := mkVector (mkRawMemory (Ptr 0 0) 2) 2;
             1 := mkVector (mkRawMemory (Ptr 1 0) 4) 3 ]}
          []
          {[ 0 := [Some 1; Some 2]; 1 := [Some 5; Some 6; Some 7; None] ]}
          [].

(** The vector [[1; 2; 3]] at address [0] in a buffer of four slots
    (block [0]), storage for a second vector object at address [1], and
    an empty trace. *)
Definition vector_and_storage : @state nat nat :=
  mkState {[ 0 := mkVector (mkRawMemory (Ptr 0 0) 4) 3;
             1 := mkVector (mkRawMemory Null 0) 0 ]}
          []
          {[ 0 := [Some 1; Some 2; Some 3; None] ]}
          [].

(** The operation attempted after [k] recorded events throws. *)
Definition throws_after (k : nat) : list (@event nat nat) → @event nat nat → bool :=
  fun tr _ => bool_decide (length tr = k).

(** * Properties *)

Section Proofs.

Context {T A : Type} {E : ElemType T A}.

Local Abbreviation M := (@Comp T A).
Local Abbreviation state := (@state T A).

Implicit Types (s : state) (r : rawref) (x y : RawMemory) (p : ptr).

(** ** Running computations *)

Lemma bind_Ret {R R'} (m : M R) (k : R → M R') s a s' :
  m s = Ret a s' → bind m k s = k a s'.
Proof. unfold bind. by intros ->. Qed.

Lemma bind_Throw {R R'} (m : M R) (k : R → M R') s s' :
  m s = Throw s' → bind m k s = Throw s'.
Proof. unfold bind. by intros ->. Qed.

(** ** References to [RawMemory] objects *)

Lemma raw_at_put_ne s r r' x :
  r ≠ r' → raw_at (put_raw r x s) r' = raw_at s r'.
Proof.
  intros Hne. destruct r as [v|i], r' as [v'|i']; simpl; try done.
  - rewrite lookup_alter_ne; [done|congruence].
  - rewrite list_lookup_insert_ne; [done|congruence].
Qed.

Lemma put_raw_mem s r x : mem (put_raw r x s) = mem s.
Proof. by destruct r. Qed.

Lemma put_raw_trace s r x : trace (put_raw r x s) = trace s.
Proof. by destruct r. Qed.

Lemma get_raw_Ret s r x : raw_at s r = Some x → get_raw r s = Ret x s.
Proof. unfold get_raw. by intros ->. Qed.

Lemma set_raw_Ret s r x :
  is_Some (raw_at s r) → set_raw r x s = Ret () (put_raw r x s).
Proof. intros [y Hy]. unfold set_raw. by rewrite (bind_Ret _ _ _ _ _ (get_raw_Ret _ _ _ Hy)). Qed.

Lemma raw_at_put_same s r x : raw_at (put_raw r x s) r = (fun _ => x) <$> raw_at s r.
Proof.
  destruct r as [v|i]; simpl.
  - rewrite lookup_alter_eq. by destruct (vecs s !! v).
  - destruct (decide (i < length (locals s))).
    + rewrite list_lookup_insert_eq by done.
      by destruct (lookup_lt_is_Some_2 (locals s) i l) as [? ->].
    + rewrite list_insert_ge by lia. by rewrite lookup_ge_None_2 by lia.
Qed.

Lemma size_at_put_raw s r x v : size_at (put_raw r x s) v = size_at s v.
Proof.
  destruct r as [w|i]; [|done]. unfold size_at; simpl.
  destruct (decide (w = v)) as [->|].
  - rewrite lookup_alter_eq. by destruct (vecs s !! v).
  - by rewrite lookup_alter_ne.
Qed.

Lemma raw_at_put_size s r v n : raw_at (put_size v n s) r = raw_at s r.
Proof.
  destruct r as [w|i]; [|done]. simpl.
  destruct (decide (v = w)) as [->|].
  - rewrite lookup_alter_eq. by destruct (vecs s !! w).
  - by rewrite lookup_alter_ne.
Qed.

Lemma size_at_put_same s v n : size_at (put_size v n s) v = (fun _ => n) <$> size_at s v.
Proof. unfold size_at; simpl. rewrite lookup_alter_eq. by destruct (vecs s !! v). Qed.

Lemma size_at_put_ne s v w n : v ≠ w → size_at (put_size v n s) w = size_at s w.
Proof. intros. unfold size_at; simpl. by rewrite lookup_alter_ne. Qed.

Lemma get_raw_bind {R} s r x (k : RawMemory → M R) :
  raw_at s r = Some x → bind (get_raw r) k s = k x s.
Proof. intros Hx. unfold bind, get_raw. by rewrite Hx. Qed.

Lemma set_raw_bind {R} s r x y (k : unit → M R) :
  raw_at s r = Some y → bind (set_raw r x) k s = k () (put_raw r x s).
Proof. intros Hy. unfold set_raw. unfold bind at 1. by rewrite (get_raw_bind _ _ _ _ Hy). Qed.

Lemma length_locals_put_raw s r x : length (locals (put_raw r x s)) = length (locals s).
Proof. destruct r; simpl; [done|]. by rewrite length_insert. Qed.

Lemma RawMemory_Swap_Ret s this other x y :
  raw_at s this = Some x → raw_at s other = Some y →
  ∃ s', RawMemory_Swap this other s = Ret () s'
        ∧ raw_at s' this = Some y
        ∧ raw_at s' other = Some (if decide (this = other) then y else x)
        ∧ (∀ r, r ≠ this → r ≠ other → raw_at s' r = raw_at s r)
        ∧ (∀ v, size_at s' v = size_at s v)
        ∧ length (locals s') = length (locals s)
        ∧ mem s' = mem s ∧ trace s' = trace s.
Proof.
  intros Hx Hy. unfold RawMemory_Swap.
  rewrite (get_raw_bind _ _ _ _ Hx), (get_raw_bind _ _ _ _ Hy).
  rewrite (set_raw_bind _ _ _ _ _ Hx).
  destruct (decide (this = other)) as [->|Hne].
  - assert (x = y) as -> by congruence. destruct y as [b c]; simpl.
    erewrite set_raw_bind by (rewrite raw_at_put_same, Hy; done).
    erewrite !get_raw_bind by (rewrite !raw_at_put_same, Hy; done).
    erewrite set_raw_bind by (rewrite !raw_at_put_same, Hy; done).
    eexists. split.
    { apply set_raw_Ret. rewrite !raw_at_put_same, Hy. simpl. eauto. }
    rewrite !raw_at_put_same, Hy, !length_locals_put_raw, !put_raw_mem, !put_raw_trace.
    repeat split; try done.
    + intros r Hr _. by rewrite !raw_at_put_ne.
    + intros v. by rewrite !size_at_put_raw.
  - destruct x as [bx cx], y as [b c]; simpl.
    erewrite set_raw_bind by (rewrite raw_at_put_ne, Hy; done).
    erewrite get_raw_bind by (rewrite raw_at_put_ne, raw_at_put_same, Hx; done).
    erewrite get_raw_bind by (rewrite raw_at_put_same, raw_at_put_ne, Hy; done).
    erewrite set_raw_bind by (rewrite raw_at_put_ne, raw_at_put_same, Hx; done).
    eexists. split.
    { apply set_raw_Ret. rewrite raw_at_put_ne, raw_at_put_same, raw_at_put_ne, Hy by done. eauto. }
    rewrite !length_locals_put_raw, !put_raw_mem, !put_raw_trace. simpl.
    repeat split; try done.
    + rewrite raw_at_put_ne, raw_at_put_same, raw_at_put_ne, raw_at_put_same, Hx by done. done.
    + rewrite raw_at_put_same, raw_at_put_ne, raw_at_put_same, raw_at_put_ne, Hy by done. done.
    + intros r Hr Hr'. by rewrite !raw_at_put_ne.
    + intros v. by rewrite !size_at_put_raw.
Qed.

Lemma vec_lookup_split s v d n :
  vecs s !! v = Some (mkVector d n) ↔ raw_at s (DataOf v) = Some d ∧ size_at s v = Some n.
Proof.
  unfold size_at; simpl. destruct (vecs s !! v) as [[d' n']|]; simpl.
  - split; [by intros [= -> ->]|by intros [[= ->] [= ->]]].
  - split; [done|by intros [? _]].
Qed.

Lemma vec_lookup_ext s s' v :
  raw_at s' (DataOf v) = raw_at s (DataOf v) → size_at s' v = size_at s v →
  vecs s' !! v = vecs s !! v.
Proof.
  unfold size_at; simpl.
  destruct (vecs s' !! v) as [[d' n']|], (vecs s !! v) as [[d n]|]; simpl;
    try done; congruence.
Qed.

Lemma get_size_bind {R} s v n (k : nat → M R) :
  size_at s v = Some n → bind (get_size v) k s = k n s.
Proof. intros Hn. unfold bind, get_size. by rewrite Hn. Qed.

Lemma set_size_bind {R} s v n n' (k : unit → M R) :
  size_at s v = Some n' → bind (set_size v n) k s = k () (put_size v n s).
Proof. intros Hn. unfold set_size. unfold bind at 1. by rewrite (get_size_bind _ _ _ _ Hn). Qed.

Lemma set_size_Ret s v n n' :
  size_at s v = Some n' → set_size v n s = Ret () (put_size v n s).
Proof. intros Hn. unfold set_size. by rewrite (get_size_bind _ _ _ _ Hn). Qed.

Lemma Swap_Ret s this other va vb :
  vecs s !! this = Some va → vecs s !! other = Some vb →
  ∃ s', Swap this other s = Ret () s'
        ∧ vecs s' !! this = Some vb ∧ vecs s' !! other = Some va
        ∧ (∀ v, v ≠ this → v ≠ other → vecs s' !! v = vecs s !! v)
        ∧ locals s' = locals s ∧ mem s' = mem s ∧ trace s' = trace s.
Proof.
  destruct va as [da na], vb as [db nb].
  intros [Hda Hna]%vec_lookup_split [Hdb Hnb]%vec_lookup_split.
  destruct (RawMemory_Swap_Ret _ _ _ _ _ Hda Hdb)
    as (s1 & Hrun & Hthis & Hother & Hframe & Hsize & Hlen & Hmem & Htr).
  unfold Swap. rewrite (bind_Ret _ _ _ _ _ Hrun).
  rewrite (get_size_bind _ _ na), (get_size_bind _ _ nb) by (by rewrite Hsize).
  rewrite (set_size_bind _ _ _ na) by (by rewrite Hsize).
  eexists. split.
  { eapply set_size_Ret.
    destruct (decide (this = other)) as [->|].
    - rewrite size_at_put_same, Hsize, Hnb. done.
    - rewrite size_at_put_ne, Hsize, Hnb by done. done. }
  assert (Hloc : ∀ r', raw_at (put_size other na (put_size this nb s1)) r' = raw_at s1 r')
    by (intros; by rewrite !raw_at_put_size).
  repeat split.
  - apply vec_lookup_split. rewrite Hloc, Hthis. split; [done|].
    destruct (decide (this = other)) as [->|].
    + rewrite size_at_put_same, size_at_put_same, Hsize, Hnb. simpl. congruence.
    + rewrite size_at_put_ne, size_at_put_same, Hsize, Hna by done. done.
  - apply vec_lookup_split. rewrite Hloc, Hother. split.
    + case_decide; [|done]. subst. congruence.
    + rewrite size_at_put_same.
      destruct (decide (this = other)) as [->|].
      * rewrite size_at_put_same, Hsize, Hnb. done.
      * rewrite size_at_put_ne, Hsize, Hnb by done. done.
  - intros v Hv Hv'. apply vec_lookup_ext.
    + rewrite Hloc. apply Hframe; congruence.
    + rewrite !size_at_put_ne by done. apply Hsize.
  - apply list_eq. intros i.
    simpl. apply (Hframe (Local i)); done.
  - done.
  - done.
Qed.

(** ** Moving [RawMemory] and [Vector] objects *)

Lemma block_of_mem s s' p : mem s' = mem s → block_of s' p = block_of s p.
Proof. intros Hm. destruct p as [|b [|o]]; simpl; by rewrite ?Hm. Qed.

(** C8 (amended): move construction gives the new object the allocation
    and the capacity of the source and leaves the source with the null
    pointer and capacity 0; move assignment exchanges the two objects, so
    the destination receives the allocation and the capacity of the
    source and the source receives what the destination had.  Neither
    allocates, frees or touches a block: the allocation is never
    duplicated. *)
Theorem RawMemory_move_transfers_ownership s this other x y :
  raw_at s this = Some x → raw_at s other = Some y → this ≠ other →
  (∃ s', RawMemory_ctor_move this other s = Ret () s'
         ∧ raw_at s' this = Some y
         ∧ raw_at s' other = Some (mkRawMemory Null 0)
         ∧ mem s' = mem s ∧ trace s' = trace s)
  ∧ (∃ s', RawMemory_assign_move this other s = Ret () s'
           ∧ raw_at s' this = Some y
           ∧ raw_at s' other = Some x
           ∧ mem s' = mem s ∧ trace s' = trace s).
Proof.
  intros Hx Hy Hne. split.
  - unfold RawMemory_ctor_move, RawMemory_ctor_default.
    rewrite (set_raw_bind _ _ _ _ _ Hx).
    destruct (RawMemory_Swap_Ret (put_raw this (mkRawMemory Null 0) s) this other
                (mkRawMemory Null 0) y)
      as (s' & Hrun & Hthis & Hother & _ & _ & _ & Hmem & Htr).
    { by rewrite raw_at_put_same, Hx. }
    { by rewrite raw_at_put_ne. }
    exists s'. rewrite decide_False in Hother by done.
    by rewrite Hmem, Htr, put_raw_mem, put_raw_trace.
  - unfold RawMemory_assign_move.
    destruct (RawMemory_Swap_Ret s this other x y Hx Hy)
      as (s' & Hrun & Hthis & Hother & _ & _ & _ & Hmem & Htr).
    exists s'. by rewrite decide_False in Hother by done.
Qed.

(** C9: move assignment [B = std::move(A)] is a symmetric swap: [B] ends
    with the buffer, capacity, size and elements [A] had and [A] with
    those [B] had; no element is touched. *)
Theorem move_assignment_swaps s a b bufa bufb xs ys ca cb :
  is_vector s a bufa xs ca → is_vector s b bufb ys cb →
  ∃ s', Vector_assign_move b a s = Ret () s'
        ∧ is_vector s' b bufa xs ca
        ∧ is_vector s' a bufb ys cb
        ∧ (∀ v, v ≠ a → v ≠ b → vecs s' !! v = vecs s !! v)
        ∧ mem s' = mem s ∧ trace s' = trace s.
Proof.
  intros (Ha & Hla & Hba) (Hb & Hlb & Hbb).
  destruct (Swap_Ret s b a _ _ Hb Ha) as (s' & Hrun & Hb' & Ha' & Hfr & _ & Hmem & Htr).
  exists s'. unfold is_vector. rewrite !(block_of_mem s s') by done.
  repeat split; try done. intros v ??. by apply Hfr.
Qed.

(** C10: the self-assignment [v = v] returns at once: the state is the
    same, trace included, so no element is copied or destroyed.  It holds
    for both variants of the copy assignment. *)
Theorem self_copy_assignment_is_noop s v :
  Vector_assign_copy v v s = Ret () s ∧ Vector_assign_copy_v0 v v s = Ret () s.
Proof.
  unfold Vector_assign_copy, Vector_assign_copy_v0.
  split; (destruct (decide (v ≠ v)) as [Hne|_]; [by destruct Hne|reflexivity]).
Qed.

(** ** Element operations when nothing throws *)

Lemma frame2_refl s b1 b2 : frame2 s s b1 b2.
Proof. by unfold frame2. Qed.

Lemma frame2_trans s s1 s2 b1 b2 :
  frame2 s s1 b1 b2 → frame2 s1 s2 b1 b2 → frame2 s s2 b1 b2.
Proof.
  intros (Hv & Hl & Hm) (Hv' & Hl' & Hm'). unfold frame2.
  rewrite Hv', Hl'. split_and!; [done..|].
  intros b ??. rewrite Hm' by done. by apply Hm.
Qed.

Lemma frame2_sym_blocks s s' b1 b2 : frame2 s s' b1 b2 → frame2 s s' b2 b1.
Proof. intros (? & ? & Hm). split_and!; [done..|]. intros b ??. by apply Hm. Qed.

Lemma frame2_raw_at s s' b1 b2 r : frame2 s s' b1 b2 → raw_at s' r = raw_at s r.
Proof. intros (Hv & Hl & _). destruct r; simpl; by rewrite ?Hv, ?Hl. Qed.

Lemma frame2_size_at s s' b1 b2 v : frame2 s s' b1 b2 → size_at s' v = size_at s v.
Proof. intros (Hv & _). unfold size_at. by rewrite Hv. Qed.

Lemma slot_of_lookup s b o sl :
  mem s !! b = Some sl → slot_of s (Ptr b o) = sl !! o.
Proof. simpl. by intros ->. Qed.

Lemma get_slot_bind {R} s p o (k : option T → M R) :
  slot_of s p = Some o → bind (get_slot p) k s = k o s.
Proof. intros Ho. unfold bind, get_slot. by rewrite Ho. Qed.

Lemma load_bind {R} s p v (k : T → M R) :
  slot_of s p = Some (Some v) → bind (load p) k s = k v s.
Proof. intros Ho. unfold load. unfold bind at 1. by rewrite (get_slot_bind _ _ _ _ Ho). Qed.

Lemma put_slot_Ret s b o sl v :
  mem s !! b = Some sl → o < length sl →
  put_slot (Ptr b o) v s = Ret () (set_mem <[b := <[o := v]> sl]> s).
Proof. intros Hb Ho. unfold put_slot. rewrite Hb. by rewrite decide_True. Qed.

Lemma attempt_Ret (Hnt : NeverThrows) e s : attempt e s = Ret () (log e s).
Proof. unfold attempt. by rewrite Hnt. Qed.

Lemma attempt_move_Ret (Hnt : NeverThrows) e s : attempt_move e s = Ret () (log e s).
Proof. unfold attempt_move. destruct is_nothrow_move_constructible; [done|by apply attempt_Ret]. Qed.

Lemma run_ctor_Ret (Hnt : NeverThrows) i s : ∃ e, run_ctor i s = Ret (value_of i) (log e s).
Proof.
  destruct i; simpl; eexists.
  - by rewrite (bind_Ret _ _ _ _ _ (attempt_Ret Hnt _ _)).
  - by rewrite (bind_Ret _ _ _ _ _ (attempt_move_Ret Hnt _ _)).
  - by rewrite (bind_Ret _ _ _ _ _ (attempt_Ret Hnt _ _)).
Qed.

(** Placement new on the slot [o] of the block [b]. *)
Lemma construct_at_Ret (Hnt : NeverThrows) s b o sl i :
  mem s !! b = Some sl → o < length sl →
  ∃ s', construct_at (Ptr b o) i s = Ret () s'
        ∧ mem s' !! b = Some (<[o := Some (value_of i)]> sl)
        ∧ frame2 s s' b b.
Proof.
  intros Hb Ho. unfold construct_at.
  destruct (lookup_lt_is_Some_2 sl o Ho) as [v Hv].
  erewrite get_slot_bind by (erewrite slot_of_lookup; eauto).
  destruct (run_ctor_Ret Hnt i s) as [e He]. rewrite (bind_Ret _ _ _ _ _ He).
  eexists. split; [by apply put_slot_Ret|]. unfold frame2; simpl.
  split; [by rewrite lookup_insert_eq|].
  split_and!; [done..|]. intros b' ? _. by rewrite lookup_insert_ne.
Qed.


Lemma insert_middle {X} (pre post : list X) (x v : X) :
  <[length pre := v]> (pre ++ x :: post) = pre ++ v :: post.
Proof.
  replace (length pre) with (length pre + 0) by lia.
  by rewrite insert_app_r.
Qed.

Lemma destroy_at_Ret s b o sl v :
  mem s !! b = Some sl → sl !! o = Some (Some v) →
  ∃ s', destroy_at (Ptr b o) s = Ret () s'
        ∧ mem s' !! b = Some (<[o := None]> sl)
        ∧ trace s' = trace s ++ [EvDtor v]
        ∧ frame2 s s' b b.
Proof.
  intros Hb Ho. unfold destroy_at.
  erewrite load_bind by (erewrite slot_of_lookup; eauto).
  unfold record. unfold bind at 1.
  eexists. split.
  { apply put_slot_Ret; [done|]. by eapply lookup_lt_Some. }
  unfold frame2; simpl. rewrite lookup_insert_eq.
  split_and!; [done..|]. intros b' ? _. by rewrite lookup_insert_ne.
Qed.


(** Copy and move construction from one block into another. *)
Lemma copy_construct_Ret (Hnt : NeverThrows) s b1 o1 sl1 b2 o2 sl2 v :
  b1 ≠ b2 →
  mem s !! b1 = Some sl1 → sl1 !! o1 = Some (Some v) →
  mem s !! b2 = Some sl2 → o2 < length sl2 →
  ∃ s', copy_construct (Ptr b2 o2) (Ptr b1 o1) s = Ret () s'
        ∧ mem s' !! b1 = Some sl1
        ∧ mem s' !! b2 = Some (<[o2 := Some v]> sl2)
        ∧ frame2 s s' b1 b2.
Proof.
  intros Hne H1 Ho1 H2 Ho2. unfold copy_construct.
  erewrite load_bind by (erewrite slot_of_lookup; eauto).
  destruct (construct_at_Ret Hnt s b2 o2 sl2 (ByCopy v) H2 Ho2) as (s' & Hrun & Hm & Hv & Hl & Hfr).
  exists s'. split; [done|]. split; [|split; [done|]].
  - rewrite Hfr by done. done.
  - split_and!; [done..|]. intros b ? ?. by apply Hfr.
Qed.

Lemma move_construct_Ret (Hnt : NeverThrows) s b1 o1 sl1 b2 o2 sl2 v :
  b1 ≠ b2 →
  mem s !! b1 = Some sl1 → sl1 !! o1 = Some (Some v) →
  mem s !! b2 = Some sl2 → o2 < length sl2 →
  ∃ s', move_construct (Ptr b2 o2) (Ptr b1 o1) s = Ret () s'
        ∧ mem s' !! b1 = Some (<[o1 := Some (moved_from v)]> sl1)
        ∧ mem s' !! b2 = Some (<[o2 := Some v]> sl2)
        ∧ frame2 s s' b1 b2.
Proof.
  intros Hne H1 Ho1 H2 Ho2. unfold move_construct.
  destruct (lookup_lt_is_Some_2 sl2 o2 Ho2) as [v2 Hv2].
  erewrite load_bind by (erewrite slot_of_lookup; eauto).
  erewrite get_slot_bind by (erewrite slot_of_lookup; eauto).
  rewrite (bind_Ret _ _ _ _ _ (attempt_move_Ret Hnt _ _)).
  erewrite bind_Ret by (apply put_slot_Ret; [done|by eapply lookup_lt_Some]).
  eexists. split.
  { apply put_slot_Ret; [|done]. simpl. by rewrite lookup_insert_ne. }
  unfold frame2; simpl. rewrite lookup_insert_eq, lookup_insert_ne, lookup_insert_eq by done.
  split_and!; [done..|]. intros b ? ?. by rewrite !lookup_insert_ne.
Qed.

(** Move construction and move assignment inside one block. *)
Lemma move_construct_same_Ret (Hnt : NeverThrows) s b o1 o2 sl v :
  mem s !! b = Some sl → sl !! o1 = Some (Some v) → o2 < length sl →
  ∃ s', move_construct (Ptr b o2) (Ptr b o1) s = Ret () s'
        ∧ mem s' !! b = Some (<[o2 := Some v]> (<[o1 := Some (moved_from v)]> sl))
        ∧ frame2 s s' b b.
Proof.
  intros Hb Ho1 Ho2. unfold move_construct.
  destruct (lookup_lt_is_Some_2 sl o2 Ho2) as [v2 Hv2].
  erewrite load_bind by (erewrite slot_of_lookup; eauto).
  erewrite get_slot_bind by (erewrite slot_of_lookup; eauto).
  rewrite (bind_Ret _ _ _ _ _ (attempt_move_Ret Hnt _ _)).
  erewrite bind_Ret by (apply put_slot_Ret; [done|by eapply lookup_lt_Some]).
  eexists. split.
  { apply put_slot_Ret; simpl; [by rewrite lookup_insert_eq|]. by rewrite length_insert. }
  unfold frame2; simpl. rewrite lookup_insert_eq.
  split_and!; [done..|]. intros b' ? _. by rewrite !lookup_insert_ne.
Qed.

Lemma move_assign_same_Ret (Hnt : NeverThrows) s b od os sl v old :
  mem s !! b = Some sl → sl !! os = Some (Some v) → sl !! od = Some (Some old) →
  ∃ s', move_assign (Ptr b od) (Ptr b os) s = Ret () s'
        ∧ mem s' !! b = Some (<[os := Some (moved_from v)]> (<[od := Some v]> sl))
        ∧ frame2 s s' b b.
Proof.
  intros Hb Hos Hod. unfold move_assign.
  erewrite !load_bind by (erewrite slot_of_lookup; eauto).
  rewrite (bind_Ret _ _ _ _ _ (attempt_Ret Hnt _ _)).
  erewrite bind_Ret by (apply put_slot_Ret; [done|by eapply lookup_lt_Some]).
  eexists. split.
  { apply put_slot_Ret; simpl; [by rewrite lookup_insert_eq|].
    rewrite length_insert. by eapply lookup_lt_Some. }
  unfold frame2; simpl. rewrite lookup_insert_eq.
  split_and!; [done..|]. intros b' ? _. by rewrite !lookup_insert_ne.
Qed.

Lemma move_assign_Ret (Hnt : NeverThrows) s b1 o1 sl1 b2 o2 sl2 v old :
  b1 ≠ b2 →
  mem s !! b1 = Some sl1 → sl1 !! o1 = Some (Some v) →
  mem s !! b2 = Some sl2 → sl2 !! o2 = Some (Some old) →
  ∃ s', move_assign (Ptr b2 o2) (Ptr b1 o1) s = Ret () s'
        ∧ mem s' !! b1 = Some (<[o1 := Some (moved_from v)]> sl1)
        ∧ mem s' !! b2 = Some (<[o2 := Some v]> sl2)
        ∧ frame2 s s' b1 b2.
Proof.
  intros Hne H1 Ho1 H2 Ho2. unfold move_assign.
  erewrite !load_bind by (erewrite slot_of_lookup; eauto).
  rewrite (bind_Ret _ _ _ _ _ (attempt_Ret Hnt _ _)).
  erewrite bind_Ret by (apply put_slot_Ret; [done|by eapply lookup_lt_Some]).
  eexists. split.
  { apply put_slot_Ret; simpl; [by rewrite lookup_insert_ne|]. by eapply lookup_lt_Some. }
  unfold frame2; simpl. rewrite lookup_insert_eq, lookup_insert_ne, lookup_insert_eq by done.
  split_and!; [done..|]. intros b ? ?. by rewrite !lookup_insert_ne.
Qed.

(** ** The algorithms when nothing throws *)

Lemma on_throw_Ret {R} (m : M R) c s a s' : m s = Ret a s' → on_throw m c s = Ret a s'.
Proof. unfold on_throw, try_catch. by intros ->. Qed.

Lemma finally_Ret {R} (m : M R) c s a s1 s2 :
  m s = Ret a s1 → c s1 = Ret () s2 → finally m c s = Ret a s2.
Proof. unfold finally. intros ->. unfold bind. by intros ->. Qed.

(** [destroy_n] turns the live range into raw memory and runs one
    destructor per element, in order. *)
Lemma destroy_n_Ret s b o pre xs post :
  o = length pre →
  mem s !! b = Some (pre ++ (Some <$> xs) ++ post) →
  ∃ s', destroy_n (Ptr b o) (length xs) s = Ret (Ptr b (o + length xs)) s'
        ∧ mem s' !! b = Some (pre ++ replicate (length xs) None ++ post)
        ∧ trace s' = trace s ++ (EvDtor <$> xs)
        ∧ frame2 s s' b b.
Proof.
  revert s o pre. induction xs as [|v xs IH]; intros s o pre -> Hb.
  - exists s. simpl. rewrite Nat.add_0_r, app_nil_r. by split_and!; [..|apply frame2_refl].
  - simpl in Hb.
    destruct (destroy_at_Ret s b (length pre) _ v Hb) as (s1 & Hrun & Hb1 & Htr1 & Hfr1).
    { apply list_lookup_middle. done. }
    rewrite insert_middle in Hb1.
    destruct (IH s1 (length pre + 1) (pre ++ [None])) as (s2 & Hrun2 & Hb2 & Htr2 & Hfr2).
    { rewrite length_app. simpl. lia. }
    { by rewrite <- app_assoc. }
    exists s2. simpl. rewrite (bind_Ret _ _ _ _ _ Hrun).
    split_and!.
    + rewrite Hrun2. do 2 f_equal. lia.
    + by rewrite Hb2, <- app_assoc.
    + by rewrite Htr2, Htr1, <- app_assoc.
    + by eapply frame2_trans.
Qed.


(** Relocation from one block into raw slots of another. *)
Lemma uninitialized_move_n_Ret (Hnt : NeverThrows) s b1 o1 pre1 xs post1 b2 o2 pre2 raw post2 :
  b1 ≠ b2 → o1 = length pre1 → o2 = length pre2 → length raw = length xs →
  mem s !! b1 = Some (pre1 ++ (Some <$> xs) ++ post1) →
  mem s !! b2 = Some (pre2 ++ raw ++ post2) →
  ∃ s' a, uninitialized_move_n (Ptr b1 o1) (length xs) (Ptr b2 o2) s = Ret a s'
          ∧ mem s' !! b1 = Some (pre1 ++ (Some ∘ moved_from <$> xs) ++ post1)
          ∧ mem s' !! b2 = Some (pre2 ++ (Some <$> xs) ++ post2)
          ∧ frame2 s s' b1 b2.
Proof.
  intros Hne. revert s o1 pre1 o2 pre2 raw.
  induction xs as [|v xs IH]; intros s o1 pre1 o2 pre2 raw -> -> Hlen H1 H2.
  - destruct raw; [|done]. exists s. eexists. simpl.
    by split_and!; [..|apply frame2_refl].
  - destruct raw as [|w raw]; [done|]. simpl in H1, H2, Hlen.
    destruct (move_construct_Ret Hnt s b1 (length pre1) _ b2 (length pre2) _ v Hne H1
                (list_lookup_middle _ _ _ _ eq_refl) H2)
      as (s1 & Hrun & H1' & H2' & Hfr1).
    { rewrite length_app. simpl. lia. }
    rewrite insert_middle in H1', H2'.
    destruct (IH s1 (length pre1 + 1) (pre1 ++ [Some (moved_from v)])
                 (length pre2 + 1) (pre2 ++ [Some v]) raw)
      as (s2 & a & Hrun2 & H1'' & H2'' & Hfr2).
    { rewrite length_app. simpl. lia. }
    { rewrite length_app. simpl. lia. }
    { lia. }
    { by rewrite <- app_assoc. }
    { by rewrite <- app_assoc. }
    exists s2, a. simpl. rewrite (bind_Ret _ _ _ _ _ Hrun).
    split_and!.
    + by apply on_throw_Ret.
    + by rewrite H1'', <- app_assoc.
    + by rewrite H2'', <- app_assoc.
    + by eapply frame2_trans.
Qed.

Lemma uninitialized_copy_n_Ret (Hnt : NeverThrows) s b1 o1 pre1 xs post1 b2 o2 pre2 raw post2 :
  b1 ≠ b2 → o1 = length pre1 → o2 = length pre2 → length raw = length xs →
  mem s !! b1 = Some (pre1 ++ (Some <$> xs) ++ post1) →
  mem s !! b2 = Some (pre2 ++ raw ++ post2) →
  ∃ s' a, uninitialized_copy_n (Ptr b1 o1) (length xs) (Ptr b2 o2) s = Ret a s'
          ∧ mem s' !! b1 = Some (pre1 ++ (Some <$> xs) ++ post1)
          ∧ mem s' !! b2 = Some (pre2 ++ (Some <$> xs) ++ post2)
          ∧ frame2 s s' b1 b2.
Proof.
  intros Hne. revert s o1 pre1 o2 pre2 raw.
  induction xs as [|v xs IH]; intros s o1 pre1 o2 pre2 raw -> -> Hlen H1 H2.
  - destruct raw; [|done]. exists s. eexists. simpl.
    by split_and!; [..|apply frame2_refl].
  - destruct raw as [|w raw]; [done|]. simpl in H1, H2, Hlen.
    destruct (copy_construct_Ret Hnt s b1 (length pre1) _ b2 (length pre2) _ v Hne H1
                (list_lookup_middle _ _ _ _ eq_refl) H2)
      as (s1 & Hrun & H1' & H2' & Hfr1).
    { rewrite length_app. simpl. lia. }
    rewrite insert_middle in H2'.
    destruct (IH s1 (length pre1 + 1) (pre1 ++ [Some v])
                 (length pre2 + 1) (pre2 ++ [Some v]) raw)
      as (s2 & a & Hrun2 & H1'' & H2'' & Hfr2).
    { rewrite length_app. simpl. lia. }
    { rewrite length_app. simpl. lia. }
    { lia. }
    { by rewrite <- app_assoc. }
    { by rewrite <- app_assoc. }
    exists s2, a. simpl. rewrite (bind_Ret _ _ _ _ _ Hrun).
    split_and!.
    + by apply on_throw_Ret.
    + by rewrite H1'', <- app_assoc.
    + by rewrite H2'', <- app_assoc.
    + by eapply frame2_trans.
Qed.

Lemma snoc_middle {X} (pre rest : list X) (x : X) :
  pre ++ x :: rest = (pre ++ [x]) ++ rest.
Proof. by rewrite <- app_assoc. Qed.

Lemma bind_ret {R R'} (a : R) (k : R → M R') s : bind (ret a) k s = k a s.
Proof. done. Qed.

(** [std::move] one slot to the left, inside one block. *)
Lemma move_loop_Ret (Hnt : NeverThrows) s b o pre d ys post :
  o = length pre →
  mem s !! b = Some (pre ++ Some d :: (Some <$> ys) ++ post) →
  ∃ s' a d', move_loop (Ptr b (o + 1)) (length ys) (Ptr b o) s = Ret a s'
             ∧ mem s' !! b = Some (pre ++ (Some <$> ys) ++ Some d' :: post)
             ∧ frame2 s s' b b.
Proof.
  revert s o pre d. induction ys as [|y ys IH]; intros s o pre d -> Hb.
  - exists s. eexists. exists d. simpl. by split_and!; [..|apply frame2_refl].
  - rewrite fmap_cons in Hb. rewrite <- app_comm_cons in Hb.
    assert (Hlen : length (pre ++ [Some d]) = length pre + 1)
      by (rewrite length_app; simpl; lia).
    destruct (move_assign_same_Ret Hnt s b (length pre) (length pre + 1) _ y d Hb)
      as (s1 & Hrun & Hb1 & Hfr1).
    { rewrite (snoc_middle pre), <- Hlen. by apply list_lookup_middle. }
    { by apply list_lookup_middle. }
    rewrite insert_middle in Hb1.
    rewrite (snoc_middle pre) in Hb1.
    replace (length pre + 1) with (length (pre ++ [Some y])) in Hb1
      by (rewrite length_app; simpl; lia).
    rewrite insert_middle in Hb1.
    destruct (IH s1 (length pre + 1) (pre ++ [Some y]) (moved_from y))
      as (s2 & a & d' & Hrun2 & Hb2 & Hfr2).
    { rewrite length_app. simpl. lia. }
    { done. }
    exists s2, a, d'. simpl. rewrite (bind_Ret _ _ _ _ _ Hrun).
    split_and!.
    + done.
    + by rewrite Hb2, <- app_assoc.
    + by eapply frame2_trans.
Qed.

(** [std::move_backward] one slot to the right, inside one block. *)
Lemma move_backward_loop_Ret (Hnt : NeverThrows) s b o pre ys d post :
  o = length pre →
  mem s !! b = Some (pre ++ (Some <$> ys) ++ Some d :: post) →
  ∃ s' a d', move_backward_loop (length ys) (Ptr b (o + length ys))
               (Ptr b (o + length ys + 1)) s = Ret a s'
             ∧ mem s' !! b = Some (pre ++ Some d' :: (Some <$> ys) ++ post)
             ∧ frame2 s s' b b.
Proof.
  revert s o d post. induction ys as [|y ys IH] using rev_ind; intros s o d post -> Hb.
  - exists s. eexists. exists d. simpl. by split_and!; [..|apply frame2_refl].
  - rewrite fmap_app, fmap_cons, fmap_nil in Hb.
    rewrite <- (app_assoc _ [Some y]), <- app_comm_cons, app_nil_l, app_assoc in Hb.
    assert (Hlen : length (pre ++ (Some <$> ys)) = length pre + length ys)
      by (by rewrite length_app, length_fmap).
    assert (Hlen' : length ((pre ++ (Some <$> ys)) ++ [Some y]) = S (length pre + length ys))
      by (rewrite length_app, Hlen; simpl; lia).
    destruct (move_assign_same_Ret Hnt s b (S (length pre + length ys))
                (length pre + length ys) _ y d Hb)
      as (s1 & Hrun & Hb1 & Hfr1).
    { rewrite <- Hlen. by apply list_lookup_middle. }
    { rewrite snoc_middle, <- Hlen'. by apply list_lookup_middle. }
    rewrite snoc_middle, <- Hlen', insert_middle, <- snoc_middle in Hb1.
    rewrite <- Hlen, insert_middle in Hb1.
    destruct (IH s1 (length pre) (moved_from y) (Some y :: post))
      as (s2 & a & d' & Hrun2 & Hb2 & Hfr2).
    { done. }
    { by rewrite Hb1, <- app_assoc. }
    exists s2, a, d'.
    rewrite length_app. simpl.
    replace (length pre + (length ys + 1) + 1) with (S (S (length pre + length ys))) by lia.
    replace (length pre + (length ys + 1)) with (S (length pre + length ys)) by lia.
    replace (length ys + 1) with (S (length ys)) by lia.
    simpl. rewrite !bind_ret, (bind_Ret _ _ _ _ _ Hrun).
    split_and!.
    + replace (length pre + length ys + 1) with (S (length pre + length ys)) in Hrun2 by lia.
      done.
    + rewrite Hb2, fmap_app. simpl. by rewrite <- app_assoc.
    + by eapply frame2_trans.
Qed.

(** ** Reading the fields of a vector *)

Lemma is_vector_intro s this buf xs cap :
  raw_at s (DataOf this) = Some (mkRawMemory buf cap) →
  size_at s this = Some (length xs) →
  length xs ≤ cap →
  block_of s buf = Some (layout xs cap) →
  is_vector s this buf xs cap.
Proof. intros Hr Hs ??. split_and!; [|done..]. apply vec_lookup_split. done. Qed.

Lemma is_vector_raw_at s this buf xs cap :
  is_vector s this buf xs cap → raw_at s (DataOf this) = Some (mkRawMemory buf cap).
Proof. intros (Hv & _). by apply vec_lookup_split in Hv as [? _]. Qed.

Lemma is_vector_size_at s this buf xs cap :
  is_vector s this buf xs cap → size_at s this = Some (length xs).
Proof. intros (Hv & _). by apply vec_lookup_split in Hv as [_ ?]. Qed.

Lemma length_layout (xs : list T) cap : length xs ≤ cap → length (layout xs cap) = cap.
Proof. intros. unfold layout. rewrite length_app, length_fmap, length_replicate. lia. Qed.

(** A vector with room for an element owns a block. *)
Lemma is_vector_block s this buf xs cap :
  is_vector s this buf xs cap → 0 < cap →
  ∃ b, buf = Ptr b 0 ∧ mem s !! b = Some (layout xs cap).
Proof.
  intros (_ & Hle & Hb) Hcap. destruct buf as [|b [|o]]; simpl in Hb; [|by eauto|done].
  injection Hb as Hb. apply (f_equal length) in Hb. rewrite length_layout in Hb by done.
  simpl in Hb. lia.
Qed.

Lemma RawMemory_plus_bind {R} s r x off (k : ptr → M R) :
  raw_at s r = Some x → off ≤ capacity_ x →
  bind (RawMemory_plus r off) k s = k (ptr_add (buffer_ x) off) s.
Proof.
  intros Hx Hoff. unfold RawMemory_plus. unfold bind at 1.
  rewrite (get_raw_bind _ _ _ _ Hx). by rewrite decide_True.
Qed.

Lemma RawMemory_index_bind {R} s r x i (k : ptr → M R) :
  raw_at s r = Some x → i < capacity_ x →
  bind (RawMemory_index r i) k s = k (ptr_add (buffer_ x) i) s.
Proof.
  intros Hx Hi. unfold RawMemory_index. unfold bind at 1.
  rewrite (get_raw_bind _ _ _ _ Hx). by rewrite decide_True.
Qed.

Lemma RawMemory_index_Ret s r x i :
  raw_at s r = Some x → i < capacity_ x →
  RawMemory_index r i s = Ret (ptr_add (buffer_ x) i) s.
Proof.
  intros Hx Hi. unfold RawMemory_index.
  rewrite (get_raw_bind _ _ _ _ Hx). by rewrite decide_True.
Qed.

Lemma GetAddress_bind {R} s r x (k : ptr → M R) :
  raw_at s r = Some x → bind (GetAddress r) k s = k (buffer_ x) s.
Proof. intros Hx. unfold GetAddress. unfold bind at 1. by rewrite (get_raw_bind _ _ _ _ Hx). Qed.

Lemma RawMemory_Capacity_bind {R} s r x (k : nat → M R) :
  raw_at s r = Some x → bind (RawMemory_Capacity r) k s = k (capacity_ x) s.
Proof.
  intros Hx. unfold RawMemory_Capacity. unfold bind at 1.
  by rewrite (get_raw_bind _ _ _ _ Hx).
Qed.

Lemma layout_snoc (xs : list T) (v : T) cap :
  length xs < cap →
  layout (xs ++ [v]) cap = (Some <$> xs) ++ Some v :: replicate (cap - S (length xs)) None.
Proof.
  intros. unfold layout. rewrite fmap_app, length_app, <- app_assoc. simpl.
  do 3 f_equal. lia.
Qed.

Lemma layout_raw (xs : list T) cap :
  length xs < cap →
  layout xs cap = (Some <$> xs) ++ None :: replicate (cap - S (length xs)) None.
Proof.
  intros. unfold layout. f_equal.
  replace (cap - length xs) with (S (cap - S (length xs))) by lia. done.
Qed.

(** ** [PopBack] and [Erase] *)

Lemma PopBack_Ret s this buf xs (v : T) cap :
  is_vector s this buf (xs ++ [v]) cap →
  ∃ s', PopBack this s = Ret () s'
        ∧ is_vector s' this buf xs cap
        ∧ trace s' = trace s ++ [EvDtor v].
Proof.
  intros Hv.
  pose proof (is_vector_raw_at _ _ _ _ _ Hv) as Hraw.
  pose proof (is_vector_size_at _ _ _ _ _ Hv) as Hsize.
  pose proof Hv as (_ & Hle & _). rewrite length_app in Hle, Hsize. simpl in Hle, Hsize.
  destruct (is_vector_block _ _ _ _ _ Hv) as (b & -> & Hb); [lia|].
  rewrite layout_snoc in Hb by lia.
  unfold PopBack.
  rewrite (get_size_bind _ _ _ _ Hsize).
  rewrite (RawMemory_plus_bind _ _ _ _ _ Hraw) by (simpl; lia).
  simpl. replace (length xs + 1) with (S (length xs)) by lia. simpl. rewrite bind_ret.
  destruct (destroy_at_Ret s b (length xs) _ v Hb) as (s1 & Hrun & Hb1 & Htr & Hfr).
  { rewrite <- (length_fmap Some xs). by apply list_lookup_middle. }
  rewrite <- (length_fmap Some xs) in Hb1 at 1. rewrite insert_middle in Hb1.
  rewrite (bind_Ret _ _ _ _ _ Hrun).
  eexists. split.
  { eapply set_size_Ret. by rewrite (frame2_size_at _ _ _ _ _ Hfr). }
  split; [|done].
  apply is_vector_intro.
  - by rewrite raw_at_put_size, (frame2_raw_at _ _ _ _ _ Hfr).
  - rewrite size_at_put_same, (frame2_size_at _ _ _ _ _ Hfr), Hsize. simpl.
    f_equal. lia.
  - lia.
  - simpl. rewrite Hb1. f_equal. rewrite layout_raw by lia. done.
Qed.

Lemma ptr_diff_same b o1 o2 : o2 ≤ o1 → ptr_diff (Ptr b o1) (Ptr b o2) = Some (o1 - o2).
Proof. intros. simpl. by rewrite decide_True. Qed.

Lemma bind_assoc {R R' R''} (m : M R) (f : R → M R') (g : R' → M R'') s :
  bind (bind m f) g s = bind m (fun a => bind (f a) g) s.
Proof. unfold bind. by destruct (m s). Qed.

Lemma end_bind {R} s this x n (k : ptr → M R) :
  raw_at s (DataOf this) = Some x → size_at s this = Some n → n ≤ capacity_ x →
  bind (end_ this) k s = k (ptr_add (buffer_ x) n) s.
Proof.
  intros Hx Hn Hle. unfold end_. rewrite bind_assoc, (get_size_bind _ _ _ _ Hn).
  by rewrite (RawMemory_plus_bind _ _ _ _ _ Hx).
Qed.

Lemma cend_bind {R} s this x n (k : ptr → M R) :
  raw_at s (DataOf this) = Some x → size_at s this = Some n → n ≤ capacity_ x →
  bind (cend this) k s = k (ptr_add (buffer_ x) n) s.
Proof. apply end_bind. Qed.

(** C5: for a position [p] below the size, [Erase] returns the same
    position, the vector keeps its buffer and capacity and holds the
    elements before [p] followed by the elements after [p]: the size
    drops by one, the elements before [p] stay where they are and every
    later element moves one slot to the left. *)
Theorem Erase_removes_position (Hnt : NeverThrows) s this buf xs cap n :
  is_vector s this buf xs cap → n < length xs →
  ∃ s', Erase this (ptr_add buf n) s = Ret (ptr_add buf n) s'
        ∧ is_vector s' this buf (take n xs ++ drop (S n) xs) cap
        ∧ size_at s' this = Some (length xs - 1)
        ∧ (∀ i, i < n → (take n xs ++ drop (S n) xs) !! i = xs !! i)
        ∧ (∀ i, n ≤ i → (take n xs ++ drop (S n) xs) !! i = xs !! S i).
Proof.
  intros Hv Hn.
  pose proof (is_vector_raw_at _ _ _ _ _ Hv) as Hraw.
  pose proof (is_vector_size_at _ _ _ _ _ Hv) as Hsize.
  pose proof Hv as (_ & Hle & _).
  destruct (is_vector_block _ _ _ _ _ Hv) as (b & -> & Hb); [lia|].
  destruct (lookup_lt_is_Some_2 xs n Hn) as [d Hd].
  pose proof (take_drop_middle xs n d Hd) as Hxs.
  set (pre := take n xs) in *. set (ys := drop (S n) xs) in *.
  assert (Hpre : length pre = n) by (unfold pre; rewrite length_take; lia).
  assert (Hys : length ys = length xs - S n) by (unfold ys; by rewrite length_drop).
  unfold layout in Hb. rewrite <- Hxs in Hb at 1.
  rewrite fmap_app, fmap_cons, <- app_assoc, <- app_comm_cons in Hb.
  unfold Erase.
  rewrite (end_bind _ _ _ _ _ Hraw Hsize) by done.
  simpl. unfold std_move.
  rewrite bind_assoc, ptr_diff_same by lia. cbn [from_option]. rewrite bind_ret.
  destruct (move_loop_Ret Hnt s b n (Some <$> pre) d ys
              (replicate (cap - length xs) None))
    as (s1 & a & d' & Hrun & Hb1 & Hfr); [by rewrite length_fmap|done|].
  replace (length xs - (n + 1)) with (length ys) by lia.
  rewrite (bind_Ret _ _ _ _ _ Hrun).
  destruct (PopBack_Ret s1 this (Ptr b 0) (pre ++ ys) d' cap) as (s2 & Hrun2 & Hv2 & _).
  { apply is_vector_intro.
    - by rewrite (frame2_raw_at _ _ _ _ _ Hfr).
    - rewrite (frame2_size_at _ _ _ _ _ Hfr), Hsize. f_equal.
      rewrite !length_app, Hpre, Hys. simpl. lia.
    - rewrite !length_app, Hpre, Hys. simpl. lia.
    - simpl. rewrite Hb1. f_equal. unfold layout.
      rewrite !fmap_app, <- !app_assoc. simpl. do 3 f_equal.
      rewrite !length_app, Hpre, Hys. simpl. f_equal. lia. }
  rewrite (bind_Ret _ _ _ _ _ Hrun2).
  exists s2. split_and!; [done|done|..].
  - rewrite (is_vector_size_at _ _ _ _ _ Hv2). f_equal.
    rewrite length_app, Hpre, Hys. lia.
  - intros i Hi. rewrite lookup_app_l by lia. unfold pre. by rewrite lookup_take_lt.
  - intros i Hi. rewrite lookup_app_r by lia. unfold ys. rewrite lookup_drop, Hpre.
    f_equal. lia.
Qed.

(** ** Local [RawMemory] objects *)

Lemma operator_new_Ret (Hnt : NeverThrows) s n :
  operator_new n s
  = Ret (Ptr (fresh (dom (mem s))) 0)
        (set_mem <[fresh (dom (mem s)) := replicate n None]> (log (EvNew n) s)).
Proof. unfold operator_new. by rewrite (bind_Ret _ _ _ _ _ (attempt_Ret Hnt _ _)). Qed.

Lemma fresh_block_None s : mem s !! fresh (dom (mem s)) = None.
Proof. apply not_elem_of_dom. apply is_fresh. Qed.

Lemma RawMemory_dtor_Ret s r old :
  raw_at s r = Some old → can_free s (buffer_ old) →
  ∃ s', RawMemory_dtor r s = Ret () s'
        ∧ vecs s' = vecs s ∧ locals s' = locals s
        ∧ mem s' = freed (buffer_ old) (mem s).
Proof.
  intros Hr Hfree. unfold RawMemory_dtor. rewrite (get_raw_bind _ _ _ _ Hr).
  unfold Deallocate, operator_delete.
  destruct (buffer_ old) as [|b [|o]]; simpl in *; [by exists s| |done].
  destruct Hfree as [sl ->]. by eexists.
Qed.

(** The block [{ RawMemory<T> new_data(capacity); body }]: the local owns
    a fresh block of raw slots while the body runs, and whatever it owns
    at the end is freed. *)
Lemma with_RawMemory_Ret (Hnt : NeverThrows) {R} capacity (body : rawref → M R) s :
  capacity ≠ 0 →
  ∃ s1 b', mem s !! b' = None
    ∧ vecs s1 = vecs s
    ∧ locals s1 = locals s ++ [mkRawMemory (Ptr b' 0) capacity]
    ∧ mem s1 = <[b' := replicate capacity None]> (mem s)
    ∧ ∀ a s2 old,
        body (Local (length (locals s))) s1 = Ret a s2 →
        raw_at s2 (Local (length (locals s))) = Some old →
        length (locals s2) = S (length (locals s)) →
        can_free s2 (buffer_ old) →
        ∃ s3, with_RawMemory capacity body s = Ret a s3
              ∧ vecs s3 = vecs s2
              ∧ locals s3 = take (length (locals s)) (locals s2)
              ∧ mem s3 = freed (buffer_ old) (mem s2).
Proof.
  intros Hcap.
  set (i := length (locals s)).
  set (s0 := set_locals (fun l => l ++ [mkRawMemory Null 0]) s).
  set (b' := fresh (dom (mem s))).
  set (s1 := put_raw (Local i) (mkRawMemory (Ptr b' 0) capacity)
               (set_mem <[b' := replicate capacity None]> (log (EvNew capacity) s0))).
  assert (Hctor : RawMemory_ctor (Local i) capacity s0 = Ret () s1).
  { unfold RawMemory_ctor, Allocate. rewrite decide_True by done.
    rewrite (bind_Ret _ _ _ _ _ (operator_new_Ret Hnt _ _)).
    apply set_raw_Ret. simpl. rewrite lookup_app_r by done.
    replace (i - length (locals s)) with 0 by (unfold i; lia). by eexists. }
  exists s1, b'. split; [apply fresh_block_None|]. split; [done|].
  split.
  { simpl. rewrite insert_app_r_alt by done.
    by replace (i - length (locals s)) with 0 by (unfold i; lia). }
  split; [done|].
  intros a s2 old Hbody Hold Hlen Hfree.
  destruct (RawMemory_dtor_Ret s2 (Local i) old Hold Hfree) as (s3 & Hdtor & Hv3 & Hl3 & Hm3).
  eexists. split.
  { unfold with_RawMemory. unfold bind at 1. unfold push_local. fold i. fold s0.
    eapply finally_Ret; [|reflexivity].
    rewrite (bind_Ret _ _ _ _ _ Hctor). by eapply finally_Ret. }
  simpl. rewrite Hv3, Hl3, Hm3, Hlen. split_and!; [done| |done].
  f_equal. lia.
Qed.

(** ** Relocation into a new buffer *)

Lemma layout_nil_inv (xs : list T) cap : layout xs cap = [] → xs = [] ∧ cap - length xs = 0.
Proof.
  unfold layout. intros [H1 H2]%app_eq_nil. split.
  - by destruct xs.
  - by destruct (cap - length xs).
Qed.

(** The relocation of the live elements of a vector into the raw prefix
    of another block, whichever way the element type is relocated. *)
Lemma relocate_Ret (Hnt : NeverThrows) s this buf xs cap r b' raw post' :
  is_vector s this buf xs cap →
  raw_at s r = Some (mkRawMemory (Ptr b' 0) (length (raw ++ post'))) →
  mem s !! b' = Some (raw ++ post') → length raw = length xs →
  buf ≠ Ptr b' 0 →
  ∃ s1 zs,
    (if relocate_by_move then
       let* src := GetAddress (DataOf this) in
       let* n := get_size this in
       let* dst := GetAddress r in
       uninitialized_move_n src n dst ;;; ret ()
     else
       let* src := GetAddress (DataOf this) in
       let* n := get_size this in
       let* dst := GetAddress r in
       uninitialized_copy_n src n dst ;;; ret ()) s = Ret () s1
    ∧ is_vector s1 this buf zs cap ∧ length zs = length xs
    ∧ mem s1 !! b' = Some ((Some <$> xs) ++ post')
    ∧ vecs s1 = vecs s ∧ locals s1 = locals s
    ∧ (∀ b, b ≠ b' → buf ≠ Ptr b 0 → mem s1 !! b = mem s !! b).
Proof.
  intros Hv Hr Hb' Hlen Hne.
  pose proof (is_vector_raw_at _ _ _ _ _ Hv) as Hraw.
  pose proof (is_vector_size_at _ _ _ _ _ Hv) as Hsize.
  pose proof Hv as (Hvec & Hle & Hblk).
  destruct buf as [|b [|o]]; [| |done].
  - (* no buffer: nothing to relocate *)
    simpl in Hblk. injection Hblk as Hblk. symmetry in Hblk.
    apply layout_nil_inv in Hblk as [-> _]. destruct raw; [|done].
    exists s, []. split.
    { destruct relocate_by_move;
        rewrite (GetAddress_bind _ _ _ _ Hraw), (get_size_bind _ _ _ _ Hsize),
          (GetAddress_bind _ _ _ _ Hr); reflexivity. }
    by split_and!.
  - simpl in Hblk. assert (b ≠ b') by congruence.
    destruct relocate_by_move.
    + destruct (uninitialized_move_n_Ret Hnt s b 0 [] xs (replicate (cap - length xs) None)
                  b' 0 [] raw post') as (s1 & a & Hrun & H1 & H2 & Hfr); [done..|].
      exists s1, (moved_from <$> xs). split.
      { rewrite (GetAddress_bind _ _ _ _ Hraw), (get_size_bind _ _ _ _ Hsize),
          (GetAddress_bind _ _ _ _ Hr). simpl.
        by rewrite (bind_Ret _ _ _ _ _ Hrun). }
      destruct Hfr as (Hvs & Hls & Hfr).
      split_and!; [|by rewrite length_fmap|done|done|done|].
      * split_and!; [by rewrite Hvs, length_fmap|by rewrite length_fmap|].
        simpl. rewrite H1. simpl. unfold layout.
        by rewrite list_fmap_compose, length_fmap.
      * intros b0 ? ?. apply Hfr; congruence.
    + destruct (uninitialized_copy_n_Ret Hnt s b 0 [] xs (replicate (cap - length xs) None)
                  b' 0 [] raw post') as (s1 & a & Hrun & H1 & H2 & Hfr); [done..|].
      exists s1, xs. split.
      { rewrite (GetAddress_bind _ _ _ _ Hraw), (get_size_bind _ _ _ _ Hsize),
          (GetAddress_bind _ _ _ _ Hr). simpl.
        by rewrite (bind_Ret _ _ _ _ _ Hrun). }
      destruct Hfr as (Hvs & Hls & Hfr).
      split_and!; [|done..|].
      * split_and!; [by rewrite Hvs|done|done].
      * intros b0 ? ?. apply Hfr; congruence.
Qed.

(** Destroying every element of a vector leaves a block that can be
    freed. *)
Lemma destroy_all_Ret s this buf zs cap :
  is_vector s this buf zs cap →
  ∃ s1 a, destroy_n buf (length zs) s = Ret a s1
          ∧ can_free s1 buf
          ∧ trace s1 = trace s ++ (EvDtor <$> zs)
          ∧ vecs s1 = vecs s ∧ locals s1 = locals s
          ∧ (∀ b, buf ≠ Ptr b 0 → mem s1 !! b = mem s !! b).
Proof.
  intros (Hvec & Hle & Hblk).
  destruct buf as [|b [|o]]; [| |done].
  - simpl in Hblk. injection Hblk as Hblk. symmetry in Hblk.
    apply layout_nil_inv in Hblk as [-> _].
    exists s. eexists. simpl. rewrite app_nil_r. by split_and!.
  - simpl in Hblk.
    destruct (destroy_n_Ret s b 0 [] zs (replicate (cap - length zs) None))
      as (s1 & Hrun & Hb1 & Htr & Hvs & Hls & Hfr); [done..|].
    exists s1. eexists. split; [done|]. split_and!; [|done..|].
    + simpl. by rewrite Hb1.
    + intros b0 ?. apply Hfr; congruence.
Qed.

Lemma CopyOrMoveAndSwap_Ret (Hnt : NeverThrows) s this buf xs cap i b' raw post' :
  is_vector s this buf xs cap →
  raw_at s (Local i) = Some (mkRawMemory (Ptr b' 0) (length (raw ++ post'))) →
  mem s !! b' = Some (raw ++ post') → length raw = length xs →
  buf ≠ Ptr b' 0 →
  ∃ s', CopyOrMoveAndSwap this (Local i) s = Ret () s'
        ∧ raw_at s' (DataOf this) = Some (mkRawMemory (Ptr b' 0) (length (raw ++ post')))
        ∧ raw_at s' (Local i) = Some (mkRawMemory buf cap)
        ∧ size_at s' this = Some (length xs)
        ∧ mem s' !! b' = Some ((Some <$> xs) ++ post')
        ∧ can_free s' buf
        ∧ length (locals s') = length (locals s)
        ∧ (∀ j, j ≠ i → locals s' !! j = locals s !! j)
        ∧ (∀ v, v ≠ this → vecs s' !! v = vecs s !! v)
        ∧ (∀ b, b ≠ b' → buf ≠ Ptr b 0 → mem s' !! b = mem s !! b).
Proof.
  intros Hv Hr Hb' Hlen Hne.
  destruct (relocate_Ret Hnt s this buf xs cap (Local i) b' raw post' Hv Hr Hb' Hlen Hne)
    as (s1 & zs & Hrun1 & Hv1 & Hzs & Hb1 & Hvs1 & Hls1 & Hfr1).
  destruct (destroy_all_Ret s1 this buf zs cap Hv1)
    as (s2 & a & Hrun2 & Hfree2 & _ & Hvs2 & Hls2 & Hfr2).
  assert (Hraw2 : raw_at s2 (DataOf this) = Some (mkRawMemory buf cap)).
  { simpl. rewrite Hvs2. apply (is_vector_raw_at _ _ _ _ _ Hv1). }
  assert (Hloc2 : raw_at s2 (Local i) = Some (mkRawMemory (Ptr b' 0) (length (raw ++ post')))).
  { simpl. rewrite Hls2, Hls1. exact Hr. }
  destruct (RawMemory_Swap_Ret s2 (DataOf this) (Local i) _ _ Hraw2 Hloc2)
    as (s3 & Hrun3 & Hthis3 & Hloc3 & Hfr3 & Hsz3 & Hlen3 & Hm3 & _).
  exists s3. split.
  { unfold CopyOrMoveAndSwap. rewrite (bind_Ret _ _ _ _ _ Hrun1).
    rewrite (GetAddress_bind _ _ _ _ (is_vector_raw_at _ _ _ _ _ Hv1)).
    rewrite (get_size_bind _ _ _ _ (is_vector_size_at _ _ _ _ _ Hv1)). simpl.
    by rewrite (bind_Ret _ _ _ _ _ Hrun2). }
  rewrite decide_False in Hloc3 by done.
  split_and!; [done|done|..].
  - rewrite Hsz3. unfold size_at. rewrite Hvs2.
    rewrite <- Hzs. apply (is_vector_size_at _ _ _ _ _ Hv1).
  - rewrite Hm3, Hfr2, Hb1; [done|]. intros ->. done.
  - destruct buf as [|b [|o]]; simpl in *; [done| |done]. by rewrite Hm3.
  - by rewrite Hlen3, Hls2, Hls1.
  - intros j Hj. specialize (Hfr3 (Local j)). simpl in Hfr3.
    rewrite Hfr3 by congruence. by rewrite Hls2, Hls1.
  - intros v Hv'. apply vec_lookup_ext.
    + rewrite Hfr3 by congruence. simpl. by rewrite Hvs2, Hvs1.
    + rewrite Hsz3. unfold size_at. by rewrite Hvs2, Hvs1.
  - intros b Hb Hbuf. rewrite Hm3, Hfr2, Hfr1 by done. done.
Qed.

Lemma insert_replicate_raw {X} n cap (x y : X) :
  n < cap → <[n := y]> (replicate cap x) = replicate n x ++ y :: replicate (cap - S n) x.
Proof.
  intros. replace cap with (n + S (cap - S n)) at 1 by lia.
  rewrite replicate_add. simpl.
  rewrite <- (length_replicate n x) at 1. apply insert_middle.
Qed.

(** A vector is unaffected by a new block and a new local. *)
Lemma is_vector_frame s s' this buf xs cap :
  is_vector s this buf xs cap →
  vecs s' !! this = vecs s !! this →
  (∀ b, buf = Ptr b 0 → mem s' !! b = mem s !! b) →
  is_vector s' this buf xs cap.
Proof.
  intros (Hvec & Hle & Hblk) Hvs Hm. split_and!; [by rewrite Hvs|done|].
  destruct buf as [|b [|o]]; simpl in *; [done| |done]. by rewrite Hm.
Qed.

Lemma is_vector_block_ne s this buf xs cap b' :
  is_vector s this buf xs cap → mem s !! b' = None → buf ≠ Ptr b' 0.
Proof. intros (_ & _ & Hblk) Hb' ->. simpl in Hblk. congruence. Qed.

(** ** [Reserve] and [EmplaceBack] *)

Lemma lookup_snoc_length {X} (l : list X) (x : X) : (l ++ [x]) !! length l = Some x.
Proof. by apply list_lookup_middle. Qed.

Lemma freed_lookup_ne (buf : ptr) (m : gmap nat (list (option T))) b' :
  buf ≠ Ptr b' 0 → (∀ b o, buf = Ptr b o → o = 0) → freed buf m !! b' = m !! b'.
Proof.
  intros Hne H0. destruct buf as [|b o]; simpl; [done|].
  rewrite lookup_delete_ne; [done|]. intros ->. by rewrite (H0 b' o eq_refl) in Hne.
Qed.

Lemma is_vector_offset_0 s this buf xs cap :
  is_vector s this buf xs cap → ∀ b o, buf = Ptr b o → o = 0.
Proof. intros (_ & _ & Hblk) b o ->. by destruct o. Qed.

(** Growth into a fresh buffer of [c] slots whose slots from [length xs]
    on are [post']: the common part of [Reserve] and [EmplaceBack]. *)
Lemma grow_Ret (Hnt : NeverThrows) s s1 this buf xs cap b' post' :
  is_vector s this buf xs cap →
  mem s !! b' = None →
  vecs s1 = vecs s →
  locals s1 = locals s ++ [mkRawMemory (Ptr b' 0) (length xs + length post')] →
  mem s1 !! b' = Some (replicate (length xs) None ++ post') →
  (∀ b, b ≠ b' → mem s1 !! b = mem s !! b) →
  ∃ s2, CopyOrMoveAndSwap this (Local (length (locals s))) s1 = Ret () s2
        ∧ raw_at s2 (Local (length (locals s))) = Some (mkRawMemory buf cap)
        ∧ length (locals s2) = S (length (locals s))
        ∧ can_free s2 buf
        ∧ ∀ s3, vecs s3 = vecs s2 → mem s3 = freed buf (mem s2) →
                raw_at s3 (DataOf this)
                = Some (mkRawMemory (Ptr b' 0) (length xs + length post'))
                ∧ size_at s3 this = Some (length xs)
                ∧ mem s3 !! b' = Some ((Some <$> xs) ++ post').
Proof.
  intros Hv Hfresh Hvs1 Hls1 Hb1 Hm1.
  pose proof (is_vector_block_ne _ _ _ _ _ _ Hv Hfresh) as Hne.
  assert (Hv1 : is_vector s1 this buf xs cap).
  { apply (is_vector_frame s); [done|by rewrite Hvs1|].
    intros b ->. apply Hm1. congruence. }
  assert (Hlen : length (replicate (length xs) (@None T) ++ post')
                 = length xs + length post')
    by (by rewrite length_app, length_replicate).
  destruct (CopyOrMoveAndSwap_Ret Hnt s1 this buf xs cap (length (locals s)) b'
              (replicate (length xs) None) post' Hv1)
    as (s2 & Hrun & Hthis & Hloc & Hsz & Hb2 & Hfree & Hlen2 & _); [..|done|].
  { simpl. rewrite Hls1, Hlen. apply lookup_snoc_length. }
  { done. }
  { by rewrite length_replicate. }
  exists s2. rewrite Hlen in Hthis. split_and!; [done|done|..|done|].
  - rewrite Hlen2, Hls1, length_app. simpl. lia.
  - intros s3 Hvs3 Hm3. split_and!.
    + simpl. rewrite Hvs3. exact Hthis.
    + unfold size_at. rewrite Hvs3. exact Hsz.
    + rewrite Hm3, freed_lookup_ne; [done..|]. by eapply is_vector_offset_0.
Qed.


Lemma insert_middle_at {X} (pre post : list X) (x v : X) n :
  n = length pre → <[n := v]> (pre ++ x :: post) = pre ++ v :: post.
Proof. intros ->. apply insert_middle. Qed.

(** [EmplaceBack] appends the new element and returns a pointer to it;
    the buffer is replaced, by one of [1] or twice as many slots, only
    when the vector is full. *)
Lemma EmplaceBack_Ret (Hnt : NeverThrows) s this buf xs cap args :
  is_vector s this buf xs cap →
  ∃ s' buf',
    EmplaceBack this args s = Ret (ptr_add buf' (length xs)) s'
    ∧ is_vector s' this buf' (xs ++ [value_of args])
        (if decide (length xs = cap)
         then (if decide (length xs = 0) then 1 else length xs * 2)
         else cap)
    ∧ (length xs ≠ cap → buf' = buf).
Proof.
  intros Hv.
  pose proof (is_vector_raw_at _ _ _ _ _ Hv) as Hraw.
  pose proof (is_vector_size_at _ _ _ _ _ Hv) as Hsize.
  pose proof Hv as (_ & Hle & _).
  unfold EmplaceBack, Capacity.
  rewrite (get_size_bind _ _ _ _ Hsize), (RawMemory_Capacity_bind _ _ _ _ Hraw). simpl.
  set (n := length xs) in *.
  destruct (decide (n = cap)) as [Hfull|Hroom].
  - (* growth *)
    set (c := if decide (n = 0) then 1 else n * 2).
    assert (Hc : n < c) by (unfold c; case_decide; lia).
    destruct (with_RawMemory_Ret Hnt c
                (fun new_data =>
                   let* p := RawMemory_plus new_data n in
                   construct_at p args ;;; CopyOrMoveAndSwap this new_data) s)
      as (s1 & b' & Hfresh & Hvs1 & Hls1 & Hm1 & Hcont); [lia|].
    set (i := length (locals s)) in *.
    assert (Hloc1 : raw_at s1 (Local i) = Some (mkRawMemory (Ptr b' 0) c)).
    { simpl. rewrite Hls1. apply lookup_snoc_length. }
    destruct (construct_at_Ret Hnt s1 b' n (replicate c None) args)
      as (s1' & Hrun1 & Hb1' & Hvs1' & Hls1' & Hfr1').
    { by rewrite Hm1, lookup_insert_eq. }
    { by rewrite length_replicate. }
    rewrite insert_replicate_raw in Hb1' by done.
    set (post' := Some (value_of args) :: replicate (c - S n) None) in *.
    assert (Hc' : c = n + length post')
      by (unfold post'; simpl; rewrite length_replicate; lia).
    destruct (grow_Ret Hnt s s1' this buf xs cap b' post' Hv Hfresh)
      as (s2 & Hrun & Hloc & Hlen & Hfree & Hpost).
    { by rewrite Hvs1'. }
    { fold n. fold i. by rewrite Hls1', Hls1, <- Hc'. }
    { done. }
    { intros b Hb. by rewrite Hfr1', Hm1, lookup_insert_ne. }
    destruct (Hcont () s2 (mkRawMemory buf cap)) as (s3 & Hrun3 & Hvs3 & _ & Hm3);
      [|done..|].
    { rewrite (RawMemory_plus_bind _ _ _ _ _ Hloc1) by (simpl; lia). simpl.
      by rewrite (bind_Ret _ _ _ _ _ Hrun1). }
    destruct (Hpost s3 Hvs3 Hm3) as (Hthis & Hsz & Hb3).
    fold n in Hthis, Hsz. rewrite <- Hc' in Hthis.
    rewrite (bind_Ret _ _ _ _ _ Hrun3).
    rewrite (set_size_bind _ _ _ _ _ Hsz).
    rewrite (get_size_bind _ _ (S n)) by (by rewrite size_at_put_same, Hsz).
    exists (put_size this (S n) s3), (Ptr b' 0). split_and!; [| |done].
    + erewrite RawMemory_index_Ret; [|by rewrite raw_at_put_size|simpl; lia].
      simpl. do 2 f_equal. lia.
    + apply is_vector_intro.
      * by rewrite raw_at_put_size.
      * rewrite size_at_put_same, Hsz, length_app. simpl. f_equal. lia.
      * rewrite length_app. simpl. fold n. lia.
      * simpl. rewrite Hb3. f_equal. rewrite layout_snoc by (fold n; lia). done.
  - (* room left *)
    destruct (is_vector_block _ _ _ _ _ Hv) as (b & -> & Hb); [lia|].
    rewrite bind_assoc, (RawMemory_plus_bind _ _ _ _ _ Hraw) by (simpl; lia). simpl.
    destruct (construct_at_Ret Hnt s b n _ args Hb) as (s1 & Hrun1 & Hb1 & Hfr1).
    { rewrite length_layout by done. lia. }
    rewrite layout_raw in Hb1 by (fold n; lia).
    rewrite insert_middle_at in Hb1 by (by rewrite length_fmap).
    rewrite (bind_Ret _ _ _ _ _ Hrun1).
    assert (Hsz1 : size_at s1 this = Some n) by (by rewrite (frame2_size_at _ _ _ _ _ Hfr1)).
    assert (Hraw1 : raw_at s1 (DataOf this) = Some (mkRawMemory (Ptr b 0) cap))
      by (by rewrite (frame2_raw_at _ _ _ _ _ Hfr1)).
    rewrite (set_size_bind _ _ _ _ _ Hsz1).
    rewrite (get_size_bind _ _ (S n)) by (by rewrite size_at_put_same, Hsz1).
    exists (put_size this (S n) s1), (Ptr b 0). split_and!; [| |done].
    + erewrite RawMemory_index_Ret; [|by rewrite raw_at_put_size|simpl; lia].
      simpl. do 2 f_equal. lia.
    + apply is_vector_intro.
      * by rewrite raw_at_put_size.
      * rewrite size_at_put_same, Hsz1, length_app. simpl. f_equal. lia.
      * rewrite length_app. simpl. fold n. lia.
      * simpl. rewrite Hb1. f_equal. rewrite layout_snoc by (fold n; lia). done.
Qed.

(** ** Sequences of appends *)







Lemma bind_ext {R R'} (m : M R) (k1 k2 : R → M R') s :
  (∀ a s', k1 a s' = k2 a s') → bind m k1 s = bind m k2 s.
Proof. intros Hk. unfold bind. destruct (m s); [apply Hk|done..]. Qed.



(** ** [Resize] *)





(** ** Positional insertion *)

Lemma try_catch_Ret {R} (m h : M R) s a s' : m s = Ret a s' → try_catch m h s = Ret a s'.
Proof. unfold try_catch. by intros ->. Qed.

(** The relocation of a range of live elements into raw slots of another
    block, by move or by copy: the source keeps live objects [zs], which
    are the moved-from or the original values. *)
Lemma relocate_range_Ret (Hnt : NeverThrows) (by_move : bool)
    s b o1 pre1 (ys : list T) post1 b' o2 pre2 raw post2 :
  b ≠ b' → o1 = length pre1 → o2 = length pre2 → length raw = length ys →
  mem s !! b = Some (pre1 ++ (Some <$> ys) ++ post1) →
  mem s !! b' = Some (pre2 ++ raw ++ post2) →
  ∃ s1 zs,
    (if by_move
     then uninitialized_move_n (Ptr b o1) (length ys) (Ptr b' o2) ;;; ret ()
     else uninitialized_copy_n (Ptr b o1) (length ys) (Ptr b' o2) ;;; ret ()) s = Ret () s1
    ∧ length zs = length ys
    ∧ mem s1 !! b = Some (pre1 ++ (Some <$> zs) ++ post1)
    ∧ mem s1 !! b' = Some (pre2 ++ (Some <$> ys) ++ post2)
    ∧ frame2 s s1 b b'.
Proof.
  intros Hne Ho1 Ho2 Hlen H1 H2. destruct by_move.
  - destruct (uninitialized_move_n_Ret Hnt s b o1 pre1 ys post1 b' o2 pre2 raw post2)
      as (s1 & a & Hrun & H1' & H2' & Hfr); [done..|].
    exists s1, (moved_from <$> ys). rewrite (bind_Ret _ _ _ _ _ Hrun).
    split_and!; [done|by rewrite length_fmap| |done|done].
    by rewrite H1', list_fmap_compose.
  - destruct (uninitialized_copy_n_Ret Hnt s b o1 pre1 ys post1 b' o2 pre2 raw post2)
      as (s1 & a & Hrun & H1' & H2' & Hfr); [done..|].
    exists s1, ys. rewrite (bind_Ret _ _ _ _ _ Hrun). by split_and!.
Qed.

(** The block [{ T new_elem(args...); body }]: the local lives in a fresh
    block of one slot, is destroyed when the body is left, and its
    storage disappears. *)
Lemma with_local_T_Ret (Hnt : NeverThrows) {R} args (body : ptr → M R) s :
  ∃ s1 bf, mem s !! bf = None
    ∧ vecs s1 = vecs s ∧ locals s1 = locals s
    ∧ mem s1 = <[bf := [Some (value_of args)]]> (mem s)
    ∧ ∀ a s2 w,
        body (Ptr bf 0) s1 = Ret a s2 →
        mem s2 !! bf = Some [Some w] →
        ∃ s3, with_local_T args body s = Ret a s3
              ∧ vecs s3 = vecs s2 ∧ locals s3 = locals s2
              ∧ mem s3 = delete bf (mem s2).
Proof.
  set (bf := fresh (dom (mem s))).
  set (s0 := set_mem <[bf := [None]]> s).
  destruct (construct_at_Ret Hnt s0 bf 0 [None] args) as (s1 & Hrun1 & Hb1 & Hvs1 & Hls1 & Hfr1).
  { simpl. by rewrite lookup_insert_eq. }
  { simpl. lia. }
  simpl in Hb1.
  exists s1, bf. split; [apply fresh_block_None|]. split_and!; [done|done| |].
  { apply map_eq. intros b. destruct (decide (b = bf)) as [->|].
    - by rewrite Hb1, lookup_insert_eq.
    - rewrite Hfr1 by done. simpl. by rewrite !lookup_insert_ne. }
  intros a s2 w Hbody Hw.
  destruct (destroy_at_Ret s2 bf 0 _ w Hw) as (s3 & Hrun3 & Hb3 & _ & Hvs3 & Hls3 & Hfr3); [done|].
  eexists. split.
  { unfold with_local_T. unfold bind at 1. unfold push_frame. fold bf. fold s0.
    eapply finally_Ret; [|reflexivity].
    rewrite (bind_Ret _ _ _ _ _ Hrun1). by eapply finally_Ret. }
  simpl. split_and!; [done|done|].
  apply map_eq. intros b. destruct (decide (b = bf)) as [->|].
  - by rewrite !lookup_delete_eq.
  - rewrite !lookup_delete_ne by done. by apply Hfr3.
Qed.

Lemma begin_bind {R} s this x (k : ptr → M R) :
  raw_at s (DataOf this) = Some x → bind (begin this) k s = k (buffer_ x) s.
Proof. apply GetAddress_bind. Qed.

Lemma layout_insert (xs : list T) (v : T) cap n :
  n ≤ length xs → length xs < cap →
  layout (take n xs ++ v :: drop n xs) cap
  = (Some <$> take n xs) ++ Some v :: (Some <$> drop n xs)
      ++ replicate (cap - S (length xs)) None.
Proof.
  intros. unfold layout.
  rewrite fmap_app, fmap_cons, <- app_assoc, <- app_comm_cons.
  do 4 f_equal. rewrite length_app, length_take. simpl. rewrite length_drop. lia.
Qed.

(** The growth branch of [Emplace]. *)
Lemma Emplace_grow_Ret (Hnt : NeverThrows) s this buf xs cap n args :
  is_vector s this buf xs cap → n < length xs → length xs = cap →
  ∃ s' buf',
    Emplace this (ptr_add buf n) args s = Ret (ptr_add buf' n) s'
    ∧ is_vector s' this buf' (take n xs ++ value_of args :: drop n xs) (length xs * 2).
Proof.
  intros Hv Hn Hfull.
  pose proof (is_vector_raw_at _ _ _ _ _ Hv) as Hraw.
  pose proof (is_vector_size_at _ _ _ _ _ Hv) as Hsize.
  destruct (is_vector_block _ _ _ _ _ Hv) as (b & -> & Hb); [lia|].
  unfold layout in Hb. rewrite <- Hfull, Nat.sub_diag in Hb. simpl in Hb.
  set (v := value_of args). set (len := length xs) in *.
  set (c := len * 2).
  assert (Htake : length (take n xs) = n) by (rewrite length_take; lia).
  assert (Hdrop : length (drop n xs) = len - n) by (by rewrite length_drop).
  unfold Emplace.
  rewrite (cend_bind _ _ _ _ _ Hraw Hsize) by (simpl; lia). simpl.
  rewrite decide_False by (intros [=]; lia).
  rewrite (get_size_bind _ _ _ _ Hsize). unfold Capacity.
  rewrite (RawMemory_Capacity_bind _ _ _ _ Hraw). simpl.
  rewrite decide_True by done. rewrite (decide_False (P := len = 0)) by lia.
  match goal with |- context [with_RawMemory _ ?body] => set (bdy := body) end.
  destruct (with_RawMemory_Ret Hnt c bdy s)
    as (s1 & b' & Hfresh & Hvs1 & Hls1 & Hm1 & Hcont); [unfold c; lia|].
  set (i := length (locals s)) in *.
  assert (Hbb' : b ≠ b') by (intros ->; congruence).
  assert (Hraw1 : raw_at s1 (DataOf this) = Some (mkRawMemory (Ptr b 0) cap))
    by (simpl; by rewrite Hvs1).
  assert (Hsz1 : size_at s1 this = Some len) by (unfold size_at; by rewrite Hvs1).
  assert (Hloc1 : raw_at s1 (Local i) = Some (mkRawMemory (Ptr b' 0) c)).
  { simpl. rewrite Hls1. apply lookup_snoc_length. }
  (* the new element *)
  destruct (construct_at_Ret Hnt s1 b' n (replicate c None) args)
    as (sa & Hruna & Hb'a & Hfra).
  { by rewrite Hm1, lookup_insert_eq. }
  { rewrite length_replicate. unfold c. lia. }
  rewrite insert_replicate_raw in Hb'a by (unfold c; lia). fold v in Hb'a.
  assert (Hba : mem sa !! b = Some ([] ++ (Some <$> take n xs) ++ (Some <$> drop n xs))).
  { destruct Hfra as (_ & _ & Hfra). rewrite Hfra, Hm1, lookup_insert_ne by done.
    by rewrite Hb, app_nil_r, <- fmap_app, take_drop. }
  (* the prefix *)
  destruct (relocate_range_Ret Hnt relocate_by_move sa b 0 [] (take n xs)
              (Some <$> drop n xs) b' 0 [] (replicate n None)
              (Some v :: replicate (c - S n) None))
    as (sb & zs1 & Hrunb & Hzs1 & Hbb & Hb'b & Hfrb);
    [done|done|done| |done| |].
  { by rewrite length_replicate, Htake. }
  { exact Hb'a. }
  rewrite Htake in Hrunb. simpl in Hbb, Hb'b.
  (* the suffix *)
  destruct (relocate_range_Ret Hnt relocate_by_move sb b n (Some <$> zs1) (drop n xs) []
              b' (n + 1) ((Some <$> take n xs) ++ [Some v]) (replicate (len - n) None)
              (replicate (c - S len) None))
    as (sc & zs2 & Hrunc & Hzs2 & Hbc & Hb'c & Hfrc).
  { done. }
  { rewrite length_fmap. lia. }
  { rewrite length_app, length_fmap. simpl. lia. }
  { by rewrite length_replicate, Hdrop. }
  { by rewrite Hbb, app_nil_r. }
  { rewrite Hb'b, <- app_assoc, <- replicate_add. simpl. do 4 f_equal. unfold c. lia. }
  rewrite Hdrop in Hrunc.
  (* the old elements *)
  destruct (destroy_n_Ret sc b 0 [] (zs1 ++ zs2) []) as (sd & Hrund & Hbd & _ & Hfrd).
  { done. }
  { by rewrite Hbc, !app_nil_r, fmap_app. }
  rewrite length_app, Hzs1, Hzs2, Htake, Hdrop in Hrund.
  replace (n + (len - n)) with len in Hrund by lia.
  assert (Hobj : ∀ r, raw_at sd r = raw_at s1 r).
  { intros r. rewrite (frame2_raw_at _ _ _ _ _ Hfrd), (frame2_raw_at _ _ _ _ _ Hfrc),
      (frame2_raw_at _ _ _ _ _ Hfrb), (frame2_raw_at _ _ _ _ _ Hfra). done. }
  assert (Hszs : ∀ w, size_at sd w = size_at s1 w).
  { intros w. rewrite (frame2_size_at _ _ _ _ _ Hfrd), (frame2_size_at _ _ _ _ _ Hfrc),
      (frame2_size_at _ _ _ _ _ Hfrb), (frame2_size_at _ _ _ _ _ Hfra). done. }
  destruct (RawMemory_Swap_Ret sd (DataOf this) (Local i) _ _
              (eq_trans (Hobj _) Hraw1) (eq_trans (Hobj _) Hloc1))
    as (se & Hrune & Hthise & Hloce & _ & Hsze & Hlene & Hme & _).
  rewrite decide_False in Hloce by done.
  assert (Hsizee : size_at se this = Some len) by (by rewrite Hsze, Hszs).
  (* the body of the block *)
  assert (Hbody : bdy (Local i) s1 = Ret (Ptr b' (0 + n)) (put_size this (S len) se)).
  { unfold bdy.
    rewrite (begin_bind _ _ _ _ Hraw1). cbn [buffer_].
    rewrite decide_True by (split; [done|lia]). cbn [from_option].
    rewrite bind_ret, Nat.sub_0_r.
    rewrite (RawMemory_plus_bind _ _ _ _ _ Hloc1) by (simpl; unfold c; lia). simpl.
    rewrite (bind_Ret _ _ _ _ _ Hruna).
    assert (Hrawa : raw_at sa (DataOf this) = Some (mkRawMemory (Ptr b 0) cap))
      by (by rewrite (frame2_raw_at _ _ _ _ _ Hfra)).
    assert (Hloca : raw_at sa (Local i) = Some (mkRawMemory (Ptr b' 0) c))
      by (by rewrite (frame2_raw_at _ _ _ _ _ Hfra)).
    assert (Hrawb : raw_at sb (DataOf this) = Some (mkRawMemory (Ptr b 0) cap))
      by (by rewrite (frame2_raw_at _ _ _ _ _ Hfrb)).
    assert (Hlocb : raw_at sb (Local i) = Some (mkRawMemory (Ptr b' 0) c))
      by (by rewrite (frame2_raw_at _ _ _ _ _ Hfrb)).
    erewrite bind_Ret; cycle 1.
    { destruct relocate_by_move.
      - rewrite (begin_bind _ _ _ _ Hrawa), (GetAddress_bind _ _ _ _ Hloca). exact Hrunb.
      - apply try_catch_Ret.
        rewrite (begin_bind _ _ _ _ Hrawa), (GetAddress_bind _ _ _ _ Hloca). exact Hrunb. }
    erewrite bind_Ret; cycle 1.
    { destruct relocate_by_move.
      - rewrite (RawMemory_plus_bind _ _ _ _ _ Hrawb) by (simpl; lia).
        rewrite (RawMemory_plus_bind _ _ _ _ _ Hlocb) by (simpl; unfold c; lia).
        exact Hrunc.
      - apply try_catch_Ret.
        rewrite (RawMemory_plus_bind _ _ _ _ _ Hrawb) by (simpl; lia).
        rewrite (RawMemory_plus_bind _ _ _ _ _ Hlocb) by (simpl; unfold c; lia).
        exact Hrunc. }
    rewrite (begin_bind _ _ _ _ (eq_trans (frame2_raw_at _ _ _ _ _ Hfrc) Hrawb)). simpl.
    rewrite (bind_Ret _ _ _ _ _ Hrund), (bind_Ret _ _ _ _ _ Hrune).
    rewrite (begin_bind _ _ _ _ Hthise). simpl.
    by rewrite (set_size_bind _ _ _ _ _ Hsizee). }
  destruct (Hcont _ _ (mkRawMemory (Ptr b 0) cap) Hbody)
    as (s3 & Hrun3 & Hvs3 & _ & Hm3).
  { by rewrite raw_at_put_size. }
  { simpl. rewrite Hlene.
    destruct Hfrd as (_ & -> & _), Hfrc as (_ & -> & _), Hfrb as (_ & -> & _),
      Hfra as (_ & -> & _). rewrite Hls1, length_app. simpl. lia. }
  { simpl. rewrite Hme, Hbd. by eexists. }
  exists s3, (Ptr b' 0). split; [done|].
  apply is_vector_intro.
  - simpl. rewrite Hvs3. change (raw_at (put_size this (S len) se) (DataOf this) = Some (mkRawMemory (Ptr b' 0) c)).
    by rewrite raw_at_put_size.
  - unfold size_at. rewrite Hvs3.
    change (size_at (put_size this (S len) se) this = Some (length (take n xs ++ v :: drop n xs))).
    rewrite size_at_put_same, Hsizee, length_app. simpl. rewrite Htake, Hdrop. f_equal. lia.
  - rewrite length_app. simpl. rewrite Htake, Hdrop. lia.
  - simpl. rewrite Hm3. simpl. rewrite lookup_delete_ne by done.
    rewrite Hme.
    destruct Hfrd as (_ & _ & Hfrd). rewrite Hfrd by done.
    rewrite Hb'c. f_equal. rewrite layout_insert by (fold len; unfold c; lia).
    by rewrite <- !app_assoc.
Qed.

Lemma snoc_exists {X} (l : list X) : 0 < length l → ∃ (l0 : list X) (a : X), l = l0 ++ [a].
Proof.
  destruct l as [|a l _] using rev_ind; [simpl; lia|]. intros _. by exists l, a.
Qed.

(** The branch of [Emplace] that shifts in place. *)
Lemma Emplace_shift_Ret (Hnt : NeverThrows) s this buf xs cap n args :
  is_vector s this buf xs cap → n < length xs → length xs < cap →
  ∃ s',
    Emplace this (ptr_add buf n) args s = Ret (ptr_add buf n) s'
    ∧ is_vector s' this buf (take n xs ++ value_of args :: drop n xs) cap.
Proof.
  intros Hv Hn Hroom.
  pose proof (is_vector_raw_at _ _ _ _ _ Hv) as Hraw.
  pose proof (is_vector_size_at _ _ _ _ _ Hv) as Hsize.
  destruct (is_vector_block _ _ _ _ _ Hv) as (b & -> & Hb); [lia|].
  rewrite layout_raw in Hb by done.
  destruct (snoc_exists xs) as (xs0 & l & Hxs); [lia|].
  set (v := value_of args). set (len := length xs) in *.
  set (k := length xs0).
  assert (Hlen : len = S k) by (unfold len, k; rewrite Hxs, length_app; simpl; lia).
  set (pre := take n xs0). set (ys := drop n xs0).
  assert (Hpre : length pre = n) by (unfold pre; rewrite length_take; lia).
  assert (Hys : length ys = k - n) by (unfold ys; by rewrite length_drop).
  set (rest := replicate (cap - S len) (@None T)) in *.
  assert (Hb0 : mem s !! b
                = Some (((Some <$> pre) ++ (Some <$> ys)) ++ Some l :: None :: rest)).
  { rewrite Hb, Hxs, fmap_app, <- app_assoc. simpl.
    by rewrite <- fmap_app; unfold pre, ys; rewrite take_drop. }
  assert (Hmid : length ((Some <$> pre) ++ (Some <$> ys)) = k).
  { rewrite length_app, !length_fmap, Hpre, Hys. lia. }
  unfold Emplace.
  rewrite (cend_bind _ _ _ _ _ Hraw Hsize) by (simpl; lia). simpl.
  rewrite decide_False by (intros [=]; lia).
  rewrite (get_size_bind _ _ _ _ Hsize). unfold Capacity.
  rewrite (RawMemory_Capacity_bind _ _ _ _ Hraw). simpl.
  rewrite decide_False by lia.
  match goal with |- context [with_local_T _ ?body] => set (bdy := body) end.
  destruct (with_local_T_Ret Hnt args bdy s)
    as (s1 & bf & Hfresh & Hvs1 & Hls1 & Hm1 & Hcont).
  fold v in Hm1.
  assert (Hbf : b ≠ bf) by (intros ->; congruence).
  assert (Hraw1 : raw_at s1 (DataOf this) = Some (mkRawMemory (Ptr b 0) cap))
    by (simpl; by rewrite Hvs1).
  assert (Hsz1 : size_at s1 this = Some len) by (unfold size_at; by rewrite Hvs1).
  assert (Hb1 : mem s1 !! b
                = Some (((Some <$> pre) ++ (Some <$> ys)) ++ Some l :: None :: rest))
    by (by rewrite Hm1, lookup_insert_ne).
  (* the last element moves into the raw slot *)
  destruct (move_construct_same_Ret Hnt s1 b k len _ l Hb1) as (sa & Hruna & Hba & Hfra).
  { rewrite <- Hmid. by apply list_lookup_middle. }
  { rewrite length_app, Hmid. simpl. lia. }
  rewrite insert_middle_at in Hba by (by rewrite Hmid).
  rewrite snoc_middle in Hba.
  rewrite insert_middle_at in Hba by (rewrite length_app, Hmid; simpl; lia).
  rewrite <- snoc_middle, <- app_assoc in Hba.
  (* the elements from the position on move one slot to the right *)
  destruct (move_backward_loop_Ret Hnt sa b n (Some <$> pre) ys (moved_from l)
              (Some l :: rest))
    as (sb & a & d' & Hrunb & Hbb & Hfrb); [by rewrite length_fmap|done|].
  rewrite Hys in Hrunb.
  replace (n + (k - n)) with k in Hrunb by lia.
  replace (k + 1) with len in Hrunb by lia.
  (* the new element is assigned to the position *)
  assert (Hfb : mem sb !! bf = Some [Some v]).
  { destruct Hfrb as (_ & _ & Hfrb), Hfra as (_ & _ & Hfra).
    rewrite Hfrb, Hfra, Hm1, lookup_insert_eq by done. done. }
  destruct (move_assign_Ret Hnt sb bf 0 _ b n _ v d' (not_eq_sym Hbf) Hfb eq_refl Hbb)
    as (sc & Hrunc & Hfc & Hbc & Hfrc).
  { rewrite <- Hpre, <- (length_fmap Some pre). by apply list_lookup_middle. }
  rewrite insert_middle_at in Hbc by (by rewrite length_fmap). simpl in Hfc.
  assert (Hobj : ∀ r, raw_at sc r = raw_at s1 r).
  { intros r. rewrite (frame2_raw_at _ _ _ _ _ Hfrc), (frame2_raw_at _ _ _ _ _ Hfrb),
      (frame2_raw_at _ _ _ _ _ Hfra). done. }
  assert (Hszc : size_at sc this = Some len).
  { rewrite (frame2_size_at _ _ _ _ _ Hfrc), (frame2_size_at _ _ _ _ _ Hfrb),
      (frame2_size_at _ _ _ _ _ Hfra). done. }
  assert (Hbody : bdy (Ptr bf 0) s1 = Ret (Ptr b n) (put_size this (S len) sc)).
  { unfold bdy.
    rewrite (RawMemory_plus_bind _ _ _ _ _ Hraw1) by (simpl; lia). cbn [buffer_ ptr_add].
    rewrite Hlen.
    rewrite (RawMemory_index_bind _ _ _ _ _ Hraw1) by (simpl; lia). cbn [buffer_ ptr_add].
    rewrite <- Hlen. simpl. rewrite (bind_Ret _ _ _ _ _ Hruna).
    rewrite (end_bind _ _ _ _ _ (eq_trans (frame2_raw_at _ _ _ _ _ Hfra) Hraw1)
               (eq_trans (frame2_size_at _ _ _ _ this Hfra) Hsz1)) by (simpl; lia).
    cbn [buffer_ ptr_add]. simpl. rewrite Hlen. cbn [ptr_pred from_option].
    rewrite bind_ret. unfold std_move_backward.
    rewrite bind_assoc, ptr_diff_same by lia. cbn [from_option]. rewrite bind_ret.
    rewrite <- Hlen, (bind_Ret _ _ _ _ _ Hrunb), (bind_Ret _ _ _ _ _ Hrunc).
    by rewrite (set_size_bind _ _ _ _ _ Hszc). }
  destruct (Hcont _ _ (moved_from v) Hbody) as (s3 & Hrun3 & Hvs3 & _ & Hm3); [done|].
  exists s3. split; [done|].
  assert (Hins : length (take n xs ++ v :: drop n xs) = S len).
  { rewrite length_app, length_take. simpl. rewrite length_drop. fold len. lia. }
  apply is_vector_intro.
  - simpl. rewrite Hvs3.
    change (raw_at (put_size this (S len) sc) (DataOf this)
            = Some (mkRawMemory (Ptr b 0) cap)).
    by rewrite raw_at_put_size, Hobj.
  - unfold size_at. rewrite Hvs3.
    change (size_at (put_size this (S len) sc) this
            = Some (length (take n xs ++ v :: drop n xs))).
    by rewrite size_at_put_same, Hszc, Hins.
  - lia.
  - simpl. rewrite Hm3. simpl. rewrite lookup_delete_ne by done. rewrite Hbc. f_equal.
    rewrite layout_insert by (fold len; lia). fold len. fold rest.
    rewrite Hxs, take_app_le, drop_app_le by (fold k; lia).
    fold pre. fold ys. rewrite fmap_app, <- app_assoc. done.
Qed.

(** C4: when nothing throws, [Emplace] at a position [n] up to the size
    succeeds in all three branches (append, growth, shift in place) and
    returns the position of the new element; the vector then holds the
    elements before [n], the new value, and the elements from [n] on, in
    their order, so the size is one more.  The capacity becomes [1] or
    twice the size exactly when the vector was full; otherwise the
    buffer is kept.  [Insert] is [Emplace] with a copy or a move of the
    value. *)
Theorem Emplace_inserts_at_position (Hnt : NeverThrows) s this buf xs cap n args :
  is_vector s this buf xs cap → n ≤ length xs →
  ∃ s' buf',
    Emplace this (ptr_add buf n) args s = Ret (ptr_add buf' n) s'
    ∧ is_vector s' this buf' (take n xs ++ value_of args :: drop n xs)
        (if decide (length xs = cap)
         then (if decide (length xs = 0) then 1 else length xs * 2)
         else cap)
    ∧ size_at s' this = Some (S (length xs))
    ∧ (length xs ≠ cap → buf' = buf)
    ∧ (∀ i, i < n → (take n xs ++ value_of args :: drop n xs) !! i = xs !! i)
    ∧ (take n xs ++ value_of args :: drop n xs) !! n = Some (value_of args)
    ∧ (∀ i, n ≤ i → (take n xs ++ value_of args :: drop n xs) !! S i = xs !! i)
    ∧ (∀ v : T, Insert_copy this (ptr_add buf n) v s = Emplace this (ptr_add buf n) (ByCopy v) s
                ∧ Insert_move this (ptr_add buf n) v s
                  = Emplace this (ptr_add buf n) (ByMove v) s).
Proof.
  intros Hv Hn.
  pose proof (is_vector_raw_at _ _ _ _ _ Hv) as Hraw.
  pose proof (is_vector_size_at _ _ _ _ _ Hv) as Hsize.
  pose proof Hv as (_ & Hle & _).
  assert (Htake : length (take n xs) = n) by (rewrite length_take; lia).
  assert (Hlook : (∀ i, i < n → (take n xs ++ value_of args :: drop n xs) !! i = xs !! i)
                  ∧ (take n xs ++ value_of args :: drop n xs) !! n = Some (value_of args)
                  ∧ (∀ i, n ≤ i →
                       (take n xs ++ value_of args :: drop n xs) !! S i = xs !! i)).
  { split_and!.
    - intros i Hi. rewrite lookup_app_l by (rewrite Htake; lia). by rewrite lookup_take_lt.
    - by apply list_lookup_middle.
    - intros i Hi. rewrite lookup_app_r by (rewrite Htake; lia). rewrite Htake.
      replace (S i - n) with (S (i - n)) by lia. simpl. rewrite lookup_drop.
      f_equal. lia. }
  assert (Hsz : ∀ s' buf' c,
             is_vector s' this buf' (take n xs ++ value_of args :: drop n xs) c →
             size_at s' this = Some (S (length xs))).
  { intros s' buf' c Hv'. rewrite (is_vector_size_at _ _ _ _ _ Hv'). f_equal.
    rewrite length_app, Htake. simpl. rewrite length_drop. lia. }
  destruct (decide (n = length xs)) as [->|Hne].
  - (* at the end: [EmplaceBack] *)
    destruct (EmplaceBack_Ret Hnt s this buf xs cap args Hv) as (s' & buf' & Hrun & Hv' & Hb).
    rewrite firstn_all, drop_all in *.
    exists s', buf'. split_and!; [|done|by eapply Hsz|done|apply Hlook..|done].
    unfold Emplace. rewrite (cend_bind _ _ _ _ _ Hraw Hsize) by done. simpl.
    by rewrite decide_True.
  - destruct (decide (length xs = cap)) as [Hfull|Hroom].
    + destruct (Emplace_grow_Ret Hnt s this buf xs cap n args Hv) as (s' & buf' & Hrun & Hv');
        [lia|done|].
      rewrite decide_False by lia.
      exists s', buf'. split_and!; [done|done|by eapply Hsz|done|apply Hlook..|done].
    + destruct (Emplace_shift_Ret Hnt s this buf xs cap n args Hv) as (s' & Hrun & Hv');
        [lia|lia|].
      exists s', buf. split_and!; [done|done|by eapply Hsz|done|apply Hlook..|done].
Qed.

(** ** Element operations under an arbitrary oracle *)

Lemma quiet_refl s : quiet s s.
Proof. exists []. by rewrite app_nil_r. Qed.

Lemma quiet_trans s s1 s2 : quiet s s1 → quiet s1 s2 → quiet s s2.
Proof.
  intros (es1 & H1 & F1) (es2 & H2 & F2). exists (es1 ++ es2).
  split; [by rewrite H2, H1, app_assoc|]. by apply Forall_app.
Qed.

Lemma quiet_events s s' es :
  trace s' = trace s ++ es → Forall (fun e => is_throw e = false) es → quiet s s'.
Proof. intros. by exists es. Qed.

Lemma quiet_same_trace s s' : trace s' = trace s → quiet s s'.
Proof. intros Htr. exists []. by rewrite app_nil_r. Qed.

Lemma unchanged_refl s : unchanged s s.
Proof. done. Qed.

Lemma unchanged_trans s s1 s2 : unchanged s s1 → unchanged s1 s2 → unchanged s s2.
Proof.
  intros (Hv & Hl & Hm) (Hv' & Hl' & Hm'). unfold unchanged.
  by rewrite Hv', Hl', Hm'.
Qed.

(** An operation that may throw either completes or throws at once. *)
Lemma attempt_cases e s :
  is_throw e = false →
  match attempt e s with
  | Ret _ s' => unchanged s s' ∧ quiet s s'
  | Throw s' => unchanged s s'
  | Undef => False
  end.
Proof.
  intros He. unfold attempt. destruct (throws (trace s) e); [done|].
  split; [done|]. exists [e]. split; [done|]. by constructor.
Qed.

Lemma attempt_move_cases e s :
  is_throw e = false →
  match attempt_move e s with
  | Ret _ s' => unchanged s s' ∧ quiet s s'
  | Throw s' => unchanged s s'
  | Undef => False
  end.
Proof.
  intros He. unfold attempt_move. destruct is_nothrow_move_constructible.
  - split; [done|]. exists [e]. split; [done|]. by constructor.
  - by apply attempt_cases.
Qed.

Lemma run_ctor_cases i s :
  match run_ctor i s with
  | Ret v s' => v = value_of i ∧ unchanged s s' ∧ quiet s s'
  | Throw s' => unchanged s s'
  | Undef => False
  end.
Proof.
  destruct i as [v|v|a]; simpl; unfold bind.
  - pose proof (attempt_cases (EvCtorCopy v) s eq_refl) as H.
    destruct (attempt (EvCtorCopy v) s); [|done..]. by destruct H.
  - pose proof (attempt_move_cases (EvCtorMove v) s eq_refl) as H.
    destruct (attempt_move (EvCtorMove v) s); [|done..]. by destruct H.
  - pose proof (attempt_cases (EvCtorArgs a) s eq_refl) as H.
    destruct (attempt (EvCtorArgs a) s); [|done..]. by destruct H.
Qed.

Lemma construct_at_cases s b o sl i :
  mem s !! b = Some sl → o < length sl →
  match construct_at (Ptr b o) i s with
  | Ret _ s' => mem s' !! b = Some (<[o := Some (value_of i)]> sl)
                ∧ frame2 s s' b b ∧ quiet s s'
  | Throw s' => unchanged s s'
  | Undef => False
  end.
Proof.
  intros Hb Ho. unfold construct_at.
  destruct (lookup_lt_is_Some_2 sl o Ho) as [w Hw].
  erewrite get_slot_bind by (erewrite slot_of_lookup; eauto).
  pose proof (run_ctor_cases i s) as H. unfold bind.
  destruct (run_ctor i s) as [v s1|s1|]; [|done..].
  destruct H as (-> & (Hvs & Hls & Hm) & Hq).
  rewrite (put_slot_Ret s1 b o sl) by (by rewrite ?Hm). unfold frame2. simpl.
  rewrite lookup_insert_eq, Hvs, Hls, Hm. split_and!; [done..| |].
  - intros b' ? _. by rewrite lookup_insert_ne.
  - destruct Hq as (es & Htr & F). by exists es.
Qed.

Lemma copy_construct_cases s b1 o1 sl1 b2 o2 sl2 v :
  b1 ≠ b2 →
  mem s !! b1 = Some sl1 → sl1 !! o1 = Some (Some v) →
  mem s !! b2 = Some sl2 → o2 < length sl2 →
  match copy_construct (Ptr b2 o2) (Ptr b1 o1) s with
  | Ret _ s' => mem s' !! b1 = Some sl1
                ∧ mem s' !! b2 = Some (<[o2 := Some v]> sl2)
                ∧ frame2 s s' b1 b2 ∧ quiet s s'
  | Throw s' => unchanged s s'
  | Undef => False
  end.
Proof.
  intros Hne H1 Ho1 H2 Ho2. unfold copy_construct.
  erewrite load_bind by (erewrite slot_of_lookup; eauto).
  pose proof (construct_at_cases s b2 o2 sl2 (ByCopy v) H2 Ho2) as H.
  destruct (construct_at (Ptr b2 o2) (ByCopy v) s) as [[] s'|s'|]; [|done..].
  destruct H as (Hb & (Hvs & Hls & Hfr) & Hq).
  split_and!; [|done| |done].
  - rewrite Hfr by done. done.
  - split_and!; [done..|]. intros b ? ?. by apply Hfr.
Qed.

(** [uninitialized_copy_n] either fills the raw range or throws, having
    destroyed what it constructed: the source block is as before, and of
    the destination block at most the raw range differs. *)
Lemma uninitialized_copy_n_cases s b1 o1 pre1 (xs : list T) post1 b2 o2 pre2 raw post2 :
  b1 ≠ b2 → o1 = length pre1 → o2 = length pre2 → length raw = length xs →
  mem s !! b1 = Some (pre1 ++ (Some <$> xs) ++ post1) →
  mem s !! b2 = Some (pre2 ++ raw ++ post2) →
  match uninitialized_copy_n (Ptr b1 o1) (length xs) (Ptr b2 o2) s with
  | Ret _ s' => mem s' !! b1 = Some (pre1 ++ (Some <$> xs) ++ post1)
                ∧ mem s' !! b2 = Some (pre2 ++ (Some <$> xs) ++ post2)
                ∧ frame2 s s' b1 b2 ∧ quiet s s'
  | Throw s' => mem s' !! b1 = Some (pre1 ++ (Some <$> xs) ++ post1)
                ∧ (∃ raw', length raw' = length raw
                           ∧ mem s' !! b2 = Some (pre2 ++ raw' ++ post2))
                ∧ frame2 s s' b1 b2
  | Undef => False
  end.
Proof.
  intros Hne. revert s o1 pre1 o2 pre2 raw.
  induction xs as [|v xs IH]; intros s o1 pre1 o2 pre2 raw -> -> Hlen H1 H2.
  - destruct raw; [|done]. simpl.
    split_and!; [done|done|apply frame2_refl|apply quiet_refl].
  - destruct raw as [|w raw]; [done|]. simpl in Hlen.
    rewrite fmap_cons, <- app_comm_cons in H1. rewrite <- app_comm_cons in H2.
    pose proof (copy_construct_cases s b1 (length pre1) _ b2 (length pre2) _ v Hne H1
                  (list_lookup_middle _ _ _ _ eq_refl) H2) as Hc.
    cbn [uninitialized_copy_n length]. unfold bind at 1.
    destruct (copy_construct (Ptr b2 (length pre2)) (Ptr b1 (length pre1)) s)
      as [[] s1|s1|].
    + destruct Hc as (H1' & H2' & Hfr1 & Hq1); [rewrite length_app; simpl; lia|].
      rewrite insert_middle in H2'.
      rewrite (snoc_middle pre1) in H1'. rewrite (snoc_middle pre2) in H2'.
      specialize (IH s1 (length pre1 + 1) (pre1 ++ [Some v])
                    (length pre2 + 1) (pre2 ++ [Some v]) raw).
      unfold on_throw, try_catch. simpl ptr_add.
      destruct (uninitialized_copy_n (Ptr b1 (length pre1 + 1)) (length xs)
                  (Ptr b2 (length pre2 + 1)) s1) as [a s2|s2|].
      * destruct IH as (H1'' & H2'' & Hfr2 & Hq2);
          [rewrite length_app; simpl; lia|rewrite length_app; simpl; lia|lia|done|done|].
        rewrite <- !snoc_middle in H1'', H2''.
        split_and!; [done|done|by eapply frame2_trans|by eapply quiet_trans].
      * destruct IH as (H1'' & (raw' & Hraw' & H2'') & Hfr2);
          [rewrite length_app; simpl; lia|rewrite length_app; simpl; lia|lia|done|done|].
        rewrite <- snoc_middle in H1'', H2''.
        destruct (destroy_at_Ret s2 b2 (length pre2) _ v H2'')
          as (s3 & Hrun3 & H2''' & _ & Hfr3); [by apply list_lookup_middle|].
        rewrite insert_middle in H2'''.
        rewrite (bind_Ret _ _ _ _ _ Hrun3). unfold rethrow.
        split_and!.
        -- destruct Hfr3 as (_ & _ & Hfr3). rewrite Hfr3 by done. done.
        -- exists (None :: raw'). split; [simpl; lia|done].
        -- eapply frame2_trans; [by eapply frame2_trans|].
           destruct Hfr3 as (? & ? & Hfr3). split_and!; [done..|].
           intros b ? ?. by apply Hfr3.
      * destruct IH;
          [rewrite length_app; simpl; lia|rewrite length_app; simpl; lia|lia|done|done].
    + destruct Hc as (Hvs & Hls & Hm); [rewrite length_app; simpl; lia|].
      rewrite Hm. split_and!; [by rewrite fmap_cons| |].
      * exists (w :: raw). by rewrite <- app_comm_cons.
      * split_and!; [done..|]. intros b _ _. by rewrite Hm.
    + apply Hc. rewrite length_app. simpl. lia.
Qed.

(** ** Scopes and relocation under an arbitrary oracle *)

Lemma finally_Throw {R} (m : M R) c s s1 s2 :
  m s = Throw s1 → c s1 = Ret () s2 → finally m c s = Throw s2.
Proof. unfold finally. intros ->. unfold bind. by intros ->. Qed.

Lemma RawMemory_dtor_quiet s r old :
  raw_at s r = Some old → can_free s (buffer_ old) →
  ∃ s', RawMemory_dtor r s = Ret () s'
        ∧ vecs s' = vecs s ∧ locals s' = locals s
        ∧ mem s' = freed (buffer_ old) (mem s)
        ∧ quiet s s'.
Proof.
  intros Hr Hfree. unfold RawMemory_dtor. rewrite (get_raw_bind _ _ _ _ Hr).
  unfold Deallocate, operator_delete.
  destruct (buffer_ old) as [|b [|o]]; simpl in *; [| |done].
  - exists s. split_and!; [done..|apply quiet_refl].
  - destruct Hfree as [sl ->]. eexists. split_and!; [done..|].
    exists [EvDelete b]. split; [done|]. by constructor.
Qed.

Lemma take_snoc_length {X} (l : list X) (a : X) : take (length (l ++ [a]) - 1) (l ++ [a]) = l.
Proof.
  rewrite length_app. simpl. replace (length l + 1 - 1) with (length l) by lia.
  by rewrite take_app_length.
Qed.

(** The allocation of the local throws: nothing has changed. *)
Lemma with_RawMemory_alloc_Throw {R} capacity (body : rawref → M R) s :
  capacity ≠ 0 → throws (trace s) (EvNew capacity) = true →
  ∃ s', with_RawMemory capacity body s = Throw s' ∧ unchanged s s'.
Proof.
  intros Hcap Hthrow.
  set (s0 := set_locals (fun l => l ++ [mkRawMemory Null 0]) s).
  assert (Hctor : RawMemory_ctor (Local (length (locals s))) capacity s0
                  = Throw (log (EvThrow (EvNew capacity)) s0)).
  { unfold RawMemory_ctor, Allocate. rewrite decide_True by done.
    apply bind_Throw. unfold operator_new. apply bind_Throw.
    unfold attempt. simpl. by rewrite Hthrow. }
  eexists. split.
  - unfold with_RawMemory. unfold bind at 1. unfold push_local. fold s0.
    eapply finally_Throw; [|reflexivity].
    by rewrite (bind_Throw _ _ _ _ Hctor).
  - unfold unchanged. simpl. split_and!; [done| |done]. apply take_snoc_length.
Qed.

(** The allocation succeeds: the body runs with a fresh block, and the
    local is destroyed whether the body returns or throws. *)
Lemma with_RawMemory_cases {R} capacity (body : rawref → M R) s :
  capacity ≠ 0 → throws (trace s) (EvNew capacity) = false →
  ∃ s1 b', mem s !! b' = None
    ∧ vecs s1 = vecs s
    ∧ locals s1 = locals s ++ [mkRawMemory (Ptr b' 0) capacity]
    ∧ mem s1 = <[b' := replicate capacity None]> (mem s)
    ∧ quiet s s1
    ∧ (∀ a s2 old,
         body (Local (length (locals s))) s1 = Ret a s2 →
         raw_at s2 (Local (length (locals s))) = Some old →
         length (locals s2) = S (length (locals s)) →
         can_free s2 (buffer_ old) →
         ∃ s3, with_RawMemory capacity body s = Ret a s3
               ∧ vecs s3 = vecs s2
               ∧ locals s3 = take (length (locals s)) (locals s2)
               ∧ mem s3 = freed (buffer_ old) (mem s2)
               ∧ quiet s2 s3)
    ∧ (∀ s2 old,
         body (Local (length (locals s))) s1 = Throw s2 →
         raw_at s2 (Local (length (locals s))) = Some old →
         length (locals s2) = S (length (locals s)) →
         can_free s2 (buffer_ old) →
         ∃ s3, with_RawMemory capacity body s = Throw s3
               ∧ vecs s3 = vecs s2
               ∧ locals s3 = take (length (locals s)) (locals s2)
               ∧ mem s3 = freed (buffer_ old) (mem s2)).
Proof.
  intros Hcap Hnothrow.
  set (i := length (locals s)).
  set (s0 := set_locals (fun l => l ++ [mkRawMemory Null 0]) s).
  set (b' := fresh (dom (mem s))).
  set (s1 := put_raw (Local i) (mkRawMemory (Ptr b' 0) capacity)
               (set_mem <[b' := replicate capacity None]> (log (EvNew capacity) s0))).
  assert (Hctor : RawMemory_ctor (Local i) capacity s0 = Ret () s1).
  { unfold RawMemory_ctor, Allocate. rewrite decide_True by done.
    assert (Hnew : operator_new capacity s0
                   = Ret (Ptr b' 0)
                       (set_mem <[b' := replicate capacity None]> (log (EvNew capacity) s0))).
    { assert (Hat : attempt (EvNew capacity) s0 = Ret () (log (EvNew capacity) s0))
        by (unfold attempt; simpl; by rewrite Hnothrow).
      unfold operator_new. by rewrite (bind_Ret _ _ _ _ _ Hat). }
    rewrite (bind_Ret _ _ _ _ _ Hnew).
    apply set_raw_Ret. simpl. rewrite lookup_app_r by done.
    replace (i - length (locals s)) with 0 by (unfold i; lia). by eexists. }
  exists s1, b'. split; [apply fresh_block_None|]. split; [done|].
  split.
  { simpl. rewrite insert_app_r_alt by done.
    by replace (i - length (locals s)) with 0 by (unfold i; lia). }
  split; [done|]. split.
  { exists [EvNew capacity]. split; [done|]. by constructor. }
  split.
  - intros a s2 old Hbody Hold Hlen Hfree.
    destruct (RawMemory_dtor_quiet s2 (Local i) old Hold Hfree)
      as (s3 & Hdtor & Hv3 & Hl3 & Hm3 & Hq3).
    eexists. split.
    { unfold with_RawMemory. unfold bind at 1. unfold push_local. fold i. fold s0.
      eapply finally_Ret; [|reflexivity].
      rewrite (bind_Ret _ _ _ _ _ Hctor). by eapply finally_Ret. }
    simpl. rewrite Hv3, Hl3, Hm3, Hlen. split_and!; [done| |done|].
    + f_equal. lia.
    + destruct Hq3 as (es & Htr & F). by exists es.
  - intros s2 old Hbody Hold Hlen Hfree.
    destruct (RawMemory_dtor_quiet s2 (Local i) old Hold Hfree)
      as (s3 & Hdtor & Hv3 & Hl3 & Hm3 & Hq3).
    eexists. split.
    { unfold with_RawMemory. unfold bind at 1. unfold push_local. fold i. fold s0.
      eapply finally_Throw; [|reflexivity].
      rewrite (bind_Ret _ _ _ _ _ Hctor). by eapply finally_Throw. }
    simpl. rewrite Hv3, Hl3, Hm3, Hlen. split_and!; [done| |done].
    f_equal. lia.
Qed.

(** The second half of [CopyOrMoveAndSwap]: the old elements are
    destroyed and the two [RawMemory] objects exchanged. *)
Lemma destroy_and_swap_Ret s this buf zs cap i x :
  is_vector s this buf zs cap →
  raw_at s (Local i) = Some x →
  ∃ s', (let* p := GetAddress (DataOf this) in
         let* n := get_size this in
         destroy_n p n ;;;
         RawMemory_Swap (DataOf this) (Local i)) s = Ret () s'
        ∧ raw_at s' (DataOf this) = Some x
        ∧ raw_at s' (Local i) = Some (mkRawMemory buf cap)
        ∧ size_at s' this = Some (length zs)
        ∧ can_free s' buf
        ∧ length (locals s') = length (locals s)
        ∧ (∀ b, buf ≠ Ptr b 0 → mem s' !! b = mem s !! b)
        ∧ quiet s s'.
Proof.
  intros Hv Hr.
  destruct (destroy_all_Ret s this buf zs cap Hv)
    as (s2 & a & Hrun2 & Hfree2 & Htr2 & Hvs2 & Hls2 & Hfr2).
  assert (Hraw2 : raw_at s2 (DataOf this) = Some (mkRawMemory buf cap)).
  { simpl. rewrite Hvs2. apply (is_vector_raw_at _ _ _ _ _ Hv). }
  assert (Hloc2 : raw_at s2 (Local i) = Some x) by (simpl; by rewrite Hls2).
  destruct (RawMemory_Swap_Ret s2 (DataOf this) (Local i) _ _ Hraw2 Hloc2)
    as (s3 & Hrun3 & Hthis3 & Hloc3 & _ & Hsz3 & Hlen3 & Hm3 & Htr3).
  exists s3. split.
  { rewrite (GetAddress_bind _ _ _ _ (is_vector_raw_at _ _ _ _ _ Hv)).
    rewrite (get_size_bind _ _ _ _ (is_vector_size_at _ _ _ _ _ Hv)). simpl.
    by rewrite (bind_Ret _ _ _ _ _ Hrun2). }
  rewrite decide_False in Hloc3 by done.
  split_and!; [done|done|..].
  - rewrite Hsz3. unfold size_at. rewrite Hvs2. apply (is_vector_size_at _ _ _ _ _ Hv).
  - destruct buf as [|b [|o]]; simpl in *; [done| |done]. by rewrite Hm3.
  - by rewrite Hlen3, Hls2.
  - intros b Hb. rewrite Hm3. by apply Hfr2.
  - exists (EvDtor <$> zs). rewrite Htr3. split; [done|].
    apply Forall_fmap, Forall_forall. by intros e _.
Qed.

(** [CopyOrMoveAndSwap] for an element type that is relocated by copy:
    when a copy throws, the exception propagates and only the new block
    has been touched. *)
Lemma CopyOrMoveAndSwap_copy_cases s this buf xs cap i b' raw post' :
  relocate_by_move = false →
  is_vector s this buf xs cap →
  raw_at s (Local i) = Some (mkRawMemory (Ptr b' 0) (length (raw ++ post'))) →
  mem s !! b' = Some (raw ++ post') → length raw = length xs →
  buf ≠ Ptr b' 0 →
  match CopyOrMoveAndSwap this (Local i) s with
  | Ret _ s' =>
      raw_at s' (DataOf this) = Some (mkRawMemory (Ptr b' 0) (length (raw ++ post')))
      ∧ raw_at s' (Local i) = Some (mkRawMemory buf cap)
      ∧ size_at s' this = Some (length xs)
      ∧ mem s' !! b' = Some ((Some <$> xs) ++ post')
      ∧ can_free s' buf
      ∧ length (locals s') = length (locals s)
      ∧ quiet s s'
  | Throw s' =>
      vecs s' = vecs s ∧ locals s' = locals s
      ∧ is_Some (mem s' !! b')
      ∧ (∀ b, b ≠ b' → mem s' !! b = mem s !! b)
  | Undef => False
  end.
Proof.
  intros Hrel Hv Hr Hb' Hlen Hne.
  pose proof (is_vector_raw_at _ _ _ _ _ Hv) as Hraw.
  pose proof (is_vector_size_at _ _ _ _ _ Hv) as Hsize.
  pose proof Hv as (Hvec & Hle & Hblk).
  unfold CopyOrMoveAndSwap. rewrite Hrel.
  rewrite bind_assoc, (GetAddress_bind _ _ _ _ Hraw). cbn beta.
  rewrite bind_assoc, (get_size_bind _ _ _ _ Hsize). cbn beta.
  rewrite bind_assoc, (GetAddress_bind _ _ _ _ Hr). cbn beta.
  rewrite bind_assoc. cbn beta. cbn [buffer_].
  assert (Hrest : ∀ s1,
            is_vector s1 this buf xs cap →
            raw_at s1 (Local i) = Some (mkRawMemory (Ptr b' 0) (length (raw ++ post'))) →
            mem s1 !! b' = Some ((Some <$> xs) ++ post') →
            length (locals s1) = length (locals s) → quiet s s1 →
            ∃ s', (let* _ := ret () in
                   let* p := GetAddress (DataOf this) in
                   let* n := get_size this in
                   destroy_n p n ;;; RawMemory_Swap (DataOf this) (Local i)) s1 = Ret () s'
                ∧ raw_at s' (DataOf this)
                  = Some (mkRawMemory (Ptr b' 0) (length (raw ++ post')))
                ∧ raw_at s' (Local i) = Some (mkRawMemory buf cap)
                ∧ size_at s' this = Some (length xs)
                ∧ mem s' !! b' = Some ((Some <$> xs) ++ post')
                ∧ can_free s' buf
                ∧ length (locals s') = length (locals s)
                ∧ quiet s s').
  { intros s1 Hv1 Hr1 Hb1 Hlen1 Hq1. rewrite bind_ret.
    destruct (destroy_and_swap_Ret s1 this buf xs cap i _ Hv1 Hr1)
      as (s' & Hrun & H1 & H2 & H3 & H4 & H5 & H6 & H7).
    exists s'. split_and!; [done|done|done|done| |done|by rewrite H5|by eapply quiet_trans].
    rewrite H6; [done|]. intros ->. done. }
  destruct buf as [|b [|o]]; [| |done].
  - (* no buffer: nothing to copy *)
    simpl in Hblk. injection Hblk as Hblk. symmetry in Hblk.
    apply layout_nil_inv in Hblk as [-> _]. destruct raw; [|done].
    cbn [length uninitialized_copy_n]. rewrite bind_ret.
    destruct (Hrest s Hv Hr Hb' eq_refl (quiet_refl s)) as (s' & -> & Hfacts). exact Hfacts.
  - simpl in Hblk. assert (Hbb : b ≠ b') by congruence.
    pose proof (uninitialized_copy_n_cases s b 0 [] xs (replicate (cap - length xs) None)
                  b' 0 [] raw post' Hbb eq_refl eq_refl Hlen Hblk Hb') as Hc.
    unfold bind at 1.
    destruct (uninitialized_copy_n (Ptr b 0) (length xs) (Ptr b' 0) s) as [a s1|s1|].
    + destruct Hc as (H1 & H2 & (Hvs & Hls & Hfr) & Hq).
      destruct (Hrest s1) as (s' & -> & Hfacts);
        [|by rewrite (frame2_raw_at s s1 b b')|done|by rewrite Hls|done|exact Hfacts].
      split_and!; [by rewrite Hvs|done|done].
    + destruct Hc as (H1 & (raw' & _ & H2) & (Hvs & Hls & Hfr)).
      split_and!; [done|done|by rewrite H2|].
      intros b0 Hb0. destruct (decide (b0 = b)) as [->|]; [|by apply Hfr].
      by rewrite H1.
    + done.
Qed.

(** ** Relocation by a move constructor that is [noexcept] *)

Lemma move_construct_nothrow s b1 o1 sl1 b2 o2 sl2 v :
  is_nothrow_move_constructible = true →
  b1 ≠ b2 →
  mem s !! b1 = Some sl1 → sl1 !! o1 = Some (Some v) →
  mem s !! b2 = Some sl2 → o2 < length sl2 →
  ∃ s', move_construct (Ptr b2 o2) (Ptr b1 o1) s = Ret () s'
        ∧ mem s' !! b1 = Some (<[o1 := Some (moved_from v)]> sl1)
        ∧ mem s' !! b2 = Some (<[o2 := Some v]> sl2)
        ∧ frame2 s s' b1 b2
        ∧ trace s' = trace s ++ [EvCtorMove v].
Proof.
  intros Hmv Hne H1 Ho1 H2 Ho2. unfold move_construct.
  destruct (lookup_lt_is_Some_2 sl2 o2 Ho2) as [v2 Hv2].
  erewrite load_bind by (erewrite slot_of_lookup; eauto).
  erewrite get_slot_bind by (erewrite slot_of_lookup; eauto).
  unfold attempt_move. rewrite Hmv. unfold record. unfold bind at 1.
  erewrite bind_Ret by (apply put_slot_Ret; [done|by eapply lookup_lt_Some]).
  eexists. split.
  { apply put_slot_Ret; [|done]. simpl. by rewrite lookup_insert_ne. }
  unfold frame2; simpl. rewrite lookup_insert_eq, lookup_insert_ne, lookup_insert_eq by done.
  split_and!; [done..| |done]. intros b ? ?. by rewrite !lookup_insert_ne.
Qed.

Lemma uninitialized_move_n_nothrow s b1 o1 pre1 xs post1 b2 o2 pre2 raw post2 :
  is_nothrow_move_constructible = true →
  b1 ≠ b2 → o1 = length pre1 → o2 = length pre2 → length raw = length xs →
  mem s !! b1 = Some (pre1 ++ (Some <$> xs) ++ post1) →
  mem s !! b2 = Some (pre2 ++ raw ++ post2) →
  ∃ s' a, uninitialized_move_n (Ptr b1 o1) (length xs) (Ptr b2 o2) s = Ret a s'
          ∧ mem s' !! b1 = Some (pre1 ++ (Some ∘ moved_from <$> xs) ++ post1)
          ∧ mem s' !! b2 = Some (pre2 ++ (Some <$> xs) ++ post2)
          ∧ frame2 s s' b1 b2
          ∧ trace s' = trace s ++ (EvCtorMove <$> xs).
Proof.
  intros Hmv Hne. revert s o1 pre1 o2 pre2 raw.
  induction xs as [|v xs IH]; intros s o1 pre1 o2 pre2 raw -> -> Hlen H1 H2.
  - destruct raw; [|done]. exists s. eexists. simpl. rewrite app_nil_r.
    by split_and!; [..|apply frame2_refl|].
  - destruct raw as [|w raw]; [done|]. simpl in Hlen.
    rewrite fmap_cons, <- app_comm_cons in H1. rewrite <- app_comm_cons in H2.
    destruct (move_construct_nothrow s b1 (length pre1) _ b2 (length pre2) _ v Hmv Hne H1
                (list_lookup_middle _ _ _ _ eq_refl) H2)
      as (s1 & Hrun & H1' & H2' & Hfr1 & Htr1).
    { rewrite length_app. simpl. lia. }
    rewrite insert_middle in H1', H2'.
    destruct (IH s1 (length pre1 + 1) (pre1 ++ [Some (moved_from v)])
                 (length pre2 + 1) (pre2 ++ [Some v]) raw)
      as (s2 & a & Hrun2 & H1'' & H2'' & Hfr2 & Htr2).
    { rewrite length_app. simpl. lia. }
    { rewrite length_app. simpl. lia. }
    { lia. }
    { by rewrite <- app_assoc. }
    { by rewrite <- app_assoc. }
    exists s2, a. cbn [length uninitialized_move_n]. rewrite (bind_Ret _ _ _ _ _ Hrun).
    split_and!.
    + by apply on_throw_Ret.
    + by rewrite H1'', <- app_assoc.
    + by rewrite H2'', <- app_assoc.
    + by eapply frame2_trans.
    + by rewrite Htr2, Htr1, <- app_assoc.
Qed.

(** [CopyOrMoveAndSwap] with a move constructor that is [noexcept]: it
    always returns. *)
Lemma CopyOrMoveAndSwap_move_Ret s this buf xs cap i b' raw post' :
  is_nothrow_move_constructible = true →
  is_vector s this buf xs cap →
  raw_at s (Local i) = Some (mkRawMemory (Ptr b' 0) (length (raw ++ post'))) →
  mem s !! b' = Some (raw ++ post') → length raw = length xs →
  buf ≠ Ptr b' 0 →
  ∃ s', CopyOrMoveAndSwap this (Local i) s = Ret () s'
        ∧ raw_at s' (DataOf this) = Some (mkRawMemory (Ptr b' 0) (length (raw ++ post')))
        ∧ raw_at s' (Local i) = Some (mkRawMemory buf cap)
        ∧ size_at s' this = Some (length xs)
        ∧ mem s' !! b' = Some ((Some <$> xs) ++ post')
        ∧ can_free s' buf
        ∧ length (locals s') = length (locals s)
        ∧ quiet s s'.
Proof.
  intros Hmv Hv Hr Hb' Hlen Hne.
  pose proof (is_vector_raw_at _ _ _ _ _ Hv) as Hraw.
  pose proof (is_vector_size_at _ _ _ _ _ Hv) as Hsize.
  pose proof Hv as (Hvec & Hle & Hblk).
  assert (Hrel : relocate_by_move = true) by (unfold relocate_by_move; by rewrite Hmv).
  unfold CopyOrMoveAndSwap. rewrite Hrel.
  rewrite bind_assoc, (GetAddress_bind _ _ _ _ Hraw). cbn beta.
  rewrite bind_assoc, (get_size_bind _ _ _ _ Hsize). cbn beta.
  rewrite bind_assoc, (GetAddress_bind _ _ _ _ Hr). cbn beta.
  rewrite bind_assoc. cbn beta. cbn [buffer_].
  assert (∃ s1 a zs, uninitialized_move_n buf (length xs) (Ptr b' 0) s = Ret a s1
            ∧ is_vector s1 this buf zs cap ∧ length zs = length xs
            ∧ raw_at s1 (Local i) = Some (mkRawMemory (Ptr b' 0) (length (raw ++ post')))
            ∧ mem s1 !! b' = Some ((Some <$> xs) ++ post')
            ∧ length (locals s1) = length (locals s) ∧ quiet s s1)
    as (s1 & a & zs & Hrun1 & Hv1 & Hzs & Hr1 & Hb1 & Hlen1 & Hq1).
  { destruct buf as [|b [|o]]; [| |done].
    - simpl in Hblk. injection Hblk as Hblk. symmetry in Hblk.
      apply layout_nil_inv in Hblk as [-> _]. destruct raw; [|done].
      exists s, (Null, Ptr b' 0), []. simpl. split_and!; [done..|apply quiet_refl].
    - simpl in Hblk. assert (Hbb : b ≠ b') by congruence.
      destruct (uninitialized_move_n_nothrow s b 0 [] xs (replicate (cap - length xs) None)
                  b' 0 [] raw post' Hmv Hbb eq_refl eq_refl Hlen Hblk Hb')
        as (s1 & a & Hrun & H1 & H2 & (Hvs & Hls & Hfr) & Htr).
      exists s1, a, (moved_from <$> xs). split_and!; [done| |by rewrite length_fmap|..].
      + split_and!; [by rewrite Hvs, length_fmap|by rewrite length_fmap|].
        simpl. rewrite H1. simpl. unfold layout.
        by rewrite list_fmap_compose, length_fmap.
      + simpl. by rewrite Hls.
      + done.
      + by rewrite Hls.
      + eapply quiet_events; [done|]. apply Forall_fmap. by apply Forall_true. }
  rewrite (bind_Ret _ _ _ _ _ Hrun1). rewrite bind_ret.
  destruct (destroy_and_swap_Ret s1 this buf zs cap i _ Hv1 Hr1)
    as (s' & Hrun & H1 & H2 & H3 & H4 & H5 & H6 & H7).
  exists s'. split_and!; [done|done|done|congruence| |done|congruence|by eapply quiet_trans].
  rewrite H6; [done|]. intros ->. done.
Qed.

(** [CopyOrMoveAndSwap] for every safe relocation: when it throws, only
    the new block has been touched. *)
Lemma CopyOrMoveAndSwap_safe_cases s this buf xs cap i b' raw post' :
  safe_relocation →
  is_vector s this buf xs cap →
  raw_at s (Local i) = Some (mkRawMemory (Ptr b' 0) (length (raw ++ post'))) →
  mem s !! b' = Some (raw ++ post') → length raw = length xs →
  buf ≠ Ptr b' 0 →
  match CopyOrMoveAndSwap this (Local i) s with
  | Ret _ s' =>
      raw_at s' (DataOf this) = Some (mkRawMemory (Ptr b' 0) (length (raw ++ post')))
      ∧ raw_at s' (Local i) = Some (mkRawMemory buf cap)
      ∧ size_at s' this = Some (length xs)
      ∧ mem s' !! b' = Some ((Some <$> xs) ++ post')
      ∧ can_free s' buf
      ∧ length (locals s') = length (locals s)
      ∧ quiet s s'
  | Throw s' =>
      vecs s' = vecs s ∧ locals s' = locals s
      ∧ is_Some (mem s' !! b')
      ∧ (∀ b, b ≠ b' → mem s' !! b = mem s !! b)
  | Undef => False
  end.
Proof.
  intros [Hrel|Hmv] Hv Hr Hb' Hlen Hne.
  - by apply (CopyOrMoveAndSwap_copy_cases s this buf xs cap i b' raw post').
  - destruct (CopyOrMoveAndSwap_move_Ret s this buf xs cap i b' raw post' Hmv Hv Hr Hb' Hlen Hne)
      as (s' & -> & Hfacts). exact Hfacts.
Qed.

(** ** The strong guarantee of growth *)

Lemma delete_fresh_frame (m m2 : gmap nat (list (option T))) b' :
  m !! b' = None → (∀ k, k ≠ b' → m2 !! k = m !! k) → delete b' m2 = m.
Proof.
  intros Hfresh Hfr. apply map_eq. intros k. destruct (decide (k = b')) as [->|].
  - by rewrite lookup_delete_eq.
  - rewrite lookup_delete_ne by done. by apply Hfr.
Qed.


(** Growth into a fresh block under an arbitrary oracle, for a safe
    relocation: the common part of [Reserve] and [EmplaceBack]. *)
Lemma grow_safe_cases s s1 this buf xs cap b' post' :
  safe_relocation →
  is_vector s this buf xs cap →
  mem s !! b' = None →
  vecs s1 = vecs s →
  locals s1 = locals s ++ [mkRawMemory (Ptr b' 0) (length xs + length post')] →
  mem s1 !! b' = Some (replicate (length xs) None ++ post') →
  (∀ b, b ≠ b' → mem s1 !! b = mem s !! b) →
  match CopyOrMoveAndSwap this (Local (length (locals s))) s1 with
  | Ret _ s2 =>
      raw_at s2 (Local (length (locals s))) = Some (mkRawMemory buf cap)
      ∧ length (locals s2) = S (length (locals s))
      ∧ can_free s2 buf
      ∧ quiet s1 s2
      ∧ ∀ s3, vecs s3 = vecs s2 → mem s3 = freed buf (mem s2) →
              raw_at s3 (DataOf this)
              = Some (mkRawMemory (Ptr b' 0) (length xs + length post'))
              ∧ size_at s3 this = Some (length xs)
              ∧ mem s3 !! b' = Some ((Some <$> xs) ++ post')
  | Throw s2 =>
      raw_at s2 (Local (length (locals s)))
      = Some (mkRawMemory (Ptr b' 0) (length xs + length post'))
      ∧ length (locals s2) = S (length (locals s))
      ∧ can_free s2 (Ptr b' 0)
      ∧ ∀ s3, vecs s3 = vecs s2 → locals s3 = take (length (locals s)) (locals s2) →
              mem s3 = freed (Ptr b' 0) (mem s2) → unchanged s s3
  | Undef => False
  end.
Proof.
  intros Hrel Hv Hfresh Hvs1 Hls1 Hb1 Hm1.
  pose proof (is_vector_block_ne _ _ _ _ _ _ Hv Hfresh) as Hne.
  assert (Hv1 : is_vector s1 this buf xs cap).
  { apply (is_vector_frame s); [done|by rewrite Hvs1|].
    intros b ->. apply Hm1. congruence. }
  assert (Hlen : length (replicate (length xs) (@None T) ++ post')
                 = length xs + length post')
    by (by rewrite length_app, length_replicate).
  assert (Hloc1 : raw_at s1 (Local (length (locals s)))
                  = Some (mkRawMemory (Ptr b' 0) (length xs + length post'))).
  { simpl. rewrite Hls1. apply lookup_snoc_length. }
  pose proof (CopyOrMoveAndSwap_safe_cases s1 this buf xs cap (length (locals s)) b'
                (replicate (length xs) None) post' Hrel Hv1) as Hc.
  rewrite Hlen in Hc. specialize (Hc Hloc1 Hb1).
  rewrite length_replicate in Hc. specialize (Hc eq_refl Hne).
  destruct (CopyOrMoveAndSwap this (Local (length (locals s))) s1) as [[] s2|s2|];
    [| |done].
  - destruct Hc as (Hthis & Hloc & Hsz & Hb2 & Hfree & Hlen2 & Hq).
    split_and!; [done| |done|done|].
    + rewrite Hlen2, Hls1, length_app. simpl. lia.
    + intros s3 Hvs3 Hm3. split_and!.
      * simpl. rewrite Hvs3. exact Hthis.
      * unfold size_at. rewrite Hvs3. exact Hsz.
      * rewrite Hm3, freed_lookup_ne; [done..|]. by eapply is_vector_offset_0.
  - destruct Hc as (Hvs2 & Hls2 & Hsome & Hfr).
    split_and!.
    + simpl. rewrite Hls2. exact Hloc1.
    + rewrite Hls2, Hls1, length_app. simpl. lia.
    + exact Hsome.
    + intros s3 Hvs3 Hls3 Hm3. unfold unchanged. rewrite Hvs3, Hls3, Hm3, Hvs2, Hls2, Hls1.
      split_and!; [done|by rewrite take_app_length|].
      simpl. apply delete_fresh_frame; [done|].
      intros k Hk. rewrite Hfr by done. by apply Hm1.
Qed.



Lemma quiet_put_size s s' this n : quiet s s' → quiet s (put_size this n s').
Proof. intros (es & Htr & F). by exists es. Qed.

Lemma EmplaceBack_guarantee_safe s this buf xs cap args :
  safe_relocation →
  is_vector s this buf xs cap →
  strong_guarantee s (EmplaceBack this args s)
    (fun s' => ∃ buf', is_vector s' this buf' (xs ++ [value_of args])
                 (if decide (length xs = cap)
                  then (if decide (length xs = 0) then 1 else length xs * 2)
                  else cap)).
Proof.
  intros Hrel Hv.
  pose proof (is_vector_raw_at _ _ _ _ _ Hv) as Hraw.
  pose proof (is_vector_size_at _ _ _ _ _ Hv) as Hsize.
  pose proof Hv as (_ & Hle & _).
  unfold EmplaceBack, Capacity.
  rewrite (get_size_bind _ _ _ _ Hsize), (RawMemory_Capacity_bind _ _ _ _ Hraw). simpl.
  set (n := length xs) in *.
  assert (Hfinish : ∀ s3 buf' c,
            quiet s s3 →
            raw_at s3 (DataOf this) = Some (mkRawMemory buf' c) →
            size_at s3 this = Some n → n < c →
            block_of s3 buf' = Some (layout (xs ++ [value_of args]) c) →
            strong_guarantee s
              ((set_size this (S n) ;;;
                let* n0 := get_size this in RawMemory_index (DataOf this) (n0 - 1)) s3)
              (fun s' => ∃ buf', is_vector s' this buf' (xs ++ [value_of args]) c)).
  { intros s3 buf' c Hq Hthis Hsz Hc Hblk.
    rewrite (set_size_bind _ _ _ _ _ Hsz).
    rewrite (get_size_bind _ _ (S n)) by (by rewrite size_at_put_same, Hsz).
    erewrite RawMemory_index_Ret; [|by rewrite raw_at_put_size|simpl; lia].
    split; [by apply quiet_put_size|]. exists buf'. apply is_vector_intro.
    - by rewrite raw_at_put_size.
    - rewrite size_at_put_same, Hsz, length_app. simpl. f_equal. fold n. lia.
    - rewrite length_app. simpl. fold n. lia.
    - exact Hblk. }
  destruct (decide (n = cap)) as [Hfull|Hroom].
  - (* growth *)
    set (c := if decide (n = 0) then 1 else n * 2).
    assert (Hc : n < c) by (unfold c; case_decide; lia).
    set (bdy := fun new_data =>
                  let* p := RawMemory_plus new_data n in
                  construct_at p args ;;; CopyOrMoveAndSwap this new_data).
    destruct (throws (trace s) (EvNew c)) eqn:Hthrow.
    { destruct (with_RawMemory_alloc_Throw c bdy s) as (s' & Hrun & Hun); [lia|done|].
      by rewrite (bind_Throw _ _ _ _ Hrun). }
    destruct (with_RawMemory_cases c bdy s)
      as (s1 & b' & Hfresh & Hvs1 & Hls1 & Hm1 & Hq1 & HRet & HThrow); [lia|done|].
    set (i := length (locals s)) in *.
    assert (Hloc1 : raw_at s1 (Local i) = Some (mkRawMemory (Ptr b' 0) c)).
    { simpl. rewrite Hls1. apply lookup_snoc_length. }
    assert (Hbody : bdy (Local i) s1
                    = (construct_at (Ptr b' n) args ;;; CopyOrMoveAndSwap this (Local i)) s1).
    { unfold bdy. by rewrite (RawMemory_plus_bind _ _ _ _ _ Hloc1) by (simpl; lia). }
    pose proof (construct_at_cases s1 b' n (replicate c None) args) as Hcons.
    rewrite Hm1, lookup_insert_eq, length_replicate in Hcons.
    specialize (Hcons eq_refl Hc).
    unfold bind at 1 in Hbody.
    destruct (construct_at (Ptr b' n) args s1) as [[] sa|sa|]; [| |done].
    + (* the new element is constructed *)
      destruct Hcons as (Hb'a & (Hvsa & Hlsa & Hfra) & Hqa).
      rewrite insert_replicate_raw in Hb'a by done.
      set (post' := Some (value_of args) :: replicate (c - S n) None) in *.
      assert (Hc' : c = n + length post')
        by (unfold post'; simpl; rewrite length_replicate; lia).
      pose proof (grow_safe_cases s sa this buf xs cap b' post' Hrel Hv Hfresh) as Hg.
      fold n in Hg. fold i in Hg. rewrite <- Hc' in Hg.
      specialize (Hg (eq_trans Hvsa Hvs1) (eq_trans Hlsa Hls1) Hb'a).
      destruct (CopyOrMoveAndSwap this (Local i) sa) as [[] s2|s2|].
      * destruct Hg as (Hloc & Hlen & Hfree & Hq2 & Hpost).
        { intros b Hb. by rewrite Hfra, Hm1, lookup_insert_ne. }
        destruct (HRet () s2 _ Hbody Hloc Hlen Hfree) as (s3 & Hrun & Hvs3 & _ & Hm3 & Hq3).
        destruct (Hpost s3 Hvs3 Hm3) as (Hthis & Hsz & Hb3).
        rewrite (bind_Ret _ _ _ _ _ Hrun).
        apply (Hfinish s3 (Ptr b' 0) c); [|done|done|done|].
        -- eapply quiet_trans; [|exact Hq3]. eapply quiet_trans; [|exact Hq2].
           by eapply quiet_trans.
        -- simpl. rewrite Hb3. f_equal. rewrite layout_snoc by (fold n; lia). done.
      * destruct Hg as (Hloc & Hlen & Hfree & Hpost).
        { intros b Hb. by rewrite Hfra, Hm1, lookup_insert_ne. }
        destruct (HThrow s2 _ Hbody Hloc Hlen Hfree) as (s3 & Hrun & Hvs3 & Hls3 & Hm3).
        rewrite (bind_Throw _ _ _ _ Hrun). by apply Hpost.
      * exfalso. apply Hg. intros b Hb. by rewrite Hfra, Hm1, lookup_insert_ne.
    + (* the constructor of the new element throws *)
      destruct Hcons as (Hvsa & Hlsa & Hma).
      destruct (HThrow sa (mkRawMemory (Ptr b' 0) c) Hbody)
        as (s3 & Hrun & Hvs3 & Hls3 & Hm3).
      { simpl. rewrite Hlsa. exact Hloc1. }
      { rewrite Hlsa, Hls1, length_app. simpl. lia. }
      { simpl. rewrite Hma, Hm1, lookup_insert_eq. by eexists. }
      rewrite (bind_Throw _ _ _ _ Hrun). unfold strong_guarantee, unchanged.
      rewrite Hvs3, Hls3, Hm3, Hvsa, Hlsa, Hma, Hvs1, Hls1, Hm1.
      split_and!; [done|by apply take_app_length|].
      simpl. by rewrite delete_insert_eq, delete_id.
  - (* room left *)
    destruct (is_vector_block _ _ _ _ _ Hv) as (b & -> & Hb); [lia|].
    rewrite bind_assoc, (RawMemory_plus_bind _ _ _ _ _ Hraw) by (simpl; lia). simpl.
    pose proof (construct_at_cases s b n _ args Hb) as Hcons.
    rewrite length_layout in Hcons by done.
    unfold bind at 1.
    destruct (construct_at (Ptr b n) args s) as [[] s1|s1|]; [| |apply Hcons; lia].
    + destruct Hcons as (Hb1 & Hfr1 & Hq1); [lia|].
      rewrite layout_raw in Hb1 by (fold n; lia).
      rewrite insert_middle_at in Hb1 by (by rewrite length_fmap).
      apply (Hfinish s1 (Ptr b 0) cap); [done| | |lia|].
      * by rewrite (frame2_raw_at _ _ _ _ _ Hfr1).
      * by rewrite (frame2_size_at _ _ _ _ _ Hfr1).
      * simpl. rewrite Hb1. f_equal. rewrite layout_snoc by (fold n; lia). done.
    + apply Hcons. lia.
Qed.




(** ** Element access and iterators *)

Lemma is_vector_slot s this buf xs cap i (v : T) :
  is_vector s this buf xs cap → xs !! i = Some v →
  slot_of s (ptr_add buf i) = Some (Some v).
Proof.
  intros Hv Hi. pose proof (lookup_lt_Some _ _ _ Hi) as Hlt.
  destruct Hv as (_ & Hle & Hblk).
  destruct buf as [|b [|o]]; simpl in Hblk.
  - assert (layout xs cap = []) as Hnil by congruence.
    apply layout_nil_inv in Hnil as [-> _]. simpl in Hlt. lia.
  - simpl. rewrite Hblk. simpl. unfold layout.
    rewrite lookup_app_l by (rewrite length_fmap; lia).
    by rewrite list_lookup_fmap, Hi.
  - done.
Qed.

Lemma is_vector_null s this xs cap : is_vector s this Null xs cap → xs = [] ∧ cap = 0.
Proof.
  intros (_ & Hle & Hblk). simpl in Hblk.
  assert (layout xs cap = []) as Hnil by congruence.
  apply layout_nil_inv in Hnil as [-> Hc]. simpl in Hc. split; [done|lia].
Qed.

(** X1: [operator[]] with an index below the size returns the address
    [begin() + index], where the element of that index lives; with an
    index at or above the size its assertion fails, whatever the
    capacity. *)
Theorem index_is_checked_against_size s this buf xs cap i :
  is_vector s this buf xs cap →
  (∀ v, xs !! i = Some v →
        Vector_index this i s = Ret (ptr_add buf i) s
        ∧ load (ptr_add buf i) s = Ret v s)
  ∧ (length xs ≤ i → Vector_index this i s = Undef).
Proof.
  intros Hv. pose proof (is_vector_raw_at _ _ _ _ _ Hv) as Hr.
  pose proof (is_vector_size_at _ _ _ _ _ Hv) as Hs.
  pose proof Hv as (_ & Hle & _). split.
  - intros v Hi. pose proof (lookup_lt_Some _ _ _ Hi) as Hlt. split.
    + unfold Vector_index. rewrite (get_size_bind _ _ _ _ Hs).
      rewrite decide_True by done.
      by rewrite (RawMemory_index_Ret _ _ _ _ Hr) by (simpl; lia).
    + unfold load.
      rewrite (get_slot_bind _ _ _ _ (is_vector_slot _ _ _ _ _ _ _ Hv Hi)). done.
  - intros Hge. unfold Vector_index. rewrite (get_size_bind _ _ _ _ Hs).
    rewrite decide_False by lia. done.
Qed.

(** X2: [begin()] is the buffer and [end()] is [begin() + Size()]; the
    constant iterators are the same pointers; [end() - begin()] is the
    size, the two are equal exactly for an empty vector, and every
    position in between holds the element of its index. *)
Theorem iterators_delimit_the_elements s this buf xs cap :
  is_vector s this buf xs cap →
  begin this s = Ret buf s
  ∧ end_ this s = Ret (ptr_add buf (length xs)) s
  ∧ cbegin this s = begin this s ∧ cend this s = end_ this s
  ∧ Size this s = Ret (length xs) s ∧ Capacity this s = Ret cap s
  ∧ ptr_diff (ptr_add buf (length xs)) buf = Some (length xs)
  ∧ (ptr_add buf (length xs) = buf ↔ xs = [])
  ∧ (∀ i v, xs !! i = Some v → load (ptr_add buf i) s = Ret v s).
Proof.
  intros Hv. pose proof (is_vector_raw_at _ _ _ _ _ Hv) as Hr.
  pose proof (is_vector_size_at _ _ _ _ _ Hv) as Hs.
  pose proof Hv as (_ & Hle & Hblk).
  split_and!.
  - unfold begin, GetAddress. by rewrite (get_raw_bind _ _ _ _ Hr).
  - unfold end_. rewrite (get_size_bind _ _ _ _ Hs).
    unfold RawMemory_plus. rewrite (get_raw_bind _ _ _ _ Hr).
    by rewrite decide_True.
  - done.
  - done.
  - unfold Size, get_size. by rewrite Hs.
  - unfold Capacity, RawMemory_Capacity. by rewrite (get_raw_bind _ _ _ _ Hr).
  - destruct buf as [|b o].
    + apply is_vector_null in Hv as [-> _]. done.
    + simpl. rewrite decide_True by (split; [done|lia]). f_equal. lia.
  - destruct buf as [|b o].
    + apply is_vector_null in Hv as [-> _]. done.
    + simpl. split.
      * intros [= Ho]. apply length_zero_iff_nil. lia.
      * intros ->. simpl. f_equal. lia.
  - intros i v Hi. unfold load.
    rewrite (get_slot_bind _ _ _ _ (is_vector_slot _ _ _ _ _ _ _ Hv Hi)). done.
Qed.

(** ** Removing the last element *)

Lemma vecs_put_size_ne s this v n : v ≠ this → vecs (put_size this n s) !! v = vecs s !! v.
Proof. intros Hne. simpl. by rewrite lookup_alter_ne. Qed.

Lemma PopBack_frame s this buf xs (v : T) cap :
  is_vector s this buf (xs ++ [v]) cap →
  ∃ s', PopBack this s = Ret () s'
        ∧ is_vector s' this buf xs cap
        ∧ trace s' = trace s ++ [EvDtor v]
        ∧ locals s' = locals s
        ∧ (∀ w, w ≠ this → vecs s' !! w = vecs s !! w)
        ∧ (∀ b, buf ≠ Ptr b 0 → mem s' !! b = mem s !! b).
Proof.
  intros Hv.
  pose proof (is_vector_raw_at _ _ _ _ _ Hv) as Hraw.
  pose proof (is_vector_size_at _ _ _ _ _ Hv) as Hsize.
  pose proof Hv as (_ & Hle & _). rewrite length_app in Hle, Hsize. simpl in Hle, Hsize.
  destruct (is_vector_block _ _ _ _ _ Hv) as (b & -> & Hb); [lia|].
  destruct (PopBack_Ret s this _ xs v cap Hv) as (s' & Hrun & Hv' & Htr).
  assert (∃ s1 n, frame2 s s1 b b ∧ s' = put_size this n s1) as (s1 & n & Hfr & ->).
  { revert Hrun. unfold PopBack.
    rewrite (get_size_bind _ _ _ _ Hsize).
    rewrite (RawMemory_plus_bind _ _ _ _ _ Hraw) by (simpl; lia).
    simpl. replace (length xs + 1) with (S (length xs)) by lia. simpl. rewrite bind_ret.
    rewrite layout_snoc in Hb by lia.
    destruct (destroy_at_Ret s b (length xs) _ v Hb) as (s1 & Hrun & _ & _ & Hfr).
    { rewrite <- (length_fmap Some xs). by apply list_lookup_middle. }
    rewrite (bind_Ret _ _ _ _ _ Hrun).
    erewrite set_size_Ret by (by rewrite (frame2_size_at _ _ _ _ _ Hfr)).
    intros [= <-]. eauto. }
  destruct Hfr as (Hvs & Hls & Hm).
  eexists. split_and!; [done..| | |].
  - done.
  - intros w Hw. by rewrite vecs_put_size_ne, Hvs.
  - intros b0 Hb0. simpl. apply Hm; congruence.
Qed.

(** X3: on a vector that ends with [v], [PopBack] destroys exactly [v]
    and keeps the buffer, the capacity and the other elements; the other
    vectors and the other blocks are as before.  On an empty vector it
    has no defined behaviour: there is no element before [data_ + 0]. *)
Theorem PopBack_removes_the_last_element s this buf xs cap :
  is_vector s this buf xs cap →
  (xs = [] → PopBack this s = Undef)
  ∧ (∀ ys v, xs = ys ++ [v] →
       ∃ s', PopBack this s = Ret () s'
             ∧ is_vector s' this buf ys cap
             ∧ trace s' = trace s ++ [EvDtor v]
             ∧ locals s' = locals s
             ∧ (∀ w, w ≠ this → vecs s' !! w = vecs s !! w)
             ∧ (∀ b, buf ≠ Ptr b 0 → mem s' !! b = mem s !! b)).
Proof.
  intros Hv. split.
  - intros ->. pose proof (is_vector_raw_at _ _ _ _ _ Hv) as Hr.
    pose proof (is_vector_size_at _ _ _ _ _ Hv) as Hs.
    unfold PopBack. rewrite (get_size_bind _ _ _ _ Hs).
    rewrite (RawMemory_plus_bind _ _ _ _ _ Hr) by (simpl; lia).
    pose proof (is_vector_offset_0 _ _ _ _ _ Hv) as H0.
    destruct buf as [|b o]; [done|]. rewrite (H0 b o eq_refl). done.
  - intros ys v ->. by apply PopBack_frame.
Qed.

(** ** Exchanging two vectors *)

Lemma state_eq s s' :
  vecs s' = vecs s → locals s' = locals s → mem s' = mem s → trace s' = trace s → s' = s.
Proof. destruct s, s'. simpl. by intros -> -> -> ->. Qed.

(** X4: [Swap] exchanges the two objects without touching memory; it is
    symmetric in its two arguments, swapping twice gives back the state
    one started from, and swapping a vector with itself, as the move
    assignment [v = std::move(v)] does, changes nothing. *)
Theorem Swap_is_symmetric_and_involutive s a b :
  is_Some (vecs s !! a) → is_Some (vecs s !! b) →
  Swap a b s = Swap b a s
  ∧ (Swap a b ;;; Swap a b) s = Ret () s
  ∧ Swap a a s = Ret () s
  ∧ Vector_assign_move a a s = Ret () s.
Proof.
  intros [va Ha] [vb Hb].
  destruct (Swap_Ret s a b va vb Ha Hb) as (s1 & Hr1 & Ha1 & Hb1 & Hf1 & Hl1 & Hm1 & Ht1).
  destruct (Swap_Ret s b a vb va Hb Ha) as (s2 & Hr2 & Hb2 & Ha2 & Hf2 & Hl2 & Hm2 & Ht2).
  destruct (Swap_Ret s1 a b _ _ Ha1 Hb1) as (s3 & Hr3 & Ha3 & Hb3 & Hf3 & Hl3 & Hm3 & Ht3).
  destruct (Swap_Ret s a a va va Ha Ha) as (s4 & Hr4 & Ha4 & _ & Hf4 & Hl4 & Hm4 & Ht4).
  assert (Hself : Swap a a s = Ret () s).
  { rewrite Hr4. f_equal. apply state_eq; [|congruence..].
    apply map_eq. intros v. destruct (decide (v = a)) as [->|Hna]; [congruence|].
    by rewrite Hf4. }
  split_and!; [| |done|done].
  - rewrite Hr1, Hr2. f_equal. apply state_eq; [|congruence..].
    apply map_eq. intros v.
    destruct (decide (v = a)) as [->|Hna].
    { destruct (decide (a = b)) as [->|]; congruence. }
    destruct (decide (v = b)) as [->|Hnb]; [congruence|].
    by rewrite Hf1, Hf2.
  - rewrite (bind_Ret _ _ _ _ _ Hr1), Hr3. f_equal. apply state_eq; [|congruence..].
    apply map_eq. intros v.
    destruct (decide (v = a)) as [->|Hna].
    { destruct (decide (a = b)) as [->|]; congruence. }
    destruct (decide (v = b)) as [->|Hnb]; [congruence|].
    by rewrite Hf3, Hf1.
Qed.

(** ** Destruction and move construction *)

Lemma RawMemory_dtor_trace s r old :
  raw_at s r = Some old → can_free s (buffer_ old) →
  ∃ s', RawMemory_dtor r s = Ret () s'
        ∧ vecs s' = vecs s ∧ locals s' = locals s
        ∧ mem s' = freed (buffer_ old) (mem s)
        ∧ trace s' = trace s ++ match buffer_ old with
                                | Ptr b _ => [EvDelete b]
                                | Null => []
                                end.
Proof.
  intros Hr Hfree. unfold RawMemory_dtor. rewrite (get_raw_bind _ _ _ _ Hr).
  unfold Deallocate, operator_delete.
  destruct (buffer_ old) as [|b [|o]]; simpl in *; [| |done].
  - exists s. by rewrite app_nil_r.
  - destruct Hfree as [sl ->]. eexists. by split_and!.
Qed.

Lemma freed_ext (buf : ptr) (m1 m2 : gmap nat (list (option T))) :
  (∀ b, buf ≠ Ptr b 0 → m1 !! b = m2 !! b) →
  (∀ b o, buf = Ptr b o → o = 0) →
  buf ≠ Null →
  freed buf m1 = freed buf m2.
Proof.
  intros Hext H0 Hnn. destruct buf as [|b o]; [done|]. simpl.
  rewrite (H0 b o eq_refl) in Hext.
  apply map_eq. intros k. destruct (decide (k = b)) as [->|Hk].
  - by rewrite !lookup_delete_eq.
  - rewrite !lookup_delete_ne by done. apply Hext. congruence.
Qed.

Lemma Vector_dtor_Ret s this buf xs cap :
  is_vector s this buf xs cap →
  ∃ s', Vector_dtor this s = Ret () s'
        ∧ mem s' = freed buf (mem s)
        ∧ trace s' = trace s ++ (EvDtor <$> xs)
                       ++ match buf with Ptr b _ => [EvDelete b] | Null => [] end
        ∧ vecs s' = vecs s ∧ locals s' = locals s.
Proof.
  intros Hv. pose proof (is_vector_raw_at _ _ _ _ _ Hv) as Hr.
  pose proof (is_vector_size_at _ _ _ _ _ Hv) as Hs.
  unfold Vector_dtor.
  rewrite (GetAddress_bind _ _ _ _ Hr), (get_size_bind _ _ _ _ Hs). simpl.
  destruct (destroy_all_Ret _ _ _ _ _ Hv) as (s1 & a & Hrun & Hfree & Htr & Hvs & Hls & Hfr).
  rewrite (bind_Ret _ _ _ _ _ Hrun).
  destruct (RawMemory_dtor_trace s1 (DataOf this) (mkRawMemory buf cap))
    as (s2 & Hrun2 & Hvs2 & Hls2 & Hm2 & Htr2).
  { simpl. rewrite Hvs. apply Hr. }
  { done. }
  exists s2. split_and!; [done| | |congruence|congruence].
  - rewrite Hm2. simpl. destruct (decide (buf = Null)) as [->|Hnn].
    + simpl. apply map_eq. intros b. by apply Hfr.
    + apply freed_ext; [done| |done]. by eapply is_vector_offset_0.
  - rewrite Htr2, Htr. simpl. by rewrite <- app_assoc.
Qed.

(** X5: the destructor of a vector destroys its elements, first to last,
    each one once, and then frees the buffer: the block is gone from
    memory and nothing else is touched.  An empty vector without a buffer
    records no event at all. *)
Theorem destructor_destroys_elements_and_frees_buffer s this buf xs cap :
  is_vector s this buf xs cap →
  ∃ s', Vector_dtor this s = Ret () s'
        ∧ mem s' = freed buf (mem s)
        ∧ trace s' = trace s ++ (EvDtor <$> xs)
                       ++ match buf with Ptr b _ => [EvDelete b] | Null => [] end
        ∧ vecs s' = vecs s ∧ locals s' = locals s
        ∧ (buf = Null → s' = s).
Proof.
  intros Hv. destruct (Vector_dtor_Ret _ _ _ _ _ Hv) as (s' & Hrun & Hm & Htr & Hvs & Hls).
  exists s'. split_and!; [done..|].
  intros ->. apply is_vector_null in Hv as [-> _]. simpl in *.
  rewrite app_nil_r in Htr. by apply state_eq.
Qed.

Lemma Vector_ctor_move_Ret s this other buf xs cap :
  is_vector s other buf xs cap → is_Some (vecs s !! this) → this ≠ other →
  ∃ s', Vector_ctor_move this other s = Ret () s'
        ∧ is_vector s' this buf xs cap
        ∧ is_vector s' other Null [] 0
        ∧ mem s' = mem s ∧ trace s' = trace s
        ∧ (∀ w, w ≠ this → w ≠ other → vecs s' !! w = vecs s !! w).
Proof.
  intros Hv [[x n0] Hthis] Hne.
  pose proof (is_vector_raw_at _ _ _ _ _ Hv) as Hr.
  pose proof (is_vector_size_at _ _ _ _ _ Hv) as Hs.
  apply vec_lookup_split in Hthis as [Hx Hn0].
  unfold Vector_ctor_move, RawMemory_ctor_move, RawMemory_ctor_default.
  rewrite !bind_assoc. rewrite (set_raw_bind _ _ _ _ _ Hx).
  set (s0 := put_raw (DataOf this) (mkRawMemory Null 0) s).
  destruct (RawMemory_Swap_Ret s0 (DataOf this) (DataOf other) (mkRawMemory Null 0)
              (mkRawMemory buf cap))
    as (s1 & Hrun & Hthis1 & Hother1 & Hfr & Hsz & _ & Hmem & Htr).
  { unfold s0. by rewrite raw_at_put_same, Hx. }
  { unfold s0. rewrite raw_at_put_ne by congruence. done. }
  rewrite decide_False in Hother1 by congruence.
  rewrite (bind_Ret _ _ _ _ _ Hrun).
  assert (Hs1 : size_at s1 other = Some (length xs))
    by (by rewrite Hsz; unfold s0; rewrite size_at_put_raw).
  assert (Hs1' : size_at s1 this = Some n0)
    by (by rewrite Hsz; unfold s0; rewrite size_at_put_raw).
  rewrite (get_size_bind _ _ _ _ Hs1). rewrite (set_size_bind _ _ _ _ _ Hs1).
  erewrite set_size_Ret by (rewrite size_at_put_ne by done; apply Hs1').
  eexists. split; [done|]. split_and!.
  - apply is_vector_intro.
    + by rewrite !raw_at_put_size.
    + by rewrite size_at_put_same, size_at_put_ne, Hs1'.
    + by destruct Hv as (_ & ? & _).
    + destruct Hv as (_ & _ & Hblk). rewrite <- Hblk. apply block_of_mem.
      simpl. by rewrite Hmem.
  - apply is_vector_intro.
    + by rewrite !raw_at_put_size.
    + by rewrite size_at_put_ne, size_at_put_same, Hs1.
    + done.
    + done.
  - simpl. by rewrite Hmem.
  - simpl. by rewrite Htr.
  - intros w Hw1 Hw2. rewrite !vecs_put_size_ne by done.
    apply vec_lookup_ext.
    + rewrite Hfr by congruence. unfold s0. rewrite raw_at_put_ne by congruence. done.
    + rewrite Hsz. unfold s0. by rewrite size_at_put_raw.
Qed.

(** X6: move construction hands the buffer, the capacity and the
    elements of the source to the new vector and leaves the source as an
    empty vector without a buffer; no element is touched and nothing is
    allocated.  Destroying the source afterwards does nothing. *)
Theorem move_construction_empties_the_source s this other buf xs cap :
  is_vector s other buf xs cap → is_Some (vecs s !! this) → this ≠ other →
  ∃ s', Vector_ctor_move this other s = Ret () s'
        ∧ is_vector s' this buf xs cap
        ∧ is_vector s' other Null [] 0
        ∧ mem s' = mem s ∧ trace s' = trace s
        ∧ (∀ w, w ≠ this → w ≠ other → vecs s' !! w = vecs s !! w)
        ∧ Vector_dtor other s' = Ret () s'.
Proof.
  intros Hv Hthis Hne.
  destruct (Vector_ctor_move_Ret _ _ _ _ _ _ Hv Hthis Hne)
    as (s' & Hrun & Hv1 & Hv2 & Hm & Htr & Hfr).
  exists s'. split_and!; [done..|].
  destruct (Vector_dtor_Ret _ _ _ _ _ Hv2) as (s2 & Hrun2 & Hm2 & Htr2 & Hvs2 & Hls2).
  rewrite Hrun2. f_equal. simpl in *. rewrite app_nil_r in Htr2. by apply state_eq.
Qed.

(** ** Construction with a size *)



(** [RawMemory(capacity)]: no allocation for a capacity of zero, a fresh
    block of raw slots otherwise, unless [operator new] throws. *)
Lemma RawMemory_ctor_cases s r old n :
  raw_at s r = Some old →
  match RawMemory_ctor r n s with
  | Ret _ s' =>
      ∃ buf s0, s' = put_raw r (mkRawMemory buf n) s0
        ∧ vecs s0 = vecs s ∧ locals s0 = locals s
        ∧ ((n = 0 ∧ buf = Null ∧ s0 = s)
           ∨ (n ≠ 0 ∧ ∃ b, buf = Ptr b 0 ∧ mem s !! b = None
                          ∧ mem s0 = <[b := replicate n None]> (mem s)
                          ∧ trace s0 = trace s ++ [EvNew n]))
  | Throw s' => unchanged s s' ∧ n ≠ 0 ∧ ¬ NeverThrows
  | Undef => False
  end.
Proof.
  intros Hr. unfold RawMemory_ctor, Allocate.
  destruct (decide (n = 0)) as [->|Hn].
  - rewrite decide_False by (intros H; by apply H). rewrite bind_ret.
    rewrite set_raw_Ret by eauto. exists Null, s. split_and!; [done..|]. by left.
  - rewrite decide_True by done. unfold operator_new, attempt.
    unfold bind at 1. unfold bind at 1.
    destruct (throws (trace s) (EvNew n)) eqn:Hth.
    + split_and!; [done..|]. intros Hnt. by rewrite Hnt in Hth.
    + rewrite set_raw_Ret by (destruct r; simpl; eauto).
      eexists _, _. split_and!; [done..|]. right. split; [done|].
      eexists. split_and!; [done|exact (fresh_block_None s)|done..].
Qed.

Lemma layout_full (xs : list T) : layout xs (length xs) = Some <$> xs.
Proof. unfold layout. by rewrite Nat.sub_diag, app_nil_r. Qed.

Lemma vecs_put_raw_ne s w v x : w ≠ v → vecs (put_raw (DataOf v) x s) !! w = vecs s !! w.
Proof. intros Hne. simpl. by rewrite lookup_alter_ne. Qed.




(** ** Copy construction *)

Lemma uninitialized_copy_n_no_throw (Hnt : NeverThrows) first n d s s' :
  uninitialized_copy_n first n d s ≠ Throw s'.
Proof.
  revert first d s s'. induction n as [|n IH]; intros first d s s'; [done|].
  cbn [uninitialized_copy_n]. unfold bind at 1.
  destruct (copy_construct d first s) as [[] s1|s1|] eqn:Hc; [| |done].
  - unfold on_throw, try_catch.
    destruct (uninitialized_copy_n (ptr_add first 1) n (ptr_add d 1) s1) eqn:Hu; [done| |done].
    by apply IH in Hu.
  - exfalso. revert Hc.
    unfold copy_construct, load, construct_at, run_ctor, get_slot, put_slot, attempt,
      bind, from_option, ret, undef.
    repeat case_match; try congruence;
      match goal with H : throws _ _ = true |- _ => by rewrite Hnt in H end.
Qed.

Lemma Vector_ctor_copy_cases s this other bufo xs cap :
  is_vector s other bufo xs cap → is_Some (vecs s !! this) → this ≠ other →
  match Vector_ctor_copy this other s with
  | Ret _ s' =>
      ∃ buf, is_vector s' this buf xs (length xs)
             ∧ is_vector s' other bufo xs cap
             ∧ (xs = [] → buf = Null ∧ mem s' = mem s ∧ trace s' = trace s)
             ∧ (∀ b, buf = Ptr b 0 → mem s !! b = None)
             ∧ (∀ b, buf ≠ Ptr b 0 → mem s' !! b = mem s !! b)
             ∧ (∀ w, w ≠ this → vecs s' !! w = vecs s !! w)
             ∧ locals s' = locals s
             ∧ quiet s s'
  | Throw s' => mem s' = mem s ∧ locals s' = locals s
                ∧ (∀ w, w ≠ this → vecs s' !! w = vecs s !! w)
                ∧ ¬ NeverThrows
  | Undef => False
  end.
Proof.
  intros Hv [[x n0] Hthis] Hne. apply vec_lookup_split in Hthis as [Hx Hn0].
  pose proof (is_vector_raw_at _ _ _ _ _ Hv) as Hro.
  pose proof (is_vector_size_at _ _ _ _ _ Hv) as Hso.
  pose proof Hv as (_ & Hle & _).
  unfold Vector_ctor_copy. rewrite (get_size_bind _ _ _ _ Hso).
  set (n := length xs) in *.
  pose proof (RawMemory_ctor_cases s (DataOf this) x n Hx) as Hc.
  unfold bind at 1.
  destruct (RawMemory_ctor (DataOf this) n s) as [[] s1|s1|]; [| |done].
  2:{ destruct Hc as ((Hvs & Hls & Hm) & _ & Hth). split_and!; [done..| |done].
      intros w _. by rewrite Hvs. }
  destruct Hc as (buf & s0 & -> & Hvs0 & Hls0 & Hc).
  assert (Hx0 : raw_at s0 (DataOf this) = Some x) by (simpl; rewrite Hvs0; apply Hx).
  assert (Hn00 : size_at s0 this = Some n0) by (unfold size_at; rewrite Hvs0; apply Hn0).
  assert (Hso0 : size_at s0 other = Some n) by (unfold size_at; rewrite Hvs0; apply Hso).
  assert (Hro0 : raw_at s0 (DataOf other) = Some (mkRawMemory bufo cap))
    by (simpl; rewrite Hvs0; apply Hro).
  rewrite (get_size_bind _ _ n) by (by rewrite size_at_put_raw).
  rewrite (set_size_bind _ _ _ n0) by (by rewrite size_at_put_raw).
  set (s2 := put_size this n (put_raw (DataOf this) (mkRawMemory buf n) s0)).
  assert (Hr2 : raw_at s2 (DataOf this) = Some (mkRawMemory buf n)).
  { unfold s2. by rewrite raw_at_put_size, raw_at_put_same, Hx0. }
  assert (Hs2 : size_at s2 this = Some n).
  { unfold s2. by rewrite size_at_put_same, size_at_put_raw, Hn00. }
  assert (Hro2 : raw_at s2 (DataOf other) = Some (mkRawMemory bufo cap)).
  { unfold s2. rewrite raw_at_put_size, raw_at_put_ne by congruence. done. }
  assert (Hso2 : size_at s2 other = Some n).
  { unfold s2. rewrite size_at_put_ne, size_at_put_raw by done. done. }
  assert (Hm2 : mem s2 = mem s0) by done.
  assert (Ht2 : trace s2 = trace s0) by done.
  assert (Hl2 : locals s2 = locals s) by done.
  assert (Hw2 : ∀ w, w ≠ this → vecs s2 !! w = vecs s !! w).
  { intros w Hw. unfold s2. by rewrite vecs_put_size_ne, vecs_put_raw_ne, Hvs0. }
  unfold on_throw, try_catch.
  rewrite (GetAddress_bind _ _ _ _ Hro2), (get_size_bind _ _ _ _ Hso2).
  rewrite (GetAddress_bind _ _ _ _ Hr2). simpl buffer_.
  destruct Hc as [(Hn & -> & ->)|(Hn & b & -> & Hfresh & Hm0 & Ht0)].
  - rewrite Hn. simpl. subst n. apply length_zero_iff_nil in Hn as ->.
    exists Null. split_and!; [| |done..|by apply quiet_same_trace].
    + by apply is_vector_intro.
    + eapply is_vector_frame; [done| |done]. by apply Hw2.
  - destruct (is_vector_block _ _ _ _ _ Hv) as (bo & -> & Hbo); [lia|].
    assert (Hbne : bo ≠ b) by congruence.
    assert (Hbo2 : mem s2 !! bo
                   = Some ([] ++ (Some <$> xs) ++ replicate (cap - length xs) None)).
    { by rewrite Hm2, Hm0, lookup_insert_ne. }
    assert (Hb2 : mem s2 !! b = Some ([] ++ replicate n None ++ [])).
    { rewrite Hm2, Hm0, lookup_insert_eq. simpl. by rewrite app_nil_r. }
    pose proof (uninitialized_copy_n_cases s2 bo 0 [] xs _ b 0 [] _ [] Hbne eq_refl eq_refl
                  (length_replicate _ _) Hbo2 Hb2) as Hu.
    fold n in Hu. unfold bind at 1.
    destruct (uninitialized_copy_n (Ptr bo 0) n (Ptr b 0) s2) as [a s3|s3|] eqn:Hrun;
      [| |done].
    + destruct Hu as (Hbo3 & Hb3 & (Hvs3 & Hls3 & Hfr3) & Hq3). simpl in Hb3.
      rewrite app_nil_r in Hb3. unfold ret.
      exists (Ptr b 0). split_and!.
      * split_and!; [|done|].
        -- rewrite Hvs3. apply vec_lookup_split. done.
        -- simpl. unfold n. by rewrite Hb3, layout_full.
      * eapply is_vector_frame; [done|by rewrite Hvs3; apply Hw2|].
        intros b0 [= <-]. by rewrite Hbo3, Hbo.
      * intros ->. done.
      * intros b0 [= <-]. done.
      * intros b0 Hb0. destruct (decide (b0 = bo)) as [->|Hb0'].
        -- by rewrite Hbo3, Hbo.
        -- rewrite Hfr3 by congruence.
           rewrite Hm2, Hm0, lookup_insert_ne by congruence. done.
      * intros w Hw. rewrite Hvs3. by apply Hw2.
      * by rewrite Hls3.
      * eapply quiet_trans; [|done]. apply quiet_events with [EvNew n]; [|by constructor].
        by rewrite Ht2, Ht0.
    + destruct Hu as (Hbo3 & (raw' & Hraw' & Hb3) & (Hvs3 & Hls3 & Hfr3)).
      destruct (RawMemory_dtor_trace s3 (DataOf this) (mkRawMemory (Ptr b 0) n))
        as (s4 & Hrun4 & Hvs4 & Hls4 & Hm4 & _).
      { simpl. rewrite Hvs3. apply Hr2. }
      { simpl. by rewrite Hb3. }
      rewrite (bind_Ret _ _ _ _ _ Hrun4). unfold rethrow.
      split_and!.
      * rewrite Hm4. simpl. apply delete_fresh_frame; [done|].
        intros k Hk. destruct (decide (k = bo)) as [->|Hk'].
        -- by rewrite Hbo3, Hbo.
        -- rewrite Hfr3 by done. by rewrite Hm2, Hm0, lookup_insert_ne.
      * by rewrite Hls4, Hls3.
      * intros w Hw. rewrite Hvs4, Hvs3. by apply Hw2.
      * intros Hnt. by apply (uninitialized_copy_n_no_throw Hnt) in Hrun.
Qed.

Lemma freed_fresh_frame (buf : ptr) (m m2 : gmap nat (list (option T))) :
  (∀ b, buf = Ptr b 0 → m !! b = None) →
  (∀ b, buf ≠ Ptr b 0 → m2 !! b = m !! b) →
  (∀ b o, buf = Ptr b o → o = 0) →
  freed buf m2 = m.
Proof.
  intros Hfresh Hfr H0. destruct buf as [|b o]; simpl.
  - apply map_eq. intros k. by apply Hfr.
  - rewrite (H0 b o eq_refl) in *. apply delete_fresh_frame; [by apply Hfresh|].
    intros k Hk. apply Hfr. congruence.
Qed.

(** X9: when nothing throws, the copy constructor gives a vector with
    the elements of the source in a block of its own, and its capacity is
    the size of the source, not the capacity of the source.  The source
    is as before.  The copy owns all it allocated: destroying it gives
    back the memory one started from. *)
Theorem copy_construction_is_deep_and_tight (Hnt : NeverThrows) s this other bufo xs cap :
  is_vector s other bufo xs cap → is_Some (vecs s !! this) → this ≠ other →
  ∃ s' buf,
    Vector_ctor_copy this other s = Ret () s'
    ∧ is_vector s' this buf xs (length xs)
    ∧ is_vector s' other bufo xs cap
    ∧ (xs = [] → buf = Null ∧ mem s' = mem s ∧ trace s' = trace s)
    ∧ (∀ b, buf = Ptr b 0 → mem s !! b = None)
    ∧ (∀ b, buf ≠ Ptr b 0 → mem s' !! b = mem s !! b)
    ∧ (∀ w, w ≠ this → vecs s' !! w = vecs s !! w)
    ∧ ∃ s'', Vector_dtor this s' = Ret () s'' ∧ mem s'' = mem s
             ∧ is_vector s'' other bufo xs cap.
Proof.
  intros Hv Hthis Hne.
  pose proof (Vector_ctor_copy_cases s this other bufo xs cap Hv Hthis Hne) as Hc.
  destruct (Vector_ctor_copy this other s) as [[] s'|s'|]; [| |done].
  2:{ by destruct Hc as (_ & _ & _ & Hth). }
  destruct Hc as (buf & H1 & H2 & H3 & H4 & H5 & H6 & _).
  exists s', buf. split_and!; [done..|].
  destruct (Vector_dtor_Ret _ _ _ _ _ H1) as (s2 & Hrun & Hm & _ & Hvs & _).
  exists s2. split_and!; [done| |].
  - rewrite Hm. apply freed_fresh_frame; [done..|]. by eapply is_vector_offset_0.
  - eapply is_vector_frame; [apply H2|by rewrite Hvs|].
    intros b ->. rewrite Hm. destruct buf as [|b' o]; [done|]. simpl.
    destruct (decide (b = b')) as [->|Hb]; [|by rewrite lookup_delete_ne].
    rewrite (is_vector_offset_0 _ _ _ _ _ H1 b' o eq_refl) in H4.
    specialize (H4 b' eq_refl). destruct Hv as (_ & _ & Hblk). simpl in Hblk. congruence.
Qed.


(** ** Copy assignment *)

Lemma copy_assign_vecs d src s a s' : copy_assign d src s = Ret a s' → vecs s' = vecs s.
Proof.
  unfold copy_assign, load, get_slot, put_slot, attempt, bind, from_option, ret, undef.
  repeat case_match; intros Heq; by simplify_eq.
Qed.

Lemma copy_loop_vecs first n d s a s' : copy_loop first n d s = Ret a s' → vecs s' = vecs s.
Proof.
  revert first d s. induction n as [|n IH]; intros first d s; simpl.
  - intros H. by inversion H.
  - unfold bind at 1. destruct (copy_assign d first s) as [[] s1|s1|] eqn:Hc; [|done..].
    intros Hl. apply IH in Hl. apply copy_assign_vecs in Hc. congruence.
Qed.

Lemma std_copy_vecs first last d s a s' : std_copy first last d s = Ret a s' → vecs s' = vecs s.
Proof.
  unfold std_copy, bind, from_option. destruct (ptr_diff last first); [|done].
  simpl. apply copy_loop_vecs.
Qed.

Lemma RawMemory_plus_vecs v off s s' p s0 :
  RawMemory_plus (DataOf v) off s = Ret p s0 → vecs s' = vecs s →
  RawMemory_plus (DataOf v) off s' = Ret p s'.
Proof.
  unfold RawMemory_plus, get_raw, bind, from_option. simpl. intros H ->.
  destruct (data_ <$> vecs s !! v); [|done]. simpl in *.
  destruct (decide _); [|done]. unfold ret in *. congruence.
Qed.

Lemma GetAddress_vecs v s s' p s0 :
  GetAddress (DataOf v) s = Ret p s0 → vecs s' = vecs s →
  GetAddress (DataOf v) s' = Ret p s'.
Proof.
  unfold GetAddress, get_raw, bind, from_option. simpl. intros H ->.
  destruct (data_ <$> vecs s !! v); [|done]. simpl in *. unfold ret in *. congruence.
Qed.

Lemma bind_ext_Ret {R R'} (m : M R) (k1 k2 : R → M R') s :
  (∀ a s', m s = Ret a s' → k1 a s' = k2 a s') → bind m k1 s = bind m k2 s.
Proof. intros Hk. unfold bind. destruct (m s); [by apply Hk|done..]. Qed.

(** X11: the copy assignment of vector.h, which computes [copy_count]
    first, and the copy assignment of the earlier variant of the header
    behave alike on every state and for every element type: same
    outcome, same final memory, same trace. *)
Theorem copy_assignment_variants_agree this rhs s :
  Vector_assign_copy this rhs s = Vector_assign_copy_v0 this rhs s.
Proof.
  unfold Vector_assign_copy, Vector_assign_copy_v0.
  destruct (decide (this ≠ rhs)) as [Hne|]; [|done].
  apply bind_ext; intros rn s1. apply bind_ext; intros c s2.
  destruct (decide (c < rn)) as [|Hc]; [done|].
  apply bind_ext; intros n s3.
  destruct (decide (rn < n)) as [Hlt|Hge].
  - symmetry. rewrite !bind_assoc. apply bind_ext; intros first s4.
    rewrite !bind_assoc. apply bind_ext; intros last s5.
    rewrite !bind_assoc. apply bind_ext; intros d s6.
    rewrite !bind_assoc. apply bind_ext; intros _ s7.
    done.
  - symmetry. rewrite !bind_assoc. apply bind_ext; intros first s4.
    rewrite !bind_assoc. apply bind_ext_Ret; intros last s5 Hplus.
    rewrite !bind_assoc. apply bind_ext_Ret; intros d s6 Hget.
    rewrite !bind_assoc. apply bind_ext_Ret; intros a s7 Hcopy.
    destruct (decide (n < rn)) as [Hlt|Heq]; [by rewrite !bind_assoc|].
    assert (rn = n) as -> by lia. rewrite Nat.sub_diag.
    assert (s5 = s4) as ->.
    { revert Hplus. unfold RawMemory_plus, get_raw, bind, from_option, ret, undef.
      repeat case_match; congruence. }
    assert (s6 = s4) as ->.
    { revert Hget. unfold GetAddress, get_raw, bind, from_option, ret, undef.
      repeat case_match; congruence. }
    apply std_copy_vecs in Hcopy. rewrite !bind_assoc.
    rewrite (bind_Ret _ _ _ _ _ (RawMemory_plus_vecs _ _ _ s7 _ _ Hplus Hcopy)).
    rewrite !bind_assoc.
    rewrite (bind_Ret _ _ _ _ _ (GetAddress_vecs _ _ s7 _ _ Hget Hcopy)).
    done.
Qed.

Lemma copy_assign_Ret (Hnt : NeverThrows) s b1 o1 sl1 b2 o2 sl2 (v old : T) :
  b1 ≠ b2 →
  mem s !! b1 = Some sl1 → sl1 !! o1 = Some (Some v) →
  mem s !! b2 = Some sl2 → sl2 !! o2 = Some (Some old) →
  ∃ s', copy_assign (Ptr b2 o2) (Ptr b1 o1) s = Ret () s'
        ∧ mem s' !! b1 = Some sl1
        ∧ mem s' !! b2 = Some (<[o2 := Some v]> sl2)
        ∧ frame2 s s' b1 b2.
Proof.
  intros Hne H1 Ho1 H2 Ho2. unfold copy_assign.
  erewrite !load_bind by (erewrite slot_of_lookup; eauto).
  rewrite (bind_Ret _ _ _ _ _ (attempt_Ret Hnt _ _)).
  eexists. split.
  { apply put_slot_Ret; [done|]. by eapply lookup_lt_Some. }
  unfold frame2; simpl. rewrite lookup_insert_eq, lookup_insert_ne by done.
  split_and!; [done..|]. intros b ? ?. by rewrite lookup_insert_ne.
Qed.

(** Copy assignment of a range onto live objects of another block. *)
Lemma copy_loop_Ret (Hnt : NeverThrows) s n b1 o1 pre1 (xs : list T) post1
    b2 o2 pre2 (olds : list T) post2 :
  b1 ≠ b2 → o1 = length pre1 → o2 = length pre2 →
  n = length xs → length olds = length xs →
  mem s !! b1 = Some (pre1 ++ (Some <$> xs) ++ post1) →
  mem s !! b2 = Some (pre2 ++ (Some <$> olds) ++ post2) →
  ∃ s' a, copy_loop (Ptr b1 o1) n (Ptr b2 o2) s = Ret a s'
          ∧ mem s' !! b1 = Some (pre1 ++ (Some <$> xs) ++ post1)
          ∧ mem s' !! b2 = Some (pre2 ++ (Some <$> xs) ++ post2)
          ∧ frame2 s s' b1 b2.
Proof.
  intros Hne. revert s n o1 pre1 o2 pre2 olds.
  induction xs as [|v xs IH]; intros s n o1 pre1 o2 pre2 olds -> -> -> Hlen H1 H2.
  - destruct olds; [|done]. exists s. eexists. simpl.
    by split_and!; [..|apply frame2_refl].
  - destruct olds as [|w olds]; [done|]. simpl in Hlen.
    rewrite fmap_cons, <- app_comm_cons in H1, H2.
    destruct (copy_assign_Ret Hnt s b1 (length pre1) _ b2 (length pre2) _ v w Hne H1
                (list_lookup_middle _ _ _ _ eq_refl) H2
                (list_lookup_middle _ _ _ _ eq_refl))
      as (s1 & Hrun & H1' & H2' & Hfr1).
    rewrite insert_middle in H2'.
    destruct (IH s1 (length xs) (length pre1 + 1) (pre1 ++ [Some v])
                 (length pre2 + 1) (pre2 ++ [Some v]) olds)
      as (s2 & a & Hrun2 & H1'' & H2'' & Hfr2).
    { rewrite length_app. simpl. lia. }
    { rewrite length_app. simpl. lia. }
    { done. }
    { lia. }
    { by rewrite <- app_assoc. }
    { by rewrite <- app_assoc. }
    exists s2, a. cbn [length copy_loop]. rewrite (bind_Ret _ _ _ _ _ Hrun).
    split_and!.
    + done.
    + by rewrite H1'', <- app_assoc.
    + by rewrite H2'', <- app_assoc, fmap_cons.
    + by eapply frame2_trans.
Qed.

Lemma take_layout (xs : list T) cap k :
  k ≤ length xs → take k (layout xs cap) = Some <$> take k xs.
Proof.
  intros Hk. unfold layout. rewrite take_app_le by (by rewrite length_fmap).
  by rewrite fmap_take.
Qed.

Lemma drop_layout (xs : list T) cap k :
  k ≤ length xs →
  drop k (layout xs cap) = (Some <$> drop k xs) ++ replicate (cap - length xs) None.
Proof.
  intros Hk. unfold layout. rewrite drop_app_le by (by rewrite length_fmap).
  by rewrite fmap_drop.
Qed.

Lemma layout_split (xs : list T) cap k :
  k ≤ length xs → layout xs cap = (Some <$> take k xs) ++ drop k (layout xs cap).
Proof. intros Hk. by rewrite <- (take_layout xs cap), take_drop. Qed.

Lemma ptr_diff_add p k : (p = Null → k = 0) → ptr_diff (ptr_add p k) p = Some k.
Proof.
  destruct p as [|b o]; simpl.
  - intros Hk. by rewrite Hk.
  - intros _. rewrite decide_True by (split; [done|lia]). f_equal. lia.
Qed.

(** The first step of the in-place copy assignment: the first [k]
    elements of the source are assigned to the first [k] elements of the
    target. *)
Lemma assign_prefix_Ret (Hnt : NeverThrows) s this rhs buf xs cap bufr ys capr k :
  is_vector s this buf xs cap → is_vector s rhs bufr ys capr →
  (∀ b, buf = Ptr b 0 → bufr ≠ Ptr b 0) →
  k ≤ length xs → k ≤ length ys →
  ∃ s1 a, std_copy bufr (ptr_add bufr k) buf s = Ret a s1
          ∧ vecs s1 = vecs s ∧ locals s1 = locals s
          ∧ block_of s1 buf = Some ((Some <$> take k ys) ++ drop k (layout xs cap))
          ∧ (∀ b, buf ≠ Ptr b 0 → mem s1 !! b = mem s !! b).
Proof.
  intros Hv Hr Hdis Hkx Hky. unfold std_copy.
  pose proof Hv as (_ & Hle & Hblk). pose proof Hr as (_ & Hler & Hblkr).
  rewrite ptr_diff_add.
  2:{ intros ->. apply is_vector_null in Hr as [-> _]. simpl in Hky. lia. }
  cbn [from_option]. rewrite bind_ret.
  destruct (decide (k = 0)) as [->|Hk].
  - exists s. eexists. simpl. split_and!; done.
  - destruct (is_vector_block _ _ _ _ _ Hv) as (b & -> & Hb); [lia|].
    destruct (is_vector_block _ _ _ _ _ Hr) as (br & -> & Hbr); [lia|].
    assert (Hbne : br ≠ b) by (intros ->; by apply (Hdis b)).
    destruct (copy_loop_Ret Hnt s k br 0 [] (take k ys) (drop k (layout ys capr))
                b 0 [] (take k xs) (drop k (layout xs cap)))
      as (s1 & a & Hrun & Hbr1 & Hb1 & Hvs & Hls & Hfr); [done..| | | | |].
    { rewrite length_take. lia. }
    { rewrite !length_take. lia. }
    { simpl. by rewrite <- layout_split. }
    { simpl. by rewrite <- layout_split. }
    exists s1, a. split_and!; [done..| |].
    + simpl in *. by rewrite Hb1.
    + intros b0 Hb0. destruct (decide (b0 = br)) as [->|Hb0'].
      * rewrite Hbr1, Hbr. simpl. by rewrite <- layout_split.
      * apply Hfr; congruence.
Qed.
Lemma assign_copy_inplace_Ret (Hnt : NeverThrows) s this rhs buf xs cap bufr ys capr :
  is_vector s this buf xs cap → is_vector s rhs bufr ys capr → this ≠ rhs →
  (∀ b, buf = Ptr b 0 → bufr ≠ Ptr b 0) →
  length ys ≤ cap →
  ∃ s', Vector_assign_copy this rhs s = Ret () s'
        ∧ is_vector s' this buf ys cap
        ∧ is_vector s' rhs bufr ys capr
        ∧ (∀ w, w ≠ this → vecs s' !! w = vecs s !! w)
        ∧ locals s' = locals s
        ∧ (∀ b, buf ≠ Ptr b 0 → mem s' !! b = mem s !! b).
Proof.
  intros Hv Hr Hne Hdis Hfit.
  pose proof (is_vector_raw_at _ _ _ _ _ Hv) as Hraw.
  pose proof (is_vector_size_at _ _ _ _ _ Hv) as Hsize.
  pose proof (is_vector_raw_at _ _ _ _ _ Hr) as Hrawr.
  pose proof (is_vector_size_at _ _ _ _ _ Hr) as Hsizer.
  pose proof Hv as (_ & Hle & _). pose proof Hr as (_ & Hler & _).
  unfold Vector_assign_copy. rewrite decide_True by done.
  rewrite (get_size_bind _ _ _ _ Hsizer), (RawMemory_Capacity_bind _ _ _ _ Hraw).
  cbn [capacity_]. rewrite decide_False by lia.
  rewrite (get_size_bind _ _ _ _ Hsize).
  set (n := length xs) in *. set (rn := length ys) in *.
  set (cc := if decide (rn < n) then rn else n).
  assert (Hcc : cc ≤ n ∧ cc ≤ rn) by (unfold cc; case_decide; lia).
  cbn zeta.
  rewrite (GetAddress_bind _ _ _ _ Hrawr).
  rewrite (RawMemory_plus_bind _ _ _ _ _ Hrawr) by (simpl; lia).
  rewrite (GetAddress_bind _ _ _ _ Hraw). cbn [buffer_].
  destruct (assign_prefix_Ret Hnt s this rhs buf xs cap bufr ys capr cc Hv Hr Hdis)
    as (s1 & a & Hrun & Hvs1 & Hls1 & Hb1 & Hfr1); [lia..|].
  rewrite (bind_Ret _ _ _ _ _ Hrun).
  assert (Hraw1 : raw_at s1 (DataOf this) = Some (mkRawMemory buf cap))
    by (simpl; rewrite Hvs1; apply Hraw).
  assert (Hrawr1 : raw_at s1 (DataOf rhs) = Some (mkRawMemory bufr capr))
    by (simpl; rewrite Hvs1; apply Hrawr).
  assert (Hsize1 : size_at s1 this = Some n)
    by (unfold size_at; rewrite Hvs1; apply Hsize).
  assert (Hfinish : ∀ s2,
            vecs s2 = vecs s → locals s2 = locals s →
            block_of s2 buf = Some (layout ys cap) →
            (∀ b, buf ≠ Ptr b 0 → mem s2 !! b = mem s !! b) →
            is_vector (put_size this rn s2) this buf ys cap
            ∧ is_vector (put_size this rn s2) rhs bufr ys capr
            ∧ (∀ w, w ≠ this → vecs (put_size this rn s2) !! w = vecs s !! w)
            ∧ locals (put_size this rn s2) = locals s
            ∧ (∀ b, buf ≠ Ptr b 0 → mem (put_size this rn s2) !! b = mem s !! b)).
  { intros s2 Hvs2 Hls2 Hb2 Hfr2. split_and!; [| |..|done|done].
    - apply is_vector_intro; [| |done|done].
      + rewrite raw_at_put_size. simpl. rewrite Hvs2. apply Hraw.
      + rewrite size_at_put_same. unfold size_at. rewrite Hvs2.
        fold (size_at s this). by rewrite Hsize.
    - eapply is_vector_frame; [done| |].
      + by rewrite vecs_put_size_ne, Hvs2.
      + intros b ->. apply Hfr2. intros ->. by apply (Hdis b).
    - intros w Hw. by rewrite vecs_put_size_ne, Hvs2. }
  destruct (decide (rn < n)) as [Hlt|Hge].
  - (* the target is longer: destroy its tail *)
    assert (cc = rn) as Hcc' by (unfold cc; repeat case_decide; lia). rewrite Hcc' in *.
    rewrite !bind_assoc.
    rewrite (RawMemory_plus_bind _ _ _ _ _ Hraw1) by (simpl; lia). cbn [buffer_].
    destruct (is_vector_block _ _ _ _ _ Hv) as (b & -> & Hb); [lia|].
    simpl in Hb1. rewrite take_ge, drop_layout in Hb1 by (fold n; lia).
    destruct (destroy_n_Ret s1 b rn (Some <$> ys) (drop rn xs) _ (eq_sym (length_fmap _ _)) Hb1)
      as (s2 & Hrun2 & Hb2 & _ & Hvs2 & Hls2 & Hfr2).
    rewrite length_drop in Hrun2, Hb2. fold n in Hrun2, Hb2. simpl ptr_add.
    rewrite !bind_assoc, (bind_Ret _ _ _ _ _ Hrun2). rewrite bind_ret.
    eexists. split.
    { apply (set_size_Ret _ _ _ n). unfold size_at. rewrite Hvs2. apply Hsize1. }
    apply Hfinish; [congruence|congruence| |].
    + simpl. rewrite Hb2. f_equal. unfold layout. f_equal. fold rn.
      rewrite <- replicate_add. f_equal. lia.
    + intros b0 Hb0. rewrite Hfr2 by congruence. by apply Hfr1.
  - destruct (decide (n < rn)) as [Hlt|Heq].
    + (* the source is longer: construct the missing elements *)
      assert (cc = n) as Hcc' by (unfold cc; repeat case_decide; lia). rewrite Hcc' in *.
      rewrite !bind_assoc.
      rewrite (RawMemory_plus_bind _ _ _ _ _ Hrawr1) by (simpl; lia).
      cbn beta. rewrite !bind_assoc.
      rewrite (GetAddress_bind _ _ _ _ Hraw1). cbn [buffer_].
      destruct (is_vector_block _ _ _ _ _ Hv) as (b & -> & Hb); [lia|].
      destruct (is_vector_block _ _ _ _ _ Hr) as (br & -> & Hbr); [lia|].
      assert (Hbne : br ≠ b) by (intros ->; by apply (Hdis b)).
      simpl in Hb1. rewrite drop_layout, drop_ge in Hb1 by (fold n; lia).
      simpl in Hb1.
      assert (Hbr1 : mem s1 !! br
                     = Some ((Some <$> take n ys) ++ (Some <$> drop n ys)
                               ++ replicate (capr - rn) None)).
      { rewrite Hfr1 by congruence. rewrite Hbr. unfold layout.
        by rewrite app_assoc, <- fmap_app, take_drop. }
      assert (Hb1' : mem s1 !! b
                     = Some ((Some <$> take n ys) ++ replicate (rn - n) None
                               ++ replicate (cap - rn) None)).
      { rewrite Hb1. do 2 f_equal. rewrite <- replicate_add. f_equal. lia. }
      destruct (uninitialized_copy_n_Ret Hnt s1 br n (Some <$> take n ys) (drop n ys)
                  (replicate (capr - rn) None) b n (Some <$> take n ys)
                  (replicate (rn - n) None) (replicate (cap - rn) None) Hbne)
        as (s2 & a2 & Hrun2 & Hbr2 & Hb2 & Hvs2 & Hls2 & Hfr2); [| | |done|done|].
      { rewrite length_fmap, length_take. lia. }
      { rewrite length_fmap, length_take. lia. }
      { rewrite length_replicate, length_drop. done. }
      rewrite length_drop in Hrun2. fold rn in Hrun2. simpl ptr_add.
      rewrite !bind_assoc, (bind_Ret _ _ _ _ _ Hrun2). rewrite bind_ret.
      eexists. split.
      { apply (set_size_Ret _ _ _ n). unfold size_at. rewrite Hvs2. apply Hsize1. }
      apply Hfinish; [congruence|congruence| |].
      * simpl. rewrite Hb2. f_equal. unfold layout.
        by rewrite app_assoc, <- fmap_app, take_drop.
      * intros b0 Hb0. destruct (decide (b0 = br)) as [->|Hb0'].
        -- rewrite Hbr2, Hbr. unfold layout.
           by rewrite app_assoc, <- fmap_app, take_drop.
        -- rewrite Hfr2 by congruence. by apply Hfr1.
    + (* equal sizes *)
      assert (rn = n) as Hrn by lia.
      assert (cc = n) as Hcc' by (unfold cc; repeat case_decide; lia). rewrite Hcc' in *.
      rewrite bind_ret.
      eexists. split.
      { apply (set_size_Ret _ _ _ n). apply Hsize1. }
      apply Hfinish; [done|done| |done].
      rewrite Hb1. f_equal. rewrite take_ge, drop_layout, drop_ge by (fold n rn; lia).
      simpl. unfold layout. fold rn. by rewrite Hrn.
Qed.
Lemma quiet_Vector_dtor_events (xs : list T) (buf : ptr) :
  Forall (fun e : @event T A => is_throw e = false)
    ((EvDtor <$> xs) ++ match buf with Ptr b _ => [EvDelete b] | Null => [] end).
Proof.
  apply Forall_app. split.
  - apply Forall_fmap. by apply Forall_true.
  - destruct buf; by repeat constructor.
Qed.

(** The branch of the copy assignment that copies the source and swaps
    with the copy. *)
Lemma assign_copy_realloc_cases s this rhs buf xs cap bufr ys capr :
  is_vector s this buf xs cap → is_vector s rhs bufr ys capr → this ≠ rhs →
  (∀ b, buf = Ptr b 0 → bufr ≠ Ptr b 0) →
  match with_Vector_copy rhs (fun rhs_copy => Swap this rhs_copy) s with
  | Ret _ s' =>
      ∃ buf', is_vector s' this buf' ys (length ys)
              ∧ is_vector s' rhs bufr ys capr
              ∧ (∀ b, buf = Ptr b 0 → mem s' !! b = None)
              ∧ (∀ b, buf' = Ptr b 0 → mem s !! b = None)
              ∧ (∀ b, buf ≠ Ptr b 0 → buf' ≠ Ptr b 0 → mem s' !! b = mem s !! b)
              ∧ (∀ w, w ≠ this → vecs s' !! w = vecs s !! w)
              ∧ locals s' = locals s
              ∧ quiet s s'
  | Throw s' => unchanged s s' ∧ ¬ NeverThrows
  | Undef => False
  end.
Proof.
  intros Hv Hr Hne Hdis.
  unfold with_Vector_copy, new_object. unfold bind at 1.
  set (a := fresh (dom (vecs s))).
  set (s0 := set_vecs <[a := mkVector (mkRawMemory Null 0) 0]> s).
  assert (Ha : vecs s !! a = None) by (apply not_elem_of_dom, is_fresh).
  assert (Hathis : a ≠ this) by (intros ->; destruct Hv as (Hv' & _); congruence).
  assert (Harhs : a ≠ rhs) by (intros ->; destruct Hr as (Hr' & _); congruence).
  assert (Hw0 : ∀ w, w ≠ a → vecs s0 !! w = vecs s !! w).
  { intros w Hw. unfold s0. simpl. by rewrite lookup_insert_ne. }
  assert (Hr0 : is_vector s0 rhs bufr ys capr).
  { eapply is_vector_frame; [done|by apply Hw0|done]. }
  assert (Hv0 : is_vector s0 this buf xs cap).
  { eapply is_vector_frame; [done|by apply Hw0|done]. }
  pose proof (Vector_ctor_copy_cases s0 a rhs bufr ys capr Hr0) as Hc.
  unfold finally at 1. unfold bind at 1.
  destruct (Vector_ctor_copy a rhs s0) as [[] s1|s1|].
  - destruct Hc as (buf' & Hva1 & Hr1 & _ & Hfresh & Hfr1 & Hw1 & Hls1 & Hq1); [|done|].
    { unfold s0. simpl. by rewrite lookup_insert_eq. }
    assert (Hbb : ∀ b, buf = Ptr b 0 → buf' ≠ Ptr b 0).
    { intros b -> ->. specialize (Hfresh b eq_refl). destruct Hv as (_ & _ & Hblk).
      simpl in *. congruence. }
    assert (Hv1 : is_vector s1 this buf xs cap).
    { eapply is_vector_frame; [apply Hv0|by apply Hw1|].
      intros b ->. apply Hfr1. by apply Hbb. }
    pose proof Hv1 as (Hthis1 & _). pose proof Hva1 as (Ha1 & _).
    destruct (Swap_Ret s1 this a _ _ Hthis1 Ha1)
      as (s2 & Hrun2 & Hthis2 & Ha2 & Hw2 & Hls2 & Hm2 & Htr2).
    assert (Hva2 : is_vector s2 a buf xs cap).
    { destruct Hv1 as (_ & ? & Hblk). split_and!; [done..|].
      by rewrite (block_of_mem s1 s2). }
    destruct (Vector_dtor_Ret _ _ _ _ _ Hva2) as (s3 & Hrun3 & Hm3 & Htr3 & Hvs3 & Hls3).
    erewrite finally_Ret; [|apply Hrun2|apply Hrun3].
    unfold delete_object, bind, ret.
    exists buf'. split_and!.
    + destruct Hva1 as (_ & ? & Hblk). split_and!; [|done|].
      * simpl. by rewrite lookup_delete_ne, Hvs3.
      * rewrite <- Hblk. destruct buf' as [|b' [|o]]; [done| |done]. simpl.
        rewrite Hm3, Hm2. destruct buf as [|b o]; [done|]. simpl.
        rewrite lookup_delete_ne; [done|].
        intros ->. apply (Hbb b'); [|done].
        by rewrite (is_vector_offset_0 _ _ _ _ _ Hv b' o eq_refl).
    + eapply is_vector_frame; [apply Hr1| |].
      * simpl. rewrite lookup_delete_ne, Hvs3 by done. by apply Hw2.
      * intros b ->. simpl. rewrite Hm3, Hm2. destruct buf as [|b0 o]; [done|]. simpl.
        rewrite lookup_delete_ne; [done|].
        intros ->. apply (Hdis b); [|done].
        by rewrite (is_vector_offset_0 _ _ _ _ _ Hv b o eq_refl).
    + intros b ->. simpl. rewrite Hm3. simpl. by rewrite lookup_delete_eq.
    + done.
    + intros b Hb Hb'. simpl. rewrite Hm3, Hm2.
      destruct buf as [|b0 o]; simpl.
      * by apply Hfr1.
      * rewrite (is_vector_offset_0 _ _ _ _ _ Hv b0 o eq_refl) in Hb.
        rewrite lookup_delete_ne by congruence. by apply Hfr1.
    + intros w Hw. simpl. destruct (decide (w = a)) as [->|Hwa].
      * by rewrite lookup_delete_eq, Ha.
      * rewrite lookup_delete_ne, Hvs3, Hw2, Hw1 by done. by apply Hw0.
    + simpl. by rewrite Hls3, Hls2, Hls1.
    + destruct Hq1 as (es & Htr1 & Hes).
      eapply quiet_events.
      * simpl. rewrite Htr3, Htr2, Htr1. simpl. by rewrite <- app_assoc.
      * apply Forall_app. split; [done|]. apply quiet_Vector_dtor_events.
  - destruct Hc as (Hm1 & Hls1 & Hw1 & Hth); [|done|].
    { unfold s0. simpl. by rewrite lookup_insert_eq. }
    unfold delete_object, rethrow. split; [|done].
    unfold unchanged. simpl. split_and!; [|done..].
    apply map_eq. intros w. destruct (decide (w = a)) as [->|Hwa].
    + by rewrite lookup_delete_eq, Ha.
    + rewrite lookup_delete_ne, Hw1 by done. by apply Hw0.
  - apply Hc; [|done]. unfold s0. simpl. by rewrite lookup_insert_eq.
Qed.
Lemma assign_copy_realloc_eq s this rhs buf xs cap bufr ys capr :
  is_vector s this buf xs cap → is_vector s rhs bufr ys capr → this ≠ rhs →
  cap < length ys →
  Vector_assign_copy this rhs s
  = with_Vector_copy rhs (fun rhs_copy => Swap this rhs_copy) s.
Proof.
  intros Hv Hr Hne Hlt. unfold Vector_assign_copy. rewrite decide_True by done.
  rewrite (get_size_bind _ _ _ _ (is_vector_size_at _ _ _ _ _ Hr)).
  rewrite (RawMemory_Capacity_bind _ _ _ _ (is_vector_raw_at _ _ _ _ _ Hv)).
  cbn [capacity_]. by rewrite decide_True.
Qed.

(** X12: when nothing throws, the copy assignment [this = rhs] of two
    vectors with different buffers gives the target the elements of the
    source and leaves the source as it was.  If the elements fit the
    capacity of the target, the target keeps its buffer and capacity,
    whether it was longer, shorter or as long as the source; otherwise
    its new capacity is the size of the source, and its old buffer has
    been freed. *)
Theorem copy_assignment_copies_the_source (Hnt : NeverThrows)
    s this rhs buf xs cap bufr ys capr :
  is_vector s this buf xs cap → is_vector s rhs bufr ys capr → this ≠ rhs →
  (∀ b, buf = Ptr b 0 → bufr ≠ Ptr b 0) →
  ∃ s' buf',
    Vector_assign_copy this rhs s = Ret () s'
    ∧ is_vector s' this buf' ys (if decide (cap < length ys) then length ys else cap)
    ∧ is_vector s' rhs bufr ys capr
    ∧ (length ys ≤ cap → buf' = buf)
    ∧ (cap < length ys → ∀ b, buf = Ptr b 0 → mem s' !! b = None)
    ∧ (∀ w, w ≠ this → vecs s' !! w = vecs s !! w).
Proof.
  intros Hv Hr Hne Hdis. destruct (decide (cap < length ys)) as [Hlt|Hfit].
  - rewrite (assign_copy_realloc_eq _ _ _ _ _ _ _ _ _ Hv Hr Hne Hlt).
    pose proof (assign_copy_realloc_cases _ _ _ _ _ _ _ _ _ Hv Hr Hne Hdis) as Hc.
    destruct (with_Vector_copy rhs (λ rhs_copy, Swap this rhs_copy) s) as [[] s'|s'|];
      [| |done].
    + destruct Hc as (buf' & H1 & H2 & H3 & _ & _ & H6 & _).
      exists s', buf'. split_and!; [done..|lia|done|done].
    + by destruct Hc as (_ & Hth).
  - destruct (assign_copy_inplace_Ret Hnt _ _ _ _ _ _ _ _ _ Hv Hr Hne Hdis)
      as (s' & Hrun & H1 & H2 & H3 & _); [lia|].
    exists s', buf. split_and!; [done..|lia|done].
Qed.

(** X13: when the source has more elements than the target has
    capacity, the copy assignment works on a copy and swaps, and so has
    the strong guarantee for every element type: if anything throws, the
    state is as before the call, up to the trace; if it returns, no
    operation threw and the target holds the elements of the source. *)
Theorem copy_assignment_by_copy_and_swap_is_strong s this rhs buf xs cap bufr ys capr :
  is_vector s this buf xs cap → is_vector s rhs bufr ys capr → this ≠ rhs →
  (∀ b, buf = Ptr b 0 → bufr ≠ Ptr b 0) →
  cap < length ys →
  strong_guarantee s (Vector_assign_copy this rhs s)
    (fun s' => ∃ buf', is_vector s' this buf' ys (length ys)
                       ∧ is_vector s' rhs bufr ys capr).
Proof.
  intros Hv Hr Hne Hdis Hlt.
  rewrite (assign_copy_realloc_eq _ _ _ _ _ _ _ _ _ Hv Hr Hne Hlt).
  pose proof (assign_copy_realloc_cases _ _ _ _ _ _ _ _ _ Hv Hr Hne Hdis) as Hc.
  destruct (with_Vector_copy rhs (λ rhs_copy, Swap this rhs_copy) s) as [[] s'|s'|];
    [| |done].
  - destruct Hc as (buf' & H1 & H2 & _ & _ & _ & _ & _ & Hq). simpl. split; [done|].
    by exists buf'.
  - by destruct Hc as (Hu & _).
Qed.

(** ** Reserving capacity *)




(** ** Appending and removing at the end *)

Lemma EmplaceBack_in_place_frame (Hnt : NeverThrows) s this buf xs cap args :
  is_vector s this buf xs cap → length xs < cap →
  ∃ s', EmplaceBack this args s = Ret (ptr_add buf (length xs)) s'
        ∧ is_vector s' this buf (xs ++ [value_of args]) cap
        ∧ locals s' = locals s
        ∧ (∀ w, w ≠ this → vecs s' !! w = vecs s !! w)
        ∧ (∀ b, buf ≠ Ptr b 0 → mem s' !! b = mem s !! b).
Proof.
  intros Hv Hroom.
  destruct (EmplaceBack_Ret Hnt s this buf xs cap args Hv) as (s' & buf' & Hrun & Hv' & Hbuf).
  rewrite decide_False in Hv' by lia. rewrite (Hbuf ltac:(lia)) in Hrun, Hv'.
  pose proof (is_vector_raw_at _ _ _ _ _ Hv) as Hraw.
  pose proof (is_vector_size_at _ _ _ _ _ Hv) as Hsize.
  destruct (is_vector_block _ _ _ _ _ Hv) as (b & -> & Hb); [lia|].
  assert (∃ s1 n, frame2 s s1 b b ∧ s' = put_size this n s1) as (s1 & n & Hfr & ->).
  { revert Hrun. unfold EmplaceBack, Capacity.
    rewrite (get_size_bind _ _ _ _ Hsize), (RawMemory_Capacity_bind _ _ _ _ Hraw).
    cbn [capacity_]. rewrite decide_False by lia.
    rewrite bind_assoc, (RawMemory_plus_bind _ _ _ _ _ Hraw) by (simpl; lia).
    cbn [buffer_ ptr_add].
    destruct (construct_at_Ret Hnt s b (0 + length xs) _ args Hb)
      as (s1 & Hrun1 & _ & Hfr1); [rewrite length_layout by lia; lia|].
    rewrite (bind_Ret _ _ _ _ _ Hrun1).
    rewrite (set_size_bind _ _ _ (length xs))
      by (by rewrite (frame2_size_at _ _ _ _ _ Hfr1)).
    rewrite (get_size_bind _ _ (S (length xs)))
      by (by rewrite size_at_put_same, (frame2_size_at _ _ _ _ _ Hfr1), Hsize).
    erewrite RawMemory_index_Ret;
      [|by rewrite raw_at_put_size, (frame2_raw_at _ _ _ _ _ Hfr1)|simpl; lia].
    intros [= _ <-]. eauto. }
  destruct Hfr as (Hvs & Hls & Hm).
  eexists. split_and!; [done..| | |].
  - done.
  - intros w Hw. by rewrite vecs_put_size_ne, Hvs.
  - intros b0 Hb0. simpl. apply Hm; congruence.
Qed.

(** X15: when nothing throws, [EmplaceBack] returns a reference to the
    element it appended: the object at that address has the constructed
    value, it is the element of index [Size() - 1], and [end()] is one
    past it.  Both [PushBack] overloads append the same element. *)
Theorem EmplaceBack_returns_the_new_element (Hnt : NeverThrows) s this buf xs cap args :
  is_vector s this buf xs cap →
  ∃ s' p,
    EmplaceBack this args s = Ret p s'
    ∧ load p s' = Ret (value_of args) s'
    ∧ size_at s' this = Some (S (length xs))
    ∧ Vector_index this (length xs) s' = Ret p s'
    ∧ end_ this s' = Ret (ptr_add p 1) s'
    ∧ (∀ v, args = ByCopy v → PushBack_copy this v s = Ret () s')
    ∧ (∀ v, args = ByMove v → PushBack_move this v s = Ret () s').
Proof.
  intros Hv.
  destruct (EmplaceBack_Ret Hnt s this buf xs cap args Hv) as (s' & buf' & Hrun & Hv' & _).
  pose proof (is_vector_raw_at _ _ _ _ _ Hv') as Hraw.
  pose proof (is_vector_size_at _ _ _ _ _ Hv') as Hsize.
  pose proof Hv' as (_ & Hle & _). rewrite length_app in Hsize, Hle. simpl in Hsize, Hle.
  exists s', (ptr_add buf' (length xs)). split_and!.
  - done.
  - assert (Hslot : slot_of s' (ptr_add buf' (length xs)) = Some (Some (value_of args))).
    { eapply is_vector_slot; [done|]. apply lookup_snoc_length. }
    unfold load. by rewrite (get_slot_bind _ _ _ _ Hslot).
  - rewrite Hsize. f_equal. lia.
  - unfold Vector_index. rewrite (get_size_bind _ _ _ _ Hsize).
    rewrite decide_True by lia.
    by rewrite (RawMemory_index_Ret _ _ _ _ Hraw) by (simpl; lia).
  - unfold end_. rewrite (get_size_bind _ _ _ _ Hsize).
    unfold RawMemory_plus. rewrite (get_raw_bind _ _ _ _ Hraw).
    rewrite decide_True by (simpl; lia). simpl.
    destruct buf' as [|b o]; simpl; [done|]. unfold ret. do 2 f_equal. lia.
  - intros v ->. unfold PushBack_copy. by rewrite (bind_Ret _ _ _ _ _ Hrun).
  - intros v ->. unfold PushBack_move. by rewrite (bind_Ret _ _ _ _ _ Hrun).
Qed.

(** X16: when nothing throws, [PopBack] after [EmplaceBack] gives back
    the elements the vector had.  If the append had room, the whole
    state is as before, up to the trace: same buffer, same capacity,
    same memory.  If the append had to grow, the capacity stays grown. *)
Theorem PopBack_undoes_EmplaceBack (Hnt : NeverThrows) s this buf xs cap args :
  is_vector s this buf xs cap →
  ∃ s' buf',
    (EmplaceBack this args ;;; PopBack this) s = Ret () s'
    ∧ is_vector s' this buf' xs
        (if decide (length xs = cap)
         then (if decide (length xs = 0) then 1 else length xs * 2)
         else cap)
    ∧ (length xs < cap → buf' = buf ∧ unchanged s s').
Proof.
  intros Hv. pose proof Hv as (Hthis & Hle & Hblk).
  destruct (decide (length xs = cap)) as [Hfull|Hroom].
  - destruct (EmplaceBack_Ret Hnt s this buf xs cap args Hv) as (s1 & buf1 & Hrun & Hv1 & _).
    rewrite decide_True in Hv1 by done.
    destruct (PopBack_Ret _ _ _ _ _ _ Hv1) as (s2 & Hrun2 & Hv2 & _).
    exists s2, buf1. rewrite (bind_Ret _ _ _ _ _ Hrun). split_and!; [done..|lia].
  - destruct (EmplaceBack_in_place_frame Hnt s this buf xs cap args Hv)
      as (s1 & Hrun & Hv1 & Hls1 & Hw1 & Hfr1); [lia|].
    destruct (PopBack_frame _ _ _ _ _ _ Hv1) as (s2 & Hrun2 & Hv2 & _ & Hls2 & Hw2 & Hfr2).
    exists s2, buf. rewrite (bind_Ret _ _ _ _ _ Hrun). split_and!; [done..|].
    intros _. split; [done|]. destruct Hv2 as (Hthis2 & _ & Hblk2).
    unfold unchanged. split_and!.
    + apply map_eq. intros w. destruct (decide (w = this)) as [->|Hw].
      * by rewrite Hthis2, Hthis.
      * by rewrite Hw2, Hw1.
    + by rewrite Hls2, Hls1.
    + apply map_eq. intros b. destruct (decide (buf = Ptr b 0)) as [->|Hb].
      * simpl in *. by rewrite Hblk2, Hblk.
      * by rewrite Hfr2, Hfr1.
Qed.

(** ** Raw memory *)



(** ** [Resize] under an arbitrary oracle *)





Lemma state_ext s s' :
  (∀ r, raw_at s' r = raw_at s r) → (∀ v, size_at s' v = size_at s v) →
  mem s' = mem s → trace s' = trace s → s' = s.
Proof.
  intros Hr Hs Hm Ht. apply state_eq; [| |done..].
  - apply map_eq. intros v. apply vec_lookup_ext; [apply (Hr (DataOf v))|apply Hs].
  - apply list_eq. intros i. apply (Hr (Local i)).
Qed.

(** X20: [RawMemory::Swap] exchanges buffer and capacity of the two
    objects and does nothing else: memory and trace are as before.  It
    is symmetric in its arguments, and swapping twice gives back the
    state one started from. *)
Theorem RawMemory_Swap_exchanges_ownership s a b x y :
  raw_at s a = Some x → raw_at s b = Some y →
  (∃ s', RawMemory_Swap a b s = Ret () s'
         ∧ raw_at s' a = Some y ∧ raw_at s' b = Some x
         ∧ (∀ r, r ≠ a → r ≠ b → raw_at s' r = raw_at s r)
         ∧ (∀ v, size_at s' v = size_at s v)
         ∧ mem s' = mem s ∧ trace s' = trace s)
  ∧ RawMemory_Swap a b s = RawMemory_Swap b a s
  ∧ (RawMemory_Swap a b ;;; RawMemory_Swap a b) s = Ret () s.
Proof.
  intros Ha Hb.
  destruct (RawMemory_Swap_Ret s a b x y Ha Hb)
    as (s1 & Hr1 & Ha1 & Hb1 & Hf1 & Hs1 & _ & Hm1 & Ht1).
  destruct (RawMemory_Swap_Ret s b a y x Hb Ha)
    as (s2 & Hr2 & Hb2 & Ha2 & Hf2 & Hs2 & _ & Hm2 & Ht2).
  assert (Hb1' : raw_at s1 b = Some x).
  { rewrite Hb1. destruct (decide (a = b)) as [->|]; [congruence|done]. }
  assert (Ha2' : raw_at s2 a = Some y).
  { rewrite Ha2. destruct (decide (b = a)) as [->|]; [congruence|done]. }
  destruct (RawMemory_Swap_Ret s1 a b y x Ha1 Hb1')
    as (s3 & Hr3 & Ha3 & Hb3 & Hf3 & Hs3 & _ & Hm3 & Ht3).
  assert (Hb3' : raw_at s3 b = Some y).
  { rewrite Hb3. destruct (decide (a = b)) as [->|]; [congruence|done]. }
  split_and!.
  - exists s1. by split_and!.
  - rewrite Hr1, Hr2. f_equal. apply state_ext; [| |congruence..].
    + intros r. destruct (decide (r = a)) as [->|Hna]; [congruence|].
      destruct (decide (r = b)) as [->|Hnb]; [congruence|].
      by rewrite Hf1, Hf2.
    + intros v. by rewrite Hs1, Hs2.
  - rewrite (bind_Ret _ _ _ _ _ Hr1), Hr3. f_equal. apply state_ext; [| |congruence..].
    + intros r. destruct (decide (r = a)) as [->|Hna].
      { destruct (decide (a = b)) as [->|]; congruence. }
      destruct (decide (r = b)) as [->|Hnb]; [congruence|].
      by rewrite Hf3, Hf1.
    + intros v. by rewrite Hs3, Hs1.
Qed.

(** ** Copy assignment in place under an arbitrary oracle *)

Lemma copy_assign_cases s b1 o1 sl1 b2 o2 sl2 (v old : T) :
  b1 ≠ b2 →
  mem s !! b1 = Some sl1 → sl1 !! o1 = Some (Some v) →
  mem s !! b2 = Some sl2 → sl2 !! o2 = Some (Some old) →
  match copy_assign (Ptr b2 o2) (Ptr b1 o1) s with
  | Ret _ s' => mem s' !! b1 = Some sl1
                ∧ mem s' !! b2 = Some (<[o2 := Some v]> sl2)
                ∧ frame2 s s' b1 b2 ∧ quiet s s'
  | Throw s' => unchanged s s'
  | Undef => False
  end.
Proof.
  intros Hne H1 Ho1 H2 Ho2. unfold copy_assign.
  erewrite !load_bind by (erewrite slot_of_lookup; eauto).
  unfold bind, attempt. destruct (throws (trace s) (EvAssignCopy v old)); [done|].
  rewrite (put_slot_Ret _ b2 o2 sl2) by (simpl; by eauto using lookup_lt_Some).
  unfold frame2; simpl. rewrite lookup_insert_eq, lookup_insert_ne by done.
  split_and!; [done..| |].
  - intros b ? ?. by rewrite lookup_insert_ne.
  - apply quiet_events with [EvAssignCopy v old]; [done|]. by constructor.
Qed.

(** [std::copy] onto live objects either assigns the whole range or
    throws after it has assigned a prefix of it. *)
Lemma copy_loop_cases s n b1 o1 pre1 (xs : list T) post1 b2 o2 pre2 (olds : list T) post2 :
  b1 ≠ b2 → o1 = length pre1 → o2 = length pre2 →
  n = length xs → length olds = length xs →
  mem s !! b1 = Some (pre1 ++ (Some <$> xs) ++ post1) →
  mem s !! b2 = Some (pre2 ++ (Some <$> olds) ++ post2) →
  match copy_loop (Ptr b1 o1) n (Ptr b2 o2) s with
  | Ret _ s' => mem s' !! b1 = Some (pre1 ++ (Some <$> xs) ++ post1)
                ∧ mem s' !! b2 = Some (pre2 ++ (Some <$> xs) ++ post2)
                ∧ frame2 s s' b1 b2 ∧ quiet s s'
  | Throw s' => mem s' !! b1 = Some (pre1 ++ (Some <$> xs) ++ post1)
                ∧ (∃ k, k < n
                        ∧ mem s' !! b2
                          = Some (pre2 ++ (Some <$> take k xs ++ drop k olds) ++ post2))
                ∧ frame2 s s' b1 b2
  | Undef => False
  end.
Proof.
  intros Hne. revert s n o1 pre1 o2 pre2 olds.
  induction xs as [|v xs IH]; intros s n o1 pre1 o2 pre2 olds -> -> -> Hlen H1 H2.
  - destruct olds; [|done]. simpl.
    split_and!; [done|done|apply frame2_refl|apply quiet_refl].
  - destruct olds as [|w olds]; [done|]. simpl in Hlen.
    rewrite fmap_cons, <- app_comm_cons in H1, H2.
    pose proof (copy_assign_cases s b1 (length pre1) _ b2 (length pre2) _ v w Hne H1
                  (list_lookup_middle _ _ _ _ eq_refl) H2
                  (list_lookup_middle _ _ _ _ eq_refl)) as Hc.
    cbn [length copy_loop]. unfold bind at 1.
    destruct (copy_assign (Ptr b2 (length pre2)) (Ptr b1 (length pre1)) s) as [[] s1|s1|];
      [| |done].
    + destruct Hc as (H1' & H2' & Hfr1 & Hq1).
      rewrite insert_middle in H2'.
      rewrite (snoc_middle pre1) in H1'. rewrite (snoc_middle pre2) in H2'.
      specialize (IH s1 (length xs) (length pre1 + 1) (pre1 ++ [Some v])
                    (length pre2 + 1) (pre2 ++ [Some v]) olds).
      simpl ptr_add.
      destruct (copy_loop (Ptr b1 (length pre1 + 1)) (length xs)
                  (Ptr b2 (length pre2 + 1)) s1) as [a s2|s2|].
      * destruct IH as (H1'' & H2'' & Hfr2 & Hq2);
          [rewrite length_app; simpl; lia|rewrite length_app; simpl; lia|done|lia|done|done|].
        rewrite <- !snoc_middle in H1'', H2''.
        split_and!; [done|done|by eapply frame2_trans|by eapply quiet_trans].
      * destruct IH as (H1'' & (k & Hk & H2'') & Hfr2);
          [rewrite length_app; simpl; lia|rewrite length_app; simpl; lia|done|lia|done|done|].
        rewrite <- snoc_middle in H1'', H2''.
        split_and!; [done| |by eapply frame2_trans].
        exists (S k). split; [lia|]. by rewrite H2''.
      * destruct IH;
          [rewrite length_app; simpl; lia|rewrite length_app; simpl; lia|done|lia|done|done].
    + destruct Hc as (Hvs & Hls & Hm). rewrite Hm.
      split_and!; [by rewrite fmap_cons| |].
      * exists 0. split; [simpl; lia|]. cbn [take drop app]. by rewrite fmap_cons.
      * split_and!; [done..|]. intros b _ _. by rewrite Hm.
Qed.

(** [uninitialized_copy_n] into raw slots: when it throws, the slots are
    raw again. *)
Lemma uninitialized_copy_n_rollback s b1 o1 pre1 (xs : list T) post1 b2 o2 pre2 post2 :
  b1 ≠ b2 → o1 = length pre1 → o2 = length pre2 →
  mem s !! b1 = Some (pre1 ++ (Some <$> xs) ++ post1) →
  mem s !! b2 = Some (pre2 ++ replicate (length xs) None ++ post2) →
  match uninitialized_copy_n (Ptr b1 o1) (length xs) (Ptr b2 o2) s with
  | Ret _ s' => mem s' !! b1 = Some (pre1 ++ (Some <$> xs) ++ post1)
                ∧ mem s' !! b2 = Some (pre2 ++ (Some <$> xs) ++ post2)
                ∧ frame2 s s' b1 b2 ∧ quiet s s'
  | Throw s' => unchanged s s'
  | Undef => False
  end.
Proof.
  intros Hne. revert s o1 pre1 o2 pre2.
  induction xs as [|v xs IH]; intros s o1 pre1 o2 pre2 -> -> H1 H2.
  - simpl. split_and!; [done|done|apply frame2_refl|apply quiet_refl].
  - cbn [length replicate] in H2.
    rewrite fmap_cons, <- app_comm_cons in H1. rewrite <- app_comm_cons in H2.
    pose proof (copy_construct_cases s b1 (length pre1) _ b2 (length pre2) _ v Hne H1
                  (list_lookup_middle _ _ _ _ eq_refl) H2) as Hc.
    cbn [uninitialized_copy_n length]. unfold bind at 1.
    destruct (copy_construct (Ptr b2 (length pre2)) (Ptr b1 (length pre1)) s)
      as [[] s1|s1|].
    + destruct Hc as (H1' & H2' & Hfr1 & Hq1); [rewrite length_app; simpl; lia|].
      rewrite insert_middle in H2'.
      specialize (IH s1 (length pre1 + 1) (pre1 ++ [Some v])
                    (length pre2 + 1) (pre2 ++ [Some v])).
      unfold on_throw, try_catch. simpl ptr_add.
      destruct (uninitialized_copy_n (Ptr b1 (length pre1 + 1)) (length xs)
                  (Ptr b2 (length pre2 + 1)) s1) as [a s2|s2|].
      * destruct IH as (H1'' & H2'' & Hfr2 & Hq2);
          [rewrite length_app; simpl; lia|rewrite length_app; simpl; lia
          |by rewrite <- app_assoc|by rewrite <- app_assoc|].
        rewrite <- !app_assoc in H1'', H2''.
        split_and!; [done|done|by eapply frame2_trans|by eapply quiet_trans].
      * destruct IH as (Hvs2 & Hls2 & Hm2);
          [rewrite length_app; simpl; lia|rewrite length_app; simpl; lia
          |by rewrite <- app_assoc|by rewrite <- app_assoc|].
        assert (H2'' : mem s2 !! b2
                       = Some (pre2 ++ Some v :: replicate (length xs) None ++ post2))
          by (by rewrite Hm2).
        destruct (destroy_at_Ret s2 b2 (length pre2) _ v H2'')
          as (s3 & Hrun3 & H2''' & _ & (Hvs3 & Hls3 & Hfr3)); [by apply list_lookup_middle|].
        rewrite insert_middle in H2'''.
        rewrite (bind_Ret _ _ _ _ _ Hrun3). unfold rethrow.
        destruct Hfr1 as (Hvs1 & Hls1 & Hfr1).
        unfold unchanged. split_and!; [congruence|congruence|].
        apply map_eq. intros b0. destruct (decide (b0 = b2)) as [->|Hb0].
        -- by rewrite H2''', H2.
        -- rewrite Hfr3, Hm2 by done. destruct (decide (b0 = b1)) as [->|Hb1].
           ++ by rewrite H1', H1.
           ++ by apply Hfr1.
      * destruct IH;
          [rewrite length_app; simpl; lia|rewrite length_app; simpl; lia
          |by rewrite <- app_assoc|by rewrite <- app_assoc].
    + apply Hc. rewrite length_app. simpl. lia.
    + apply Hc. rewrite length_app. simpl. lia.
Qed.
Lemma assign_prefix_cases s this rhs buf xs cap bufr ys capr k :
  is_vector s this buf xs cap → is_vector s rhs bufr ys capr →
  (∀ b, buf = Ptr b 0 → bufr ≠ Ptr b 0) →
  k ≤ length xs → k ≤ length ys →
  match std_copy bufr (ptr_add bufr k) buf s with
  | Ret _ s1 =>
      vecs s1 = vecs s ∧ locals s1 = locals s
      ∧ block_of s1 buf = Some ((Some <$> take k ys) ++ drop k (layout xs cap))
      ∧ (∀ b, buf ≠ Ptr b 0 → mem s1 !! b = mem s !! b)
      ∧ quiet s s1
  | Throw s1 =>
      vecs s1 = vecs s ∧ locals s1 = locals s
      ∧ (∃ j, j < k
              ∧ block_of s1 buf = Some ((Some <$> take j ys) ++ drop j (layout xs cap)))
      ∧ (∀ b, buf ≠ Ptr b 0 → mem s1 !! b = mem s !! b)
  | Undef => False
  end.
Proof.
  intros Hv Hr Hdis Hkx Hky. unfold std_copy.
  pose proof Hv as (_ & Hle & Hblk). pose proof Hr as (_ & Hler & Hblkr).
  rewrite ptr_diff_add.
  2:{ intros ->. apply is_vector_null in Hr as [-> _]. simpl in Hky. lia. }
  cbn [from_option]. rewrite bind_ret.
  destruct (decide (k = 0)) as [->|Hk].
  { simpl. split_and!; [done..|apply quiet_refl]. }
  destruct (is_vector_block _ _ _ _ _ Hv) as (b & -> & Hb); [lia|].
  destruct (is_vector_block _ _ _ _ _ Hr) as (br & -> & Hbr); [lia|].
  assert (Hbne : br ≠ b) by (intros ->; by apply (Hdis b)).
  pose proof (copy_loop_cases s k br 0 [] (take k ys) (drop k (layout ys capr))
                b 0 [] (take k xs) (drop k (layout xs cap)) Hbne eq_refl eq_refl) as Hc.
  assert (Hfrb : ∀ s1, mem s1 !! br = Some ([] ++ (Some <$> take k ys)
                                             ++ drop k (layout ys capr)) →
                 frame2 s s1 br b →
                 ∀ b0, Ptr b 0 ≠ Ptr b0 0 → mem s1 !! b0 = mem s !! b0).
  { intros s1 Hbr1 (_ & _ & Hfr) b0 Hb0. destruct (decide (b0 = br)) as [->|Hb0'].
    - rewrite Hbr1, Hbr. simpl. by rewrite <- layout_split.
    - apply Hfr; congruence. }
  destruct (copy_loop (Ptr br 0) k (Ptr b 0) s) as [a s1|s1|].
  - destruct Hc as (Hbr1 & Hb1 & Hfr & Hq).
    { rewrite length_take. lia. }
    { rewrite !length_take. lia. }
    { simpl. by rewrite <- layout_split. }
    { simpl. by rewrite <- layout_split. }
    pose proof Hfr as (Hvs & Hls & _).
    split_and!; [done..| |by apply Hfrb|done]. simpl in *. by rewrite Hb1.
  - destruct Hc as (Hbr1 & (j & Hj & Hb1) & Hfr).
    { rewrite length_take. lia. }
    { rewrite !length_take. lia. }
    { simpl. by rewrite <- layout_split. }
    { simpl. by rewrite <- layout_split. }
    pose proof Hfr as (Hvs & Hls & _).
    split_and!; [done..| |by apply Hfrb].
    exists j. split; [done|]. simpl in *. rewrite Hb1. f_equal.
    rewrite take_take, Nat.min_l by lia.
    rewrite fmap_app, <- app_assoc. f_equal.
    rewrite (layout_split xs cap k) at 2 by done.
    rewrite drop_app_le by (rewrite length_fmap, length_take; lia).
    by rewrite fmap_drop.
  - apply Hc.
    + rewrite length_take. lia.
    + rewrite !length_take. lia.
    + simpl. by rewrite <- layout_split.
    + simpl. by rewrite <- layout_split.
Qed.

Lemma is_vector_prefix_assigned s s1 this buf xs cap (ys : list T) j :
  is_vector s this buf xs cap →
  vecs s1 !! this = vecs s !! this →
  j ≤ length xs → j ≤ length ys →
  block_of s1 buf = Some ((Some <$> take j ys) ++ drop j (layout xs cap)) →
  is_vector s1 this buf (take j ys ++ drop j xs) cap.
Proof.
  intros (Hthis & Hle & _) Hvs Hjx Hjy Hblk.
  assert (Hlen : length (take j ys ++ drop j xs) = length xs).
  { rewrite length_app, length_take, length_drop. lia. }
  split_and!.
  - by rewrite Hvs, Hlen.
  - by rewrite Hlen.
  - rewrite Hblk. f_equal. rewrite drop_layout by done. unfold layout.
    by rewrite Hlen, fmap_app, <- app_assoc.
Qed.
(** X21: when the elements of the source fit the capacity of the target,
    copy assignment works in place and gives the basic guarantee for
    every element type.  If anything throws, the target is still a valid
    vector of its old size in its old buffer: its first [k] elements
    have the values of the source and the others are the old ones, and
    the objects constructed beyond the old size are gone again.  The
    source and every other block are untouched.  If it returns, no
    operation threw and the target holds the elements of the source. *)
Theorem copy_assignment_in_place_keeps_a_valid_vector
    s this rhs buf xs cap bufr ys capr :
  is_vector s this buf xs cap → is_vector s rhs bufr ys capr → this ≠ rhs →
  (∀ b, buf = Ptr b 0 → bufr ≠ Ptr b 0) →
  length ys ≤ cap →
  match Vector_assign_copy this rhs s with
  | Ret _ s' => quiet s s'
                ∧ is_vector s' this buf ys cap
                ∧ is_vector s' rhs bufr ys capr
  | Throw s' => (∃ k, k ≤ length xs ∧ k ≤ length ys
                      ∧ is_vector s' this buf (take k ys ++ drop k xs) cap)
                ∧ is_vector s' rhs bufr ys capr
                ∧ (∀ b, buf ≠ Ptr b 0 → mem s' !! b = mem s !! b)
  | Undef => False
  end.
Proof.
  intros Hv Hr Hne Hdis Hfit.
  pose proof (is_vector_raw_at _ _ _ _ _ Hv) as Hraw.
  pose proof (is_vector_size_at _ _ _ _ _ Hv) as Hsize.
  pose proof (is_vector_raw_at _ _ _ _ _ Hr) as Hrawr.
  pose proof (is_vector_size_at _ _ _ _ _ Hr) as Hsizer.
  pose proof Hv as (_ & Hle & _). pose proof Hr as (_ & Hler & _).
  unfold Vector_assign_copy. rewrite decide_True by done.
  rewrite (get_size_bind _ _ _ _ Hsizer), (RawMemory_Capacity_bind _ _ _ _ Hraw).
  cbn [capacity_]. rewrite decide_False by lia.
  rewrite (get_size_bind _ _ _ _ Hsize).
  set (n := length xs) in *. set (rn := length ys) in *.
  set (cc := if decide (rn < n) then rn else n).
  assert (Hcc : cc ≤ n ∧ cc ≤ rn) by (unfold cc; case_decide; lia).
  cbn zeta.
  rewrite (GetAddress_bind _ _ _ _ Hrawr).
  rewrite (RawMemory_plus_bind _ _ _ _ _ Hrawr) by (simpl; lia).
  rewrite (GetAddress_bind _ _ _ _ Hraw). cbn [buffer_].
  assert (Hrhs : ∀ s2, vecs s2 !! rhs = vecs s !! rhs →
                 (∀ b, buf ≠ Ptr b 0 → mem s2 !! b = mem s !! b) →
                 is_vector s2 rhs bufr ys capr).
  { intros s2 Hvs2 Hfr2. eapply is_vector_frame; [done|done|].
    intros b ->. apply Hfr2. intros ->. by apply (Hdis b). }
  pose proof (assign_prefix_cases s this rhs buf xs cap bufr ys capr cc Hv Hr Hdis) as Hp.
  unfold bind at 1.
  destruct (std_copy bufr (ptr_add bufr cc) buf s) as [a s1|s1|]; [| |apply Hp; lia].
  2:{ destruct Hp as (Hvs1 & Hls1 & (j & Hj & Hb1) & Hfr1); [lia..|].
      split_and!; [|by apply Hrhs; [rewrite Hvs1|]|done].
      exists j. split_and!; [lia..|].
      apply (is_vector_prefix_assigned s); [done|by rewrite Hvs1|fold n; lia|fold rn; lia|done]. }
  destruct Hp as (Hvs1 & Hls1 & Hb1 & Hfr1 & Hq1); [lia..|].
  assert (Hraw1 : raw_at s1 (DataOf this) = Some (mkRawMemory buf cap))
    by (simpl; rewrite Hvs1; apply Hraw).
  assert (Hrawr1 : raw_at s1 (DataOf rhs) = Some (mkRawMemory bufr capr))
    by (simpl; rewrite Hvs1; apply Hrawr).
  assert (Hsize1 : size_at s1 this = Some n)
    by (unfold size_at; rewrite Hvs1; apply Hsize).
  assert (Hfinish : ∀ s2,
            vecs s2 = vecs s →
            block_of s2 buf = Some (layout ys cap) →
            (∀ b, buf ≠ Ptr b 0 → mem s2 !! b = mem s !! b) →
            is_vector (put_size this rn s2) this buf ys cap
            ∧ is_vector (put_size this rn s2) rhs bufr ys capr).
  { intros s2 Hvs2 Hb2 Hfr2. split.
    - apply is_vector_intro; [| |done|done].
      + rewrite raw_at_put_size. simpl. rewrite Hvs2. apply Hraw.
      + rewrite size_at_put_same. unfold size_at. rewrite Hvs2.
        fold (size_at s this). by rewrite Hsize.
    - apply Hrhs; [|done]. by rewrite vecs_put_size_ne, Hvs2. }
  destruct (decide (rn < n)) as [Hlt|Hge].
  - (* the target is longer: destroy its tail *)
    assert (cc = rn) as Hcc' by (unfold cc; repeat case_decide; lia). rewrite Hcc' in *.
    rewrite !bind_assoc.
    rewrite (RawMemory_plus_bind _ _ _ _ _ Hraw1) by (simpl; lia). cbn [buffer_].
    destruct (is_vector_block _ _ _ _ _ Hv) as (b & -> & Hb); [lia|].
    simpl in Hb1. rewrite take_ge, drop_layout in Hb1 by (fold n; lia).
    destruct (destroy_n_Ret s1 b rn (Some <$> ys) (drop rn xs) _ (eq_sym (length_fmap _ _)) Hb1)
      as (s2 & Hrun2 & Hb2 & Htr2 & Hvs2 & Hls2 & Hfr2).
    rewrite length_drop in Hrun2, Hb2. fold n in Hrun2, Hb2. simpl ptr_add.
    rewrite !bind_assoc, (bind_Ret _ _ _ _ _ Hrun2). rewrite bind_ret.
    erewrite set_size_Ret by (unfold size_at; rewrite Hvs2; apply Hsize1).
    split.
    { apply quiet_put_size. eapply quiet_trans; [done|].
      eapply quiet_events; [done|]. apply Forall_fmap. by apply Forall_true. }
    apply Hfinish; [congruence| |].
    + simpl. rewrite Hb2. f_equal. unfold layout. f_equal. fold rn.
      rewrite <- replicate_add. f_equal. lia.
    + intros b0 Hb0. rewrite Hfr2 by congruence. by apply Hfr1.
  - destruct (decide (n < rn)) as [Hlt|Heq].
    + (* the source is longer: construct the missing elements *)
      assert (cc = n) as Hcc' by (unfold cc; repeat case_decide; lia). rewrite Hcc' in *.
      rewrite !bind_assoc.
      rewrite (RawMemory_plus_bind _ _ _ _ _ Hrawr1) by (simpl; lia).
      cbn beta. rewrite !bind_assoc.
      rewrite (GetAddress_bind _ _ _ _ Hraw1). cbn [buffer_].
      destruct (is_vector_block _ _ _ _ _ Hv) as (b & -> & Hb); [lia|].
      destruct (is_vector_block _ _ _ _ _ Hr) as (br & -> & Hbr); [lia|].
      assert (Hbne : br ≠ b) by (intros ->; by apply (Hdis b)).
      simpl in Hb1. rewrite drop_layout, drop_ge in Hb1 by (fold n; lia).
      simpl in Hb1.
      assert (Hbr1 : mem s1 !! br
                     = Some ((Some <$> take n ys) ++ (Some <$> drop n ys)
                               ++ replicate (capr - rn) None)).
      { rewrite Hfr1 by congruence. rewrite Hbr. unfold layout.
        by rewrite app_assoc, <- fmap_app, take_drop. }
      assert (Hb1' : mem s1 !! b
                     = Some ((Some <$> take n ys) ++ replicate (length (drop n ys)) None
                               ++ replicate (cap - rn) None)).
      { rewrite Hb1, length_drop. do 2 f_equal. rewrite <- replicate_add. f_equal.
        fold rn. lia. }
      pose proof (uninitialized_copy_n_rollback s1 br n (Some <$> take n ys) (drop n ys)
                    (replicate (capr - rn) None) b n (Some <$> take n ys)
                    (replicate (cap - rn) None) Hbne) as Hu.
      rewrite length_drop in Hu. fold rn in Hu. simpl ptr_add.
      rewrite !bind_assoc. unfold bind at 1.
      destruct (uninitialized_copy_n (Ptr br n) (rn - n) (Ptr b n) s1)
        as [a2 s2|s2|].
      * destruct Hu as (Hbr2 & Hb2 & (Hvs2 & Hls2 & Hfr2) & Hq2).
        { rewrite length_fmap, length_take. lia. }
        { rewrite length_fmap, length_take. lia. }
        { done. }
        { by rewrite length_drop in Hb1'. }
        rewrite bind_ret.
        erewrite set_size_Ret by (unfold size_at; rewrite Hvs2; apply Hsize1).
        split; [apply quiet_put_size; by eapply quiet_trans|].
        apply Hfinish; [congruence| |].
        -- simpl. rewrite Hb2. f_equal. unfold layout.
           by rewrite app_assoc, <- fmap_app, take_drop.
        -- intros b0 Hb0. destruct (decide (b0 = br)) as [->|Hb0'].
           ++ rewrite Hbr2, Hbr. unfold layout.
              by rewrite app_assoc, <- fmap_app, take_drop.
           ++ rewrite Hfr2 by congruence. by apply Hfr1.
      * destruct Hu as (Hvs2 & Hls2 & Hm2).
        { rewrite length_fmap, length_take. lia. }
        { rewrite length_fmap, length_take. lia. }
        { done. }
        { by rewrite length_drop in Hb1'. }
        assert (Hfr2 : ∀ b0, Ptr b 0 ≠ Ptr b0 0 → mem s2 !! b0 = mem s !! b0).
        { intros b0 Hb0. rewrite Hm2. by apply Hfr1. }
        split_and!; [|by apply Hrhs; [rewrite Hvs2, Hvs1|]|done].
        exists n. split_and!; [lia..|].
        apply (is_vector_prefix_assigned s); [done|by rewrite Hvs2, Hvs1|fold n; lia..|].
        simpl. rewrite Hm2, Hb1. rewrite drop_layout, drop_ge by (fold n; lia). done.
      * apply Hu.
        { rewrite length_fmap, length_take. lia. }
        { rewrite length_fmap, length_take. lia. }
        { done. }
        { by rewrite length_drop in Hb1'. }
    + (* equal sizes *)
      assert (rn = n) as Hrn by lia.
      assert (cc = n) as Hcc' by (unfold cc; repeat case_decide; lia). rewrite Hcc' in *.
      rewrite bind_ret.
      erewrite set_size_Ret by apply Hsize1.
      split; [by apply quiet_put_size|].
      apply Hfinish; [done| |done].
      rewrite Hb1. f_equal. rewrite take_ge, drop_layout, drop_ge by (fold n rn; lia).
      simpl. unfold layout. fold rn. by rewrite Hrn.
Qed.

(** ** Inserting and erasing at the same position *)

Lemma Erase_Ret (Hnt : NeverThrows) s this buf xs cap n :
  is_vector s this buf xs cap → n < length xs →
  ∃ s', Erase this (ptr_add buf n) s = Ret (ptr_add buf n) s'
        ∧ is_vector s' this buf (take n xs ++ drop (S n) xs) cap.
Proof.
  intros Hv Hn.
  pose proof (is_vector_raw_at _ _ _ _ _ Hv) as Hraw.
  pose proof (is_vector_size_at _ _ _ _ _ Hv) as Hsize.
  pose proof Hv as (_ & Hle & _).
  destruct (is_vector_block _ _ _ _ _ Hv) as (b & -> & Hb); [lia|].
  destruct (lookup_lt_is_Some_2 xs n Hn) as [d Hd].
  pose proof (take_drop_middle xs n d Hd) as Hxs.
  set (pre := take n xs) in *. set (ys := drop (S n) xs) in *.
  assert (Hpre : length pre = n) by (unfold pre; rewrite length_take; lia).
  assert (Hys : length ys = length xs - S n) by (unfold ys; by rewrite length_drop).
  unfold layout in Hb. rewrite <- Hxs in Hb at 1.
  rewrite fmap_app, fmap_cons, <- app_assoc, <- app_comm_cons in Hb.
  unfold Erase.
  rewrite (end_bind _ _ _ _ _ Hraw Hsize) by done.
  simpl. unfold std_move.
  rewrite bind_assoc, ptr_diff_same by lia. cbn [from_option]. rewrite bind_ret.
  destruct (move_loop_Ret Hnt s b n (Some <$> pre) d ys
              (replicate (cap - length xs) None))
    as (s1 & a & d' & Hrun & Hb1 & Hfr); [by rewrite length_fmap|done|].
  replace (length xs - (n + 1)) with (length ys) by lia.
  rewrite (bind_Ret _ _ _ _ _ Hrun).
  destruct (PopBack_Ret s1 this (Ptr b 0) (pre ++ ys) d' cap) as (s2 & Hrun2 & Hv2 & _).
  { apply is_vector_intro.
    - by rewrite (frame2_raw_at _ _ _ _ _ Hfr).
    - rewrite (frame2_size_at _ _ _ _ _ Hfr), Hsize. f_equal.
      rewrite !length_app, Hpre, Hys. simpl. lia.
    - rewrite !length_app, Hpre, Hys. simpl. lia.
    - simpl. rewrite Hb1. f_equal. unfold layout.
      rewrite !fmap_app, <- !app_assoc. simpl. do 3 f_equal.
      rewrite !length_app, Hpre, Hys. simpl. f_equal. lia. }
  rewrite (bind_Ret _ _ _ _ _ Hrun2).
  by exists s2.
Qed.

Lemma Emplace_Ret (Hnt : NeverThrows) s this buf xs cap n args :
  is_vector s this buf xs cap → n ≤ length xs →
  ∃ s' buf',
    Emplace this (ptr_add buf n) args s = Ret (ptr_add buf' n) s'
    ∧ is_vector s' this buf' (take n xs ++ value_of args :: drop n xs)
        (if decide (length xs = cap)
         then (if decide (length xs = 0) then 1 else length xs * 2)
         else cap)
    ∧ (length xs ≠ cap → buf' = buf).
Proof.
  intros Hv Hn.
  pose proof (is_vector_raw_at _ _ _ _ _ Hv) as Hraw.
  pose proof (is_vector_size_at _ _ _ _ _ Hv) as Hsize.
  pose proof Hv as (_ & Hle & _).
  destruct (decide (n = length xs)) as [->|Hne].
  - destruct (EmplaceBack_Ret Hnt s this buf xs cap args Hv) as (s' & buf' & Hrun & Hv' & Hb).
    rewrite firstn_all, drop_all in *.
    exists s', buf'. split_and!; [|done..].
    unfold Emplace. rewrite (cend_bind _ _ _ _ _ Hraw Hsize) by done. simpl.
    by rewrite decide_True.
  - destruct (decide (length xs = cap)) as [Hfull|Hroom].
    + destruct (Emplace_grow_Ret Hnt s this buf xs cap n args Hv) as (s' & buf' & Hrun & Hv');
        [lia|done|].
      rewrite decide_False by lia.
      exists s', buf'. by split_and!.
    + destruct (Emplace_shift_Ret Hnt s this buf xs cap n args Hv) as (s' & Hrun & Hv');
        [lia|lia|].
      exists s', buf. by split_and!.
Qed.

(** X22: when nothing throws, [Erase] at the position [Emplace]
    returned gives back the sequence the vector had, in the buffer and
    with the capacity [Emplace] left; and [Insert] of the erased value at
    the position [Erase] returned gives back the vector exactly: same
    buffer, same capacity, same elements. *)
Theorem Erase_and_Insert_undo_each_other (Hnt : NeverThrows) s this buf xs cap n :
  is_vector s this buf xs cap →
  (∀ args, n ≤ length xs →
     ∃ s1 p s2 buf',
       Emplace this (ptr_add buf n) args s = Ret p s1
       ∧ Erase this p s1 = Ret p s2
       ∧ is_vector s2 this buf' xs
           (if decide (length xs = cap)
            then (if decide (length xs = 0) then 1 else length xs * 2)
            else cap)
       ∧ (length xs ≠ cap → buf' = buf))
  ∧ (∀ v, xs !! n = Some v →
       ∃ s1 p s2,
         Erase this (ptr_add buf n) s = Ret p s1
         ∧ Insert_copy this p v s1 = Ret p s2
         ∧ is_vector s2 this buf xs cap).
Proof.
  intros Hv. pose proof Hv as (_ & Hle & _). split.
  - intros args Hn.
    destruct (Emplace_Ret Hnt s this buf xs cap n args Hv Hn) as (s1 & buf' & Hrun & Hv1 & Hb).
    destruct (Erase_Ret Hnt s1 this buf' _ _ n Hv1) as (s2 & Hrun2 & Hv2).
    { rewrite length_app, length_take. simpl. rewrite length_drop. lia. }
    exists s1, (ptr_add buf' n), s2, buf'. split_and!; [done..| |done].
    replace (take n (take n xs ++ value_of args :: drop n xs)
             ++ drop (S n) (take n xs ++ value_of args :: drop n xs)) with xs in Hv2; [done|].
    rewrite take_app_length' by (rewrite length_take; lia).
    rewrite drop_app_ge by (rewrite length_take; lia).
    rewrite length_take. replace (S n - n `min` length xs) with 1 by lia.
    simpl. rewrite drop_0. symmetry. apply take_drop.
  - intros v Hn. pose proof (lookup_lt_Some _ _ _ Hn) as Hlt.
    destruct (Erase_Ret Hnt s this buf xs cap n Hv Hlt) as (s1 & Hrun & Hv1).
    destruct (Emplace_Ret Hnt s1 this buf _ cap n (ByCopy v) Hv1) as (s2 & buf' & Hrun2 & Hv2 & Hb).
    { rewrite length_app, length_take, length_drop. lia. }
    assert (Hlen : length (take n xs ++ drop (S n) xs) ≠ cap).
    { rewrite length_app, length_take, length_drop. lia. }
    rewrite decide_False in Hv2 by done. rewrite (Hb Hlen) in Hrun2, Hv2.
    exists s1, (ptr_add buf n), s2. split_and!; [done..|].
    replace (take n (take n xs ++ drop (S n) xs)
             ++ value_of (ByCopy v) :: drop n (take n xs ++ drop (S n) xs)) with xs in Hv2;
      [done|].
    rewrite take_app_length' by (rewrite length_take; lia).
    rewrite drop_app_length' by (rewrite length_take; lia).
    simpl. symmetry. by apply take_drop_middle.
Qed.

(** ** Inserting at the end *)

(** X23: [Emplace] and [Insert] at [end()] are [EmplaceBack]: same
    outcome, same state.  So, unlike an insertion before an element of a
    full vector, they have the strong guarantee for every safe
    relocation: they return only if no operation threw, and if they
    throw, the state is as before the call, up to the trace. *)
Theorem Emplace_at_end_has_strong_guarantee s this buf xs cap args :
  is_vector s this buf xs cap →
  Emplace this (ptr_add buf (length xs)) args s = EmplaceBack this args s
  ∧ (∀ v, Insert_copy this (ptr_add buf (length xs)) v s = EmplaceBack this (ByCopy v) s)
  ∧ (∀ v, Insert_move this (ptr_add buf (length xs)) v s = EmplaceBack this (ByMove v) s)
  ∧ (safe_relocation →
     strong_guarantee s (Emplace this (ptr_add buf (length xs)) args s)
       (fun s' => ∃ buf', is_vector s' this buf' (xs ++ [value_of args])
                    (if decide (length xs = cap)
                     then (if decide (length xs = 0) then 1 else length xs * 2)
                     else cap))).
Proof.
  intros Hv.
  pose proof (is_vector_raw_at _ _ _ _ _ Hv) as Hraw.
  pose proof (is_vector_size_at _ _ _ _ _ Hv) as Hsize.
  pose proof Hv as (_ & Hle & _).
  assert (Heq : ∀ a, Emplace this (ptr_add buf (length xs)) a s = EmplaceBack this a s).
  { intros a. unfold Emplace. rewrite (cend_bind _ _ _ _ _ Hraw Hsize) by done.
    cbn [buffer_]. by rewrite decide_True. }
  split_and!; [apply Heq|intros v; apply Heq|intros v; apply Heq|].
  intros Hsafe. rewrite Heq. by apply (EmplaceBack_guarantee_safe s this buf xs cap).
Qed.

(** ** Insertion into a full vector with a move constructor that is [noexcept] *)

(** X24: for an element type whose move constructor is [noexcept],
    [Emplace] before an element of a full vector has the strong
    guarantee: the relocation of prefix and suffix cannot fail, and if
    the allocation or the constructor of the new element throws, the new
    block is freed and the state is as before the call, up to the trace.
    If it returns, no operation threw and the element is at its
    position in a buffer of twice the size. *)
Theorem Emplace_into_full_vector_by_noexcept_move_is_strong s this buf xs cap n args :
  is_nothrow_move_constructible = true →
  is_vector s this buf xs cap → n < length xs → length xs = cap →
  strong_guarantee s (Emplace this (ptr_add buf n) args s)
    (fun s' => ∃ buf', is_vector s' this buf'
                 (take n xs ++ value_of args :: drop n xs) (length xs * 2)).
Proof.
  intros Hmv Hv Hn Hfull.
  assert (Hrel : relocate_by_move = true) by (unfold relocate_by_move; by rewrite Hmv).
  pose proof (is_vector_raw_at _ _ _ _ _ Hv) as Hraw.
  pose proof (is_vector_size_at _ _ _ _ _ Hv) as Hsize.
  destruct (is_vector_block _ _ _ _ _ Hv) as (b & -> & Hb); [lia|].
  unfold layout in Hb. rewrite <- Hfull, Nat.sub_diag in Hb. simpl in Hb.
  set (v := value_of args). set (len := length xs) in *.
  set (c := len * 2).
  assert (Htake : length (take n xs) = n) by (rewrite length_take; lia).
  assert (Hdrop : length (drop n xs) = len - n) by (by rewrite length_drop).
  unfold Emplace.
  rewrite (cend_bind _ _ _ _ _ Hraw Hsize) by (simpl; lia). simpl.
  rewrite decide_False by (intros [=]; lia).
  rewrite (get_size_bind _ _ _ _ Hsize). unfold Capacity.
  rewrite (RawMemory_Capacity_bind _ _ _ _ Hraw). simpl.
  rewrite decide_True by done. rewrite (decide_False (P := len = 0)) by lia.
  rewrite Hrel. fold c.
  match goal with |- context [with_RawMemory _ ?body] => set (bdy := body) end.
  destruct (throws (trace s) (EvNew c)) eqn:Hthrow.
  { destruct (with_RawMemory_alloc_Throw c bdy s) as (s' & -> & Hun); [unfold c; lia|done|].
    exact Hun. }
  destruct (with_RawMemory_cases c bdy s)
    as (s1 & b' & Hfresh & Hvs1 & Hls1 & Hm1 & Hq1 & HRet & HThrow); [unfold c; lia|done|].
  set (i := length (locals s)) in *.
  assert (Hbb' : b ≠ b') by (intros ->; congruence).
  assert (Hraw1 : raw_at s1 (DataOf this) = Some (mkRawMemory (Ptr b 0) cap))
    by (simpl; by rewrite Hvs1).
  assert (Hsz1 : size_at s1 this = Some len) by (unfold size_at; by rewrite Hvs1).
  assert (Hloc1 : raw_at s1 (Local i) = Some (mkRawMemory (Ptr b' 0) c)).
  { simpl. rewrite Hls1. apply lookup_snoc_length. }
  assert (Hstart : bdy (Local i) s1
                   = (construct_at (Ptr b' n) args ;;;
                      (let* b0 := begin this in
                       let* d := GetAddress (Local i) in
                       uninitialized_move_n b0 n d ;;; ret ()) ;;;
                      (let* src := RawMemory_plus (DataOf this) n in
                       let* d := RawMemory_plus (Local i) n in
                       uninitialized_move_n src (len - n) (ptr_add d 1) ;;; ret ()) ;;;
                      let* b0 := begin this in
                      destroy_n b0 len ;;;
                      RawMemory_Swap (DataOf this) (Local i) ;;;
                      let* b0 := begin this in
                      set_size this (S len) ;;; ret (ptr_add b0 n)) s1).
  { unfold bdy.
    rewrite (begin_bind _ _ _ _ Hraw1). cbn [buffer_].
    rewrite decide_True by (split; [done|lia]). cbn [from_option].
    rewrite bind_ret, Nat.sub_0_r.
    by rewrite (RawMemory_plus_bind _ _ _ _ _ Hloc1) by (simpl; unfold c; lia). }
  (* the new element *)
  pose proof (construct_at_cases s1 b' n (replicate c None) args) as Hcons.
  rewrite Hm1, lookup_insert_eq, length_replicate in Hcons.
  specialize (Hcons eq_refl ltac:(unfold c; lia)).
  unfold bind at 1 in Hstart.
  destruct (construct_at (Ptr b' n) args s1) as [[] sa|sa|]; [| |done].
  2:{ (* the constructor of the new element throws *)
      destruct Hcons as (Hvsa & Hlsa & Hma).
      destruct (HThrow sa (mkRawMemory (Ptr b' 0) c) Hstart)
        as (s3 & -> & Hvs3 & Hls3 & Hm3).
      { simpl. rewrite Hlsa. exact Hloc1. }
      { rewrite Hlsa, Hls1, length_app. simpl. lia. }
      { simpl. rewrite Hma, Hm1, lookup_insert_eq. by eexists. }
      unfold strong_guarantee, unchanged.
      rewrite Hvs3, Hls3, Hm3, Hvsa, Hlsa, Hma, Hvs1, Hls1, Hm1.
      split_and!; [done|by apply take_app_length|].
      simpl. by rewrite delete_insert_eq, delete_id. }
  destruct Hcons as (Hb'a & Hfra & Hqa).
  rewrite insert_replicate_raw in Hb'a by (unfold c; lia). fold v in Hb'a.
  assert (Hba : mem sa !! b = Some ([] ++ (Some <$> take n xs) ++ (Some <$> drop n xs))).
  { destruct Hfra as (_ & _ & Hfra). rewrite Hfra, Hm1, lookup_insert_ne by done.
    by rewrite Hb, app_nil_r, <- fmap_app, take_drop. }
  (* the prefix *)
  destruct (uninitialized_move_n_nothrow sa b 0 [] (take n xs) (Some <$> drop n xs)
              b' 0 [] (replicate n None) (Some v :: replicate (c - S n) None) Hmv)
    as (sb & ab & Hrunb & Hbb & Hb'b & Hfrb & Htrb); [done|done|done| |done|done|].
  { by rewrite length_replicate, Htake. }
  rewrite Htake in Hrunb. simpl in Hbb, Hb'b.
  (* the suffix *)
  destruct (uninitialized_move_n_nothrow sb b n (Some ∘ moved_from <$> take n xs)
              (drop n xs) [] b' (n + 1) ((Some <$> take n xs) ++ [Some v])
              (replicate (len - n) None) (replicate (c - S len) None) Hmv)
    as (sc & ac & Hrunc & Hbc & Hb'c & Hfrc & Htrc).
  { done. }
  { rewrite length_fmap. lia. }
  { rewrite length_app, length_fmap. simpl. lia. }
  { by rewrite length_replicate, Hdrop. }
  { by rewrite Hbb, app_nil_r. }
  { rewrite Hb'b, <- app_assoc, <- replicate_add. simpl. do 4 f_equal. unfold c. lia. }
  rewrite Hdrop in Hrunc.
  (* the old elements *)
  destruct (destroy_n_Ret sc b 0 [] (moved_from <$> xs) [])
    as (sd & Hrund & Hbd & Htrd & Hfrd).
  { done. }
  { rewrite Hbc, !app_nil_r. cbn [app]. f_equal.
    rewrite <- fmap_app, take_drop. by rewrite list_fmap_compose. }
  rewrite length_fmap in Hrund. fold len in Hrund.
  assert (Hobj : ∀ r, raw_at sd r = raw_at s1 r).
  { intros r. rewrite (frame2_raw_at _ _ _ _ _ Hfrd), (frame2_raw_at _ _ _ _ _ Hfrc),
      (frame2_raw_at _ _ _ _ _ Hfrb), (frame2_raw_at _ _ _ _ _ Hfra). done. }
  assert (Hszs : ∀ w, size_at sd w = size_at s1 w).
  { intros w. rewrite (frame2_size_at _ _ _ _ _ Hfrd), (frame2_size_at _ _ _ _ _ Hfrc),
      (frame2_size_at _ _ _ _ _ Hfrb), (frame2_size_at _ _ _ _ _ Hfra). done. }
  destruct (RawMemory_Swap_Ret sd (DataOf this) (Local i) _ _
              (eq_trans (Hobj _) Hraw1) (eq_trans (Hobj _) Hloc1))
    as (se & Hrune & Hthise & Hloce & _ & Hsze & Hlene & Hme & Htre).
  rewrite decide_False in Hloce by done.
  assert (Hsizee : size_at se this = Some len) by (by rewrite Hsze, Hszs).
  assert (Hbody : bdy (Local i) s1 = Ret (Ptr b' (0 + n)) (put_size this (S len) se)).
  { rewrite Hstart.
    assert (Hrawa : raw_at sa (DataOf this) = Some (mkRawMemory (Ptr b 0) cap))
      by (by rewrite (frame2_raw_at _ _ _ _ _ Hfra)).
    assert (Hloca : raw_at sa (Local i) = Some (mkRawMemory (Ptr b' 0) c))
      by (by rewrite (frame2_raw_at _ _ _ _ _ Hfra)).
    assert (Hrawb : raw_at sb (DataOf this) = Some (mkRawMemory (Ptr b 0) cap))
      by (by rewrite (frame2_raw_at _ _ _ _ _ Hfrb)).
    assert (Hlocb : raw_at sb (Local i) = Some (mkRawMemory (Ptr b' 0) c))
      by (by rewrite (frame2_raw_at _ _ _ _ _ Hfrb)).
    erewrite bind_Ret; cycle 1.
    { rewrite (begin_bind _ _ _ _ Hrawa), (GetAddress_bind _ _ _ _ Hloca).
      cbn [buffer_]. by rewrite (bind_Ret _ _ _ _ _ Hrunb). }
    erewrite bind_Ret; cycle 1.
    { rewrite (RawMemory_plus_bind _ _ _ _ _ Hrawb) by (simpl; lia).
      rewrite (RawMemory_plus_bind _ _ _ _ _ Hlocb) by (simpl; unfold c; lia).
      cbn [buffer_ ptr_add]. by rewrite (bind_Ret _ _ _ _ _ Hrunc). }
    rewrite (begin_bind _ _ _ _ (eq_trans (frame2_raw_at _ _ _ _ _ Hfrc) Hrawb)). simpl.
    rewrite (bind_Ret _ _ _ _ _ Hrund), (bind_Ret _ _ _ _ _ Hrune).
    rewrite (begin_bind _ _ _ _ Hthise). simpl.
    by rewrite (set_size_bind _ _ _ _ _ Hsizee). }
  destruct (HRet _ _ (mkRawMemory (Ptr b 0) cap) Hbody)
    as (s3 & -> & Hvs3 & _ & Hm3 & Hq3).
  { by rewrite raw_at_put_size. }
  { simpl. rewrite Hlene.
    destruct Hfrd as (_ & -> & _), Hfrc as (_ & -> & _), Hfrb as (_ & -> & _),
      Hfra as (_ & -> & _). rewrite Hls1, length_app. simpl. lia. }
  { simpl. rewrite Hme, Hbd. by eexists. }
  split.
  - eapply quiet_trans; [|exact Hq3]. apply quiet_put_size.
    eapply quiet_trans; [exact Hq1|]. eapply quiet_trans; [exact Hqa|].
    eapply quiet_events.
    + rewrite Htre, Htrd, Htrc, Htrb, <- !app_assoc. done.
    + rewrite !Forall_app. split_and!; apply Forall_fmap; by apply Forall_true.
  - exists (Ptr b' 0). apply is_vector_intro.
    + simpl. rewrite Hvs3.
      change (raw_at (put_size this (S len) se) (DataOf this) = Some (mkRawMemory (Ptr b' 0) c)).
      by rewrite raw_at_put_size.
    + unfold size_at. rewrite Hvs3.
      change (size_at (put_size this (S len) se) this
              = Some (length (take n xs ++ v :: drop n xs))).
      rewrite size_at_put_same, Hsizee, length_app. simpl. rewrite Htake, Hdrop.
      f_equal. lia.
    + rewrite length_app. simpl. rewrite Htake, Hdrop. unfold c. lia.
    + simpl. rewrite Hm3. simpl. rewrite lookup_delete_ne by done.
      rewrite Hme.
      destruct Hfrd as (_ & _ & Hfrd). rewrite Hfrd by done.
      rewrite Hb'c. f_equal. rewrite layout_insert by (fold len; unfold c; lia).
      by rewrite <- !app_assoc.
Qed.

(** ** Shifting elements in place under an arbitrary oracle *)

Lemma insert_window {X} (pre post : list (option X)) (ys : list X) i (v : X) :
  length pre ≤ i → i < length pre + length ys →
  <[i := Some v]> (pre ++ (Some <$> ys) ++ post)
  = pre ++ (Some <$> <[i - length pre := v]> ys) ++ post.
Proof.
  intros H1 H2. rewrite insert_app_r_alt by done. f_equal.
  rewrite insert_app_l by (rewrite length_fmap; lia).
  by rewrite list_fmap_insert.
Qed.

Lemma lookup_window {X} (pre post : list (option X)) (ys : list X) i :
  length pre ≤ i → i < length pre + length ys →
  ∃ v, (pre ++ (Some <$> ys) ++ post) !! i = Some (Some v).
Proof.
  intros H1 H2. rewrite lookup_app_r by done.
  rewrite lookup_app_l by (rewrite length_fmap; lia).
  destruct (lookup_lt_is_Some_2 ys (i - length pre)) as [v Hv]; [lia|].
  exists v. by rewrite list_lookup_fmap, Hv.
Qed.

(** A move assignment between two objects of a window of live objects:
    the window stays a window of live objects, whatever happens. *)
Lemma move_assign_window s b pre (ys : list T) post od os :
  mem s !! b = Some (pre ++ (Some <$> ys) ++ post) →
  length pre ≤ od → od < length pre + length ys →
  length pre ≤ os → os < length pre + length ys →
  match move_assign (Ptr b od) (Ptr b os) s with
  | Ret _ s' => (∃ zs, length zs = length ys
                       ∧ mem s' !! b = Some (pre ++ (Some <$> zs) ++ post))
                ∧ frame2 s s' b b ∧ quiet s s'
  | Throw s' => unchanged s s'
  | Undef => False
  end.
Proof.
  intros Hb Hd1 Hd2 Hs1 Hs2.
  destruct (lookup_window pre post ys os Hs1 Hs2) as [v Hv].
  destruct (lookup_window pre post ys od Hd1 Hd2) as [old Hold].
  unfold move_assign.
  erewrite !load_bind by (erewrite slot_of_lookup; eauto).
  unfold bind at 1. unfold attempt.
  destruct (throws (trace s) (EvAssignMove v old)); [done|].
  erewrite bind_Ret by (apply put_slot_Ret; [done|by eapply lookup_lt_Some]).
  erewrite put_slot_Ret;
    [|simpl; by rewrite lookup_insert_eq
     |rewrite length_insert; by eapply lookup_lt_Some].
  split_and!.
  - exists (<[os - length pre := moved_from v]> (<[od - length pre := v]> ys)).
    split; [by rewrite !length_insert|]. simpl. rewrite lookup_insert_eq.
    rewrite insert_window by done. rewrite insert_window by (rewrite ?length_insert; done).
    done.
  - unfold frame2. simpl. split_and!; [done..|].
    intros b' ? _. by rewrite !lookup_insert_ne.
  - apply quiet_events with [EvAssignMove v old]; [done|]. by constructor.
Qed.

Lemma move_loop_window s b pre (ys : list T) post k src dst :
  mem s !! b = Some (pre ++ (Some <$> ys) ++ post) →
  length pre ≤ dst → dst + k ≤ length pre + length ys →
  length pre ≤ src → src + k ≤ length pre + length ys →
  match move_loop (Ptr b src) k (Ptr b dst) s with
  | Ret _ s' => (∃ zs, length zs = length ys
                       ∧ mem s' !! b = Some (pre ++ (Some <$> zs) ++ post))
                ∧ frame2 s s' b b ∧ quiet s s'
  | Throw s' => (∃ zs, length zs = length ys
                       ∧ mem s' !! b = Some (pre ++ (Some <$> zs) ++ post))
                ∧ frame2 s s' b b
  | Undef => False
  end.
Proof.
  revert s ys src dst. induction k as [|k IH]; intros s ys src dst Hb Hd1 Hd2 Hs1 Hs2.
  - simpl. split_and!; [by exists ys|apply frame2_refl|apply quiet_refl].
  - cbn [move_loop]. unfold bind at 1.
    pose proof (move_assign_window s b pre ys post dst src Hb) as Hm.
    destruct (move_assign (Ptr b dst) (Ptr b src) s) as [[] s1|s1|].
    + destruct Hm as ((zs & Hzs & Hb1) & Hfr1 & Hq1); [lia..|].
      specialize (IH s1 zs (src + 1) (dst + 1) Hb1). simpl ptr_add.
      destruct (move_loop (Ptr b (src + 1)) k (Ptr b (dst + 1)) s1) as [a s2|s2|].
      * destruct IH as ((zs2 & Hzs2 & Hb2) & Hfr2 & Hq2); [lia..|].
        split_and!; [|by eapply frame2_trans|by eapply quiet_trans].
        exists zs2. split; [congruence|done].
      * destruct IH as ((zs2 & Hzs2 & Hb2) & Hfr2); [lia..|].
        split; [|by eapply frame2_trans]. exists zs2. split; [congruence|done].
      * apply IH; lia.
    + destruct Hm as (Hvs & Hls & Hmm); [lia..|]. split.
      * exists ys. split; [done|]. by rewrite Hmm.
      * split_and!; [done..|]. intros b0 _ _. by rewrite Hmm.
    + apply Hm; lia.
Qed.

Lemma move_backward_loop_window s b pre (ys : list T) post k last d_last :
  mem s !! b = Some (pre ++ (Some <$> ys) ++ post) →
  length pre + k ≤ last → last ≤ length pre + length ys →
  length pre + k ≤ d_last → d_last ≤ length pre + length ys →
  match move_backward_loop k (Ptr b last) (Ptr b d_last) s with
  | Ret _ s' => (∃ zs, length zs = length ys
                       ∧ mem s' !! b = Some (pre ++ (Some <$> zs) ++ post))
                ∧ frame2 s s' b b ∧ quiet s s'
  | Throw s' => (∃ zs, length zs = length ys
                       ∧ mem s' !! b = Some (pre ++ (Some <$> zs) ++ post))
                ∧ frame2 s s' b b
  | Undef => False
  end.
Proof.
  revert s ys last d_last.
  induction k as [|k IH]; intros s ys last d_last Hb Hl1 Hl2 Hd1 Hd2.
  - simpl. split_and!; [by exists ys|apply frame2_refl|apply quiet_refl].
  - cbn [move_backward_loop].
    destruct last as [|last]; [lia|]. destruct d_last as [|d_last]; [lia|].
    cbn [ptr_pred from_option]. rewrite !bind_ret. unfold bind at 1.
    pose proof (move_assign_window s b pre ys post d_last last Hb) as Hm.
    destruct (move_assign (Ptr b d_last) (Ptr b last) s) as [[] s1|s1|].
    + destruct Hm as ((zs & Hzs & Hb1) & Hfr1 & Hq1); [lia..|].
      specialize (IH s1 zs last d_last Hb1).
      destruct (move_backward_loop k (Ptr b last) (Ptr b d_last) s1) as [a s2|s2|].
      * destruct IH as ((zs2 & Hzs2 & Hb2) & Hfr2 & Hq2); [lia..|].
        split_and!; [|by eapply frame2_trans|by eapply quiet_trans].
        exists zs2. split; [congruence|done].
      * destruct IH as ((zs2 & Hzs2 & Hb2) & Hfr2); [lia..|].
        split; [|by eapply frame2_trans]. exists zs2. split; [congruence|done].
      * apply IH; lia.
    + destruct Hm as (Hvs & Hls & Hmm); [lia..|]. split.
      * exists ys. split; [done|]. by rewrite Hmm.
      * split_and!; [done..|]. intros b0 _ _. by rewrite Hmm.
    + apply Hm; lia.
Qed.
(** X25: whatever throws, [Erase] at a position below the size has
    defined behaviour and gives the basic guarantee.  If a move
    assignment of the shift throws, the vector is still a valid vector
    of its old size in its old buffer, and the elements before the
    position are untouched; the ones from the position on are live
    objects, some of them moved from.  If it returns, no operation threw
    and the vector is one element shorter. *)
Theorem Erase_failure_keeps_a_valid_vector s this buf xs cap n :
  is_vector s this buf xs cap → n < length xs →
  match Erase this (ptr_add buf n) s with
  | Ret _ s' => quiet s s'
                ∧ ∃ zs, length zs = length xs - S n
                        ∧ is_vector s' this buf (take n xs ++ zs) cap
  | Throw s' => ∃ zs, length zs = length xs - n
                      ∧ is_vector s' this buf (take n xs ++ zs) cap
  | Undef => False
  end.
Proof.
  intros Hv Hn.
  pose proof (is_vector_raw_at _ _ _ _ _ Hv) as Hraw.
  pose proof (is_vector_size_at _ _ _ _ _ Hv) as Hsize.
  pose proof Hv as (_ & Hle & _).
  destruct (is_vector_block _ _ _ _ _ Hv) as (b & -> & Hb); [lia|].
  assert (Htake : length (take n xs) = n) by (rewrite length_take; lia).
  assert (Hb0 : mem s !! b = Some ((Some <$> take n xs) ++ (Some <$> drop n xs)
                                     ++ replicate (cap - length xs) None)).
  { rewrite Hb. unfold layout. by rewrite app_assoc, <- fmap_app, take_drop. }
  assert (Hvalid : ∀ s1 zs, length zs = length xs - n →
            mem s1 !! b = Some ((Some <$> take n xs) ++ (Some <$> zs)
                                  ++ replicate (cap - length xs) None) →
            frame2 s s1 b b →
            is_vector s1 this (Ptr b 0) (take n xs ++ zs) cap).
  { intros s1 zs Hzs Hb1 Hfr.
    assert (Hlen : length (take n xs ++ zs) = length xs)
      by (rewrite length_app, Htake; lia).
    apply is_vector_intro.
    - by rewrite (frame2_raw_at _ _ _ _ _ Hfr).
    - by rewrite (frame2_size_at _ _ _ _ _ Hfr), Hlen.
    - lia.
    - simpl. rewrite Hb1. unfold layout. by rewrite Hlen, fmap_app, <- app_assoc. }
  unfold Erase.
  rewrite (end_bind _ _ _ _ _ Hraw Hsize) by done.
  simpl. unfold std_move.
  rewrite bind_assoc, ptr_diff_same by lia. cbn [from_option]. rewrite bind_ret.
  pose proof (move_loop_window s b (Some <$> take n xs) (drop n xs)
                (replicate (cap - length xs) None) (length xs - (n + 1)) (n + 1) n Hb0) as Hm.
  rewrite length_fmap, Htake, length_drop in Hm.
  unfold bind at 1.
  destruct (move_loop (Ptr b (n + 1)) (length xs - (n + 1)) (Ptr b n) s) as [a s1|s1|].
  - destruct Hm as ((zs & Hzs & Hb1) & Hfr1 & Hq1); [lia..|].
    destruct (snoc_exists zs) as (zs0 & l & ->); [lia|].
    rewrite length_app in Hzs. simpl in Hzs.
    pose proof (Hvalid s1 (zs0 ++ [l])) as Hv1. rewrite length_app in Hv1. simpl in Hv1.
    specialize (Hv1 Hzs Hb1 Hfr1). rewrite app_assoc in Hv1.
    destruct (PopBack_Ret _ _ _ _ _ _ Hv1) as (s2 & Hrun2 & Hv2 & Htr2).
    rewrite (bind_Ret _ _ _ _ _ Hrun2). unfold ret. split.
    + eapply quiet_trans; [done|]. eapply quiet_events; [done|]. by repeat constructor.
    + exists zs0. split; [lia|done].
  - destruct Hm as ((zs & Hzs & Hb1) & Hfr1); [lia..|].
    exists zs. split; [done|]. by apply Hvalid.
  - apply Hm; lia.
Qed.

(** ** Insertion in place under an arbitrary oracle *)

(** The block [{ T new_elem(args...); body }] for any oracle: either the
    constructor of the local throws and nothing has changed, or the body
    runs with the local in a fresh block of one slot, and the local is
    destroyed and its storage gone however the body is left. *)
Lemma with_local_T_cases {R} args (body : ptr → M R) s :
  ∃ bf, mem s !! bf = None
    ∧ ((∃ s', with_local_T args body s = Throw s' ∧ unchanged s s')
       ∨ ∃ s1, vecs s1 = vecs s ∧ locals s1 = locals s
           ∧ mem s1 = <[bf := [Some (value_of args)]]> (mem s)
           ∧ quiet s s1
           ∧ (∀ a s2 w,
                body (Ptr bf 0) s1 = Ret a s2 →
                mem s2 !! bf = Some [Some w] →
                ∃ s3, with_local_T args body s = Ret a s3
                      ∧ vecs s3 = vecs s2 ∧ locals s3 = locals s2
                      ∧ mem s3 = delete bf (mem s2)
                      ∧ quiet s2 s3)
           ∧ (∀ s2 w,
                body (Ptr bf 0) s1 = Throw s2 →
                mem s2 !! bf = Some [Some w] →
                ∃ s3, with_local_T args body s = Throw s3
                      ∧ vecs s3 = vecs s2 ∧ locals s3 = locals s2
                      ∧ mem s3 = delete bf (mem s2))).
Proof.
  set (bf := fresh (dom (mem s))).
  set (s0 := set_mem <[bf := [None]]> s).
  assert (Hfresh : mem s !! bf = None) by exact (fresh_block_None s).
  exists bf. split; [done|].
  pose proof (construct_at_cases s0 bf 0 [None] args) as Hc.
  assert (Hstart : ∀ (m : M R), with_local_T args body s
            = finally (construct_at (Ptr bf 0) args ;;;
                       finally (body (Ptr bf 0)) (destroy_at (Ptr bf 0)))
                      (pop_frame (Ptr bf 0)) s0) by done.
  destruct (construct_at (Ptr bf 0) args s0) as [[] s1|s1|] eqn:Hrun1.
  - destruct Hc as (Hb1 & (Hvs1 & Hls1 & Hfr1) & Hq1);
      [simpl; by rewrite lookup_insert_eq|simpl; lia|].
    simpl in Hb1. right. exists s1. split_and!; [done|done| |done| |].
    + apply map_eq. intros b. destruct (decide (b = bf)) as [->|].
      * by rewrite Hb1, lookup_insert_eq.
      * rewrite Hfr1 by done. simpl. by rewrite !lookup_insert_ne.
    + intros a s2 w Hbody Hw.
      destruct (destroy_at_Ret s2 bf 0 _ w Hw) as (s3 & Hrun3 & Hb3 & Htr3 & Hvs3 & Hls3 & Hfr3);
        [done|].
      eexists. split.
      { rewrite (Hstart (ret a)). eapply finally_Ret; [|reflexivity].
        rewrite (bind_Ret _ _ _ _ _ Hrun1). by eapply finally_Ret. }
      simpl. split_and!; [done|done| |].
      * apply map_eq. intros b. destruct (decide (b = bf)) as [->|].
        -- by rewrite !lookup_delete_eq.
        -- rewrite !lookup_delete_ne by done. by apply Hfr3.
      * apply quiet_events with [EvDtor w]; [done|]. by constructor.
    + intros s2 w Hbody Hw.
      destruct (destroy_at_Ret s2 bf 0 _ w Hw) as (s3 & Hrun3 & Hb3 & Htr3 & Hvs3 & Hls3 & Hfr3);
        [done|].
      eexists. split.
      { rewrite (Hstart rethrow). eapply finally_Throw; [|reflexivity].
        rewrite (bind_Ret _ _ _ _ _ Hrun1). by eapply finally_Throw. }
      simpl. split_and!; [done|done|].
      apply map_eq. intros b. destruct (decide (b = bf)) as [->|].
      * by rewrite !lookup_delete_eq.
      * rewrite !lookup_delete_ne by done. by apply Hfr3.
  - destruct Hc as (Hvs1 & Hls1 & Hm1);
      [simpl; by rewrite lookup_insert_eq|simpl; lia|].
    left. eexists. split.
    { rewrite (Hstart rethrow). eapply finally_Throw; [|reflexivity].
      unfold bind. by rewrite Hrun1. }
    unfold unchanged. simpl. split_and!; [done|done|].
    rewrite Hm1. simpl. apply map_eq. intros b. destruct (decide (b = bf)) as [->|].
    + by rewrite lookup_delete_eq.
    + by rewrite lookup_delete_ne, lookup_insert_ne.
  - exfalso. apply Hc; simpl; [by rewrite lookup_insert_eq|lia].
Qed.

(** Move construction of the last element into the raw slot behind it. *)
Lemma move_construct_last_cases s b pre (ys : list T) l post :
  mem s !! b = Some (pre ++ (Some <$> ys ++ [l]) ++ None :: post) →
  match move_construct (Ptr b (length pre + S (length ys)))
          (Ptr b (length pre + length ys)) s with
  | Ret _ s' => mem s' !! b
                = Some (pre ++ (Some <$> ys ++ [moved_from l; l]) ++ post)
                ∧ frame2 s s' b b ∧ quiet s s'
  | Throw s' => unchanged s s'
  | Undef => False
  end.
Proof.
  intros Hb. unfold move_construct.
  assert (Hsrc : (pre ++ (Some <$> ys ++ [l]) ++ None :: post) !! (length pre + length ys)
                 = Some (Some l)).
  { rewrite lookup_app_r by lia. rewrite lookup_app_l by (rewrite length_fmap, length_app; simpl; lia).
    rewrite list_lookup_fmap. replace (length pre + length ys - length pre) with (length ys) by lia.
    by rewrite list_lookup_middle. }
  assert (Hdst : (pre ++ (Some <$> ys ++ [l]) ++ None :: post) !! (length pre + S (length ys))
                 = Some None).
  { rewrite lookup_app_r by lia. rewrite lookup_app_r by (rewrite length_fmap, length_app; simpl; lia).
    rewrite length_fmap, length_app. simpl.
    by replace (length pre + S (length ys) - length pre - (length ys + 1)) with 0 by lia. }
  erewrite load_bind by (erewrite slot_of_lookup; eauto).
  erewrite get_slot_bind by (erewrite slot_of_lookup; eauto).
  pose proof (attempt_move_cases (EvCtorMove l) s eq_refl) as Ha.
  unfold bind at 1.
  destruct (attempt_move (EvCtorMove l) s) as [[] s1|s1|]; [|done..].
  destruct Ha as ((Hvs & Hls & Hm) & Hq).
  erewrite bind_Ret by (apply put_slot_Ret; [by rewrite Hm|by eapply lookup_lt_Some]).
  erewrite put_slot_Ret;
    [|simpl; by rewrite lookup_insert_eq
     |rewrite length_insert; by eapply lookup_lt_Some].
  split_and!.
  - simpl. rewrite lookup_insert_eq. f_equal.
    rewrite insert_app_r_alt by lia. rewrite insert_app_r_alt by lia.
    f_equal.
    replace (length pre + length ys - length pre) with (length ys) by lia.
    replace (length pre + S (length ys) - length pre) with (S (length ys)) by lia.
    rewrite !fmap_app. simpl. rewrite <- !app_assoc. simpl.
    rewrite <- (length_fmap Some ys).
    rewrite insert_app_r_alt by lia. rewrite Nat.sub_diag. simpl.
    rewrite insert_app_r_alt by lia.
    by replace (S (length (Some <$> ys)) - length (Some <$> ys)) with 1 by lia.
  - unfold frame2. simpl. rewrite Hvs, Hls. split_and!; [done..|].
    intros b' ? _. by rewrite !lookup_insert_ne, Hm.
  - destruct Hq as (es & Htr & F). by exists es.
Qed.

(** Move assignment from an object in another block to an element of the
    window. *)
Lemma move_assign_into_window s bf (v : T) b pre (ys : list T) post od :
  bf ≠ b →
  mem s !! bf = Some [Some v] →
  mem s !! b = Some (pre ++ (Some <$> ys) ++ post) →
  length pre ≤ od → od < length pre + length ys →
  match move_assign (Ptr b od) (Ptr bf 0) s with
  | Ret _ s' => (∃ zs, length zs = length ys
                       ∧ mem s' !! b = Some (pre ++ (Some <$> zs) ++ post))
                ∧ mem s' !! bf = Some [Some (moved_from v)]
                ∧ frame2 s s' bf b ∧ quiet s s'
  | Throw s' => unchanged s s'
  | Undef => False
  end.
Proof.
  intros Hne Hf Hb Hd1 Hd2.
  destruct (lookup_window pre post ys od Hd1 Hd2) as [old Hold].
  unfold move_assign.
  rewrite (load_bind s (Ptr bf 0) v) by (by rewrite (slot_of_lookup _ _ _ _ Hf)).
  rewrite (load_bind s (Ptr b od) old) by (by rewrite (slot_of_lookup _ _ _ _ Hb)).
  unfold bind at 1. unfold attempt.
  destruct (throws (trace s) (EvAssignMove v old)); [done|].
  erewrite bind_Ret by (apply put_slot_Ret; [exact Hb|by eapply lookup_lt_Some]).
  erewrite put_slot_Ret;
    [|simpl; rewrite lookup_insert_ne by done; exact Hf
     |simpl; lia].
  split_and!.
  - exists (<[od - length pre := v]> ys).
    split; [by rewrite !length_insert|]. simpl.
    rewrite lookup_insert_ne, lookup_insert_eq by done.
    by rewrite insert_window.
  - simpl. by rewrite lookup_insert_eq.
  - unfold frame2. simpl. split_and!; [done..|].
    intros b' ? ?. by rewrite !lookup_insert_ne.
  - apply quiet_events with [EvAssignMove v old]; [done|]. by constructor.
Qed.
Lemma layout_lookup_live (xs : list T) cap i :
  i < length xs → ∃ v, layout xs cap !! i = Some (Some v).
Proof.
  intros Hi. destruct (lookup_lt_is_Some_2 xs i Hi) as [v Hv]. exists v.
  unfold layout. rewrite lookup_app_l by (by rewrite length_fmap).
  by rewrite list_lookup_fmap, Hv.
Qed.

Lemma layout_lookup_raw (xs : list T) cap i :
  length xs ≤ i → i < cap → layout xs cap !! i = Some None.
Proof.
  intros Hi Hc. unfold layout. rewrite lookup_app_r by (by rewrite length_fmap).
  rewrite length_fmap. apply lookup_replicate_2. lia.
Qed.

(** A block determines how many live objects a vector can have in it. *)
Lemma layout_length_inj (xs ys : list T) cap :
  length xs ≤ cap → length ys ≤ cap → layout xs cap = layout ys cap →
  length xs = length ys.
Proof.
  intros Hx Hy Heq.
  destruct (decide (length xs < length ys)) as [Hlt|Hge].
  { destruct (layout_lookup_live ys cap (length xs) Hlt) as [v Hv].
    rewrite <- Heq, layout_lookup_raw in Hv by lia. done. }
  destruct (decide (length ys < length xs)) as [Hlt|Hge']; [|lia].
  destruct (layout_lookup_live xs cap (length ys) Hlt) as [v Hv].
  rewrite Heq, layout_lookup_raw in Hv by lia. done.
Qed.

(** X26: [Emplace] before the end of a vector with room, whatever
    throws.  Its behaviour is defined.  If it returns, no operation threw
    and the vector is valid, in its buffer, one element longer and with
    the elements before the position untouched.  If it throws, then
    either nothing has changed (the constructor of the new element or
    the move construction of the last element threw), or a move
    assignment threw: then the vector object is unchanged, so its size is
    the old one, but the buffer holds one live object more than the
    size, at the slot behind the last element, so the vector is no
    longer valid and that object is never destroyed; the elements before
    the position and all other memory are untouched. *)
Theorem Emplace_in_place_failure_behaviour s this buf xs cap n args :
  is_vector s this buf xs cap → n < length xs → length xs < cap →
  match Emplace this (ptr_add buf n) args s with
  | Ret p s' => p = ptr_add buf n ∧ quiet s s'
                ∧ ∃ zs, length zs = S (length xs - n)
                        ∧ is_vector s' this buf (take n xs ++ zs) cap
  | Throw s' => unchanged s s'
                ∨ (vecs s' = vecs s ∧ locals s' = locals s
                   ∧ (∃ zs, length zs = S (length xs - n)
                            ∧ block_of s' buf = Some (layout (take n xs ++ zs) cap))
                   ∧ (∀ b, buf ≠ Ptr b 0 → mem s' !! b = mem s !! b)
                   ∧ ∀ ws, ¬ is_vector s' this buf ws cap)
  | Undef => False
  end.
Proof.
  intros Hv Hn Hroom.
  pose proof (is_vector_raw_at _ _ _ _ _ Hv) as Hraw.
  pose proof (is_vector_size_at _ _ _ _ _ Hv) as Hsize.
  pose proof Hv as (Hvec & _ & _).
  destruct (is_vector_block _ _ _ _ _ Hv) as (b & -> & Hb); [lia|].
  destruct (snoc_exists xs) as (xs0 & l & Hxs); [lia|].
  set (len := length xs) in *.
  set (k := length xs0).
  assert (Hlen : len = S k) by (unfold len, k; rewrite Hxs, length_app; simpl; lia).
  set (pre := Some <$> take n xs0). set (ys := drop n xs0).
  assert (Hpre : length pre = n) by (unfold pre; rewrite length_fmap, length_take; lia).
  assert (Hys : length ys = k - n) by (unfold ys; by rewrite length_drop).
  assert (Htk : take n xs = take n xs0) by (rewrite Hxs; apply take_app_le; fold k; lia).
  set (rest := replicate (cap - S len) (@None T)) in *.
  assert (Hb0 : mem s !! b = Some (pre ++ (Some <$> ys ++ [l]) ++ None :: rest)).
  { rewrite Hb, layout_raw by done. fold len. fold rest. rewrite Hxs.
    rewrite <- (take_drop n xs0) at 1. fold ys. unfold pre.
    by rewrite <- app_assoc, !fmap_app, <- !app_assoc. }
  (* the layout of a block whose window holds [S (len - n)] live objects *)
  assert (Hlay : ∀ zs, length zs = S (len - n) →
            pre ++ (Some <$> zs) ++ rest = layout (take n xs ++ zs) cap).
  { intros zs Hzs. unfold layout, pre. rewrite Htk, fmap_app, <- app_assoc.
    do 2 f_equal. unfold rest. f_equal.
    rewrite length_app, length_take, Hzs. fold k. lia. }
  unfold Emplace.
  rewrite (cend_bind _ _ _ _ _ Hraw Hsize) by (simpl; lia). simpl.
  rewrite decide_False by (intros [=]; lia).
  rewrite (get_size_bind _ _ _ _ Hsize). unfold Capacity.
  rewrite (RawMemory_Capacity_bind _ _ _ _ Hraw). simpl.
  rewrite decide_False by lia.
  match goal with |- context [with_local_T _ ?body] => set (bdy := body) end.
  destruct (with_local_T_cases args bdy s) as (bf & Hfresh & [(s' & -> & Hun)|Hrun]);
    [by left|].
  destruct Hrun as (s1 & Hvs1 & Hls1 & Hm1 & Hq1 & HcontR & HcontT).
  set (v := value_of args) in *.
  assert (Hbf : bf ≠ b) by (intros ->; congruence).
  assert (Hraw1 : raw_at s1 (DataOf this) = Some (mkRawMemory (Ptr b 0) cap))
    by (simpl; by rewrite Hvs1).
  assert (Hsz1 : size_at s1 this = Some len) by (unfold size_at; by rewrite Hvs1).
  assert (Hb1 : mem s1 !! b = Some (pre ++ (Some <$> ys ++ [l]) ++ None :: rest))
    by (by rewrite Hm1, lookup_insert_ne).
  assert (Hf1 : mem s1 !! bf = Some [Some v]) by (by rewrite Hm1, lookup_insert_eq).
  (* the outcome of the body *)
  set (PostR := fun (p : ptr) (s2 : state) =>
         p = Ptr b n ∧ quiet s1 s2
         ∧ raw_at s2 (DataOf this) = Some (mkRawMemory (Ptr b 0) cap)
         ∧ size_at s2 this = Some (S len)
         ∧ (∃ zs, length zs = S (len - n)
                  ∧ mem s2 !! b = Some (pre ++ (Some <$> zs) ++ rest))
         ∧ ∃ w, mem s2 !! bf = Some [Some w]).
  set (PostT := fun (s2 : state) =>
         mem s2 !! bf = Some [Some v]
         ∧ vecs s2 = vecs s1 ∧ locals s2 = locals s1
         ∧ (mem s2 = mem s1
            ∨ (∃ zs, length zs = S (len - n)
                     ∧ mem s2 !! b = Some (pre ++ (Some <$> zs) ++ rest))
              ∧ ∀ b', b' ≠ b → mem s2 !! b' = mem s1 !! b')).
  assert (Hbody :
    match bdy (Ptr bf 0) s1 with
    | Ret p s2 => PostR p s2
    | Throw s2 => PostT s2
    | Undef => False
    end).
  { unfold bdy.
    rewrite (RawMemory_plus_bind _ _ _ _ _ Hraw1) by (simpl; lia). cbn [buffer_ ptr_add].
    rewrite Hlen.
    rewrite (RawMemory_index_bind _ _ _ _ _ Hraw1) by (simpl; lia). cbn [buffer_ ptr_add].
    simpl.
    pose proof (move_construct_last_cases s1 b pre ys l rest Hb1) as Hmc.
    rewrite Hpre, Hys in Hmc.
    replace (n + S (k - n)) with (S k) in Hmc by lia.
    replace (n + (k - n)) with k in Hmc by lia.
    unfold bind at 1.
    destruct (move_construct (Ptr b (S k)) (Ptr b k) s1) as [[] sa|sa|]; [| |done].
    2:{ destruct Hmc as (Hvsa & Hlsa & Hma). unfold PostT. split_and!; [by rewrite Hma|done|done|by left]. }
    destruct Hmc as (Hba & Hfra & Hqa).
    assert (Hrawa : raw_at sa (DataOf this) = Some (mkRawMemory (Ptr b 0) cap))
      by (by rewrite (frame2_raw_at _ _ _ _ _ Hfra)).
    assert (Hsza : size_at sa this = Some len)
      by (by rewrite (frame2_size_at _ _ _ _ _ Hfra)).
    rewrite (end_bind _ _ _ _ _ Hrawa Hsza) by (simpl; lia).
    cbn [buffer_ ptr_add]. simpl. rewrite Hlen. cbn [ptr_pred from_option].
    rewrite bind_ret. unfold std_move_backward.
    rewrite bind_assoc, ptr_diff_same by lia. cbn [from_option]. rewrite bind_ret.
    pose proof (move_backward_loop_window sa b pre (ys ++ [moved_from l; l]) rest
                  (k - n) k (S k) Hba) as Hmb.
    rewrite Hpre, length_app, Hys in Hmb. simpl in Hmb.
    unfold bind at 1.
    destruct (move_backward_loop (k - n) (Ptr b k) (Ptr b (S k)) sa) as [a sb|sb|].
    - destruct Hmb as ((zs & Hzs & Hbb) & Hfrb & Hqb); [lia..|].
      assert (Hfb : mem sb !! bf = Some [Some v]).
      { destruct Hfrb as (_ & _ & Hfrb), Hfra as (_ & _ & Hfra).
        by rewrite Hfrb, Hfra. }
      pose proof (move_assign_into_window sb bf v b pre zs rest n Hbf Hfb Hbb) as Hma.
      rewrite Hpre in Hma.
      unfold bind at 1.
      destruct (move_assign (Ptr b n) (Ptr bf 0) sb) as [[] sc|sc|].
      + destruct Hma as ((zs' & Hzs' & Hbc) & Hfc & Hfrc & Hqc); [lia..|].
        assert (Hszc : size_at sc this = Some len).
        { rewrite (frame2_size_at _ _ _ _ _ Hfrc), (frame2_size_at _ _ _ _ _ Hfrb). done. }
        rewrite (set_size_bind _ _ _ _ _ Hszc). unfold ret, PostR.
        split_and!; [done| | | | |by eauto].
        * apply quiet_put_size. eauto using quiet_trans.
        * rewrite raw_at_put_size, (frame2_raw_at _ _ _ _ _ Hfrc),
            (frame2_raw_at _ _ _ _ _ Hfrb). done.
        * rewrite size_at_put_same, Hszc. simpl. by rewrite Hlen.
        * exists zs'. split; [lia|done].
      + destruct Hma as (Hvsc & Hlsc & Hmc); [lia..|].
        destruct Hfrb as (Hvsb & Hlsb & Hfrb), Hfra as (Hvsa & Hlsa & Hfra).
        unfold PostT. split_and!; [by rewrite Hmc|congruence|congruence|]. right. split.
        * exists zs. split; [lia|by rewrite Hmc].
        * intros b' ?. rewrite Hmc, Hfrb, Hfra by done. done.
      + apply Hma; lia.
    - destruct Hmb as ((zs & Hzs & Hbb) & Hfrb); [lia..|].
      destruct Hfrb as (Hvsb & Hlsb & Hfrb), Hfra as (Hvsa & Hlsa & Hfra).
      unfold PostT. split_and!; [by rewrite Hfrb, Hfra|congruence|congruence|]. right. split.
      * exists zs. split; [lia|done].
      * intros b' ?. rewrite Hfrb, Hfra by done. done.
    - apply Hmb; lia. }
  unfold PostR, PostT in Hbody. clear PostR PostT.
  destruct (bdy (Ptr bf 0) s1) as [p s2|s2|] eqn:Hrunb; [| |done].
  - destruct Hbody as (-> & Hq2 & Hraw2 & Hsz2 & (zs & Hzs & Hb2) & (w & Hf2)).
    destruct (HcontR _ _ w eq_refl Hf2) as (s3 & -> & Hvs3 & Hls3 & Hm3 & Hq3).
    split; [done|]. split; [eauto using quiet_trans|].
    exists zs. split; [done|].
    assert (Hins : length (take n xs ++ zs) = S len).
    { rewrite length_app, length_take, Hzs. fold len. lia. }
    apply is_vector_intro.
    + simpl. rewrite Hvs3. exact Hraw2.
    + unfold size_at. rewrite Hvs3, Hins. exact Hsz2.
    + lia.
    + simpl. rewrite Hm3, lookup_delete_ne, Hb2 by done. f_equal. by apply Hlay.
  - destruct Hbody as (Hf2 & Hvs2 & Hls2 & Hmem).
    destruct (HcontT _ v eq_refl Hf2) as (s3 & -> & Hvs3 & Hls3 & Hm3).
    destruct Hmem as [Hm2|((zs & Hzs & Hb2) & Hfr2)].
    + left. split_and!; [congruence|congruence|].
      rewrite Hm3, Hm2, Hm1. apply map_eq. intros b'. destruct (decide (b' = bf)) as [->|].
      * by rewrite lookup_delete_eq.
      * by rewrite lookup_delete_ne, lookup_insert_ne.
    + right.
      assert (Hb3 : mem s3 !! b = Some (layout (take n xs ++ zs) cap)).
      { rewrite Hm3, lookup_delete_ne, Hb2 by done. f_equal. by apply Hlay. }
      split_and!; [congruence|congruence| | |].
      * exists zs. split; [done|]. exact Hb3.
      * intros b' Hne. rewrite Hm3. destruct (decide (b' = bf)) as [->|].
        -- by rewrite lookup_delete_eq.
        -- rewrite lookup_delete_ne, Hfr2, Hm1, lookup_insert_ne by congruence. done.
      * intros ws (Hvw & Hlw & Hbw).
        rewrite Hvs3, Hvs2, Hvs1, Hvec in Hvw. injection Hvw as Hvw.
        simpl in Hbw. rewrite Hb3 in Hbw. injection Hbw as Hbw.
        apply layout_length_inj in Hbw; [|rewrite length_app, length_take, Hzs; fold len; lia|lia].
        rewrite length_app, length_take, Hzs in Hbw. fold len in Hbw, Hvw. lia.
Qed.

End Proofs.

(** * The properties at concrete inputs *)

(** C1: the vector [[1; 2]] is full; the copy constructor throws when it
    copies [1].  [Emplace] at position 1 catches the exception of the
    prefix relocation, destroys only the new element and goes on: it
    returns normally, though an operation threw, and leaves a vector of
    size 3 whose slots 0 and 1 are raw memory. *)
Theorem Emplace_swallows_copy_failure :
  is_vector (one_vector [1; 2] 2) 0 (Ptr 0 0) [1; 2] 2
  ∧ ∃ s', Emplace (E := nat_elem false true (copy_throws_on 1)) 0 (Ptr 0 1) (ByArgs 9)
            (one_vector [1; 2] 2) = Ret (Ptr 1 1) s'
          ∧ trace s' = [EvNew 4; EvCtorArgs 9; EvThrow (EvCtorCopy 1); EvDtor 9;
                        EvCtorCopy 2; EvDtor 1; EvDtor 2; EvDelete 0]
          ∧ vecs s' !! 0 = Some (mkVector (mkRawMemory (Ptr 1 0) 4) 3)
          ∧ mem s' !! 1 = Some [None; None; Some 2; None].
Proof.
  split.
  - unfold is_vector. split_and!; [reflexivity|simpl; lia|reflexivity].
  - eexists. split; [vm_compute; reflexivity|].
    repeat split; vm_compute; reflexivity.
Qed.

(** C3: after the same call the vector at address 0 has size 3 and its
    slot 0 is raw memory, so no buffer, contents and capacity describe
    it. *)
Theorem Emplace_breaks_invariant :
  is_vector (one_vector [1; 2] 2) 0 (Ptr 0 0) [1; 2] 2
  ∧ ∃ s', Emplace (E := nat_elem false true (copy_throws_on 1)) 0 (Ptr 0 1) (ByArgs 9)
            (one_vector [1; 2] 2) = Ret (Ptr 1 1) s'
          ∧ size_at s' 0 = Some 3
          ∧ slot_of s' (Ptr 1 0) = Some None
          ∧ ∀ buf xs cap, ¬ is_vector s' 0 buf xs cap.
Proof.
  split.
  - unfold is_vector. split_and!; [reflexivity|simpl; lia|reflexivity].
  - eexists. split; [vm_compute; reflexivity|].
    split; [reflexivity|]. split; [reflexivity|].
    intros buf xs cap (Hv & _ & Hb).
    vm_compute in Hv. injection Hv as <- <- Hlen.
    vm_compute in Hb. destruct xs as [|x xs]; [done|]. discriminate Hb.
Qed.

(** C8, as stated, fails for move assignment: the moved-from source is
    left with the allocation and the capacity the destination had. *)
Lemma RawMemory_move_assignment_leaves_source_nonempty :
  raw_at two_raws (Local 0) = Some (mkRawMemory (Ptr 0 0) 2)
  ∧ raw_at two_raws (Local 1) = Some (mkRawMemory (Ptr 1 0) 3)
  ∧ ∃ s', RawMemory_assign_move (Local 0) (Local 1) two_raws = Ret () s'
          ∧ raw_at s' (Local 1) = Some (mkRawMemory (Ptr 0 0) 2)
          ∧ raw_at s' (Local 1) ≠ Some (mkRawMemory Null 0).
Proof.
  split; [reflexivity|]. split; [reflexivity|].
  eexists. split; [vm_compute; reflexivity|].
  split; [reflexivity|]. vm_compute. discriminate.
Qed.

Lemma RawMemory_move_transfers_ownership_witness :
  raw_at two_raws (Local 0) = Some (mkRawMemory (Ptr 0 0) 2)
  ∧ raw_at two_raws (Local 1) = Some (mkRawMemory (Ptr 1 0) 3)
  ∧ (∃ s', RawMemory_ctor_move (Local 0) (Local 1) two_raws = Ret () s'
         ∧ raw_at s' (Local 0) = Some (mkRawMemory (Ptr 1 0) 3)
         ∧ raw_at s' (Local 1) = Some (mkRawMemory Null 0)
         ∧ mem s' = mem two_raws ∧ trace s' = trace two_raws)
  ∧ (∃ s', RawMemory_assign_move (Local 0) (Local 1) two_raws = Ret () s'
           ∧ raw_at s' (Local 0) = Some (mkRawMemory (Ptr 1 0) 3)
           ∧ raw_at s' (Local 1) = Some (mkRawMemory (Ptr 0 0) 2)
           ∧ mem s' = mem two_raws ∧ trace s' = trace two_raws).
Proof.
  split; [reflexivity|]. split; [reflexivity|].
  apply (RawMemory_move_transfers_ownership two_raws (Local 0) (Local 1));
    [reflexivity|reflexivity|discriminate].
Defined.

Lemma move_assignment_swaps_witness :
  is_vector two_vectors 0 (Ptr 0 0) [1; 2] 2
  ∧ is_vector two_vectors 1 (Ptr 1 0) [5; 6; 7] 4
  ∧ ∃ s', Vector_assign_move 1 0 two_vectors = Ret () s'
        ∧ is_vector s' 1 (Ptr 0 0) [1; 2] 2
        ∧ is_vector s' 0 (Ptr 1 0) [5; 6; 7] 4
        ∧ (∀ v, v ≠ 0 → v ≠ 1 → vecs s' !! v = vecs two_vectors !! v)
        ∧ mem s' = mem two_vectors ∧ trace s' = trace two_vectors.
Proof.
  assert (H0 : is_vector two_vectors 0 (Ptr 0 0) [1; 2] 2)
    by (unfold is_vector; split_and!; [reflexivity|simpl; lia|reflexivity]).
  assert (H1 : is_vector two_vectors 1 (Ptr 1 0) [5; 6; 7] 4)
    by (unfold is_vector; split_and!; [reflexivity|simpl; lia|reflexivity]).
  split; [exact H0|]. split; [exact H1|].
  exact (move_assignment_swaps two_vectors 0 1 _ _ _ _ _ _ H0 H1).
Defined.

Lemma never_NeverThrows nothrow_move copyable :
  NeverThrows (E := nat_elem nothrow_move copyable never).
Proof. intros tr e. reflexivity. Qed.

Lemma Emplace_inserts_at_position_witness :
  is_vector (one_vector [1; 2] 2) 0 (Ptr 0 0) [1; 2] 2
  ∧ 1 ≤ length [1; 2]
  ∧ ∃ s' buf',
      Emplace (E := nat_elem false true never) 0 (Ptr 0 1) (ByArgs 9) (one_vector [1; 2] 2)
      = Ret (ptr_add buf' 1) s'
      ∧ is_vector s' 0 buf' [1; 9; 2] 4
      ∧ size_at s' 0 = Some 3.
Proof.
  assert (H0 : is_vector (one_vector [1; 2] 2) 0 (Ptr 0 0) [1; 2] 2)
    by (unfold is_vector; split_and!; [reflexivity|simpl; lia|reflexivity]).
  assert (H1 : 1 ≤ length [1; 2]) by (simpl; lia).
  split; [exact H0|]. split; [exact H1|].
  destruct (Emplace_inserts_at_position (E := nat_elem false true never)
              (never_NeverThrows false true) _ 0 _ _ _ 1 (ByArgs 9) H0 H1)
    as (s' & buf' & Hrun & Hv & Hsz & _).
  exists s', buf'. split; [exact Hrun|]. split; [exact Hv|exact Hsz].
Defined.

Lemma Erase_removes_position_witness :
  is_vector (one_vector [1; 2; 3] 4) 0 (Ptr 0 0) [1; 2; 3] 4
  ∧ 1 < length [1; 2; 3]
  ∧ ∃ s', Erase (E := nat_elem true true never) 0 (Ptr 0 1) (one_vector [1; 2; 3] 4)
          = Ret (Ptr 0 1) s'
          ∧ is_vector s' 0 (Ptr 0 0) [1; 3] 4
          ∧ size_at s' 0 = Some 2.
Proof.
  assert (H0 : is_vector (one_vector [1; 2; 3] 4) 0 (Ptr 0 0) [1; 2; 3] 4)
    by (unfold is_vector; split_and!; [reflexivity|simpl; lia|reflexivity]).
  assert (H1 : 1 < length [1; 2; 3]) by (simpl; lia).
  split; [exact H0|]. split; [exact H1|].
  destruct (Erase_removes_position (E := nat_elem true true never)
              (never_NeverThrows true true) _ 0 _ _ _ 1 H0 H1)
    as (s' & Hrun & Hv & Hsz & _).
  exists s'. split; [exact Hrun|]. split; [exact Hv|exact Hsz].
Defined.




(** The scenario of the specification: four elements, the copy
    constructor throws on its third invocation, an append has to grow.
    The exception propagates, two copies are rolled back, the new block
    is freed and the vector is as before. *)
Example growth_failure_scenario :
  ∃ s', EmplaceBack (E := nat_elem false true (kth_copy_throws 3)) 0 (ByArgs 9)
          (one_vector [1; 2; 3; 4] 4) = Throw s'
        ∧ trace s' = [EvNew 8; EvCtorArgs 9; EvCtorCopy 1; EvCtorCopy 2;
                      EvThrow (EvCtorCopy 3); EvDtor 2; EvDtor 1; EvDelete 1]
        ∧ unchanged (one_vector [1; 2; 3; 4] 4) s'
        ∧ is_vector s' 0 (Ptr 0 0) [1; 2; 3; 4] 4.
Proof.
  eexists. split; [vm_compute; reflexivity|].
  split; [reflexivity|]. split.
  - unfold unchanged. split_and!; vm_compute; reflexivity.
  - unfold is_vector. split_and!; [reflexivity|simpl; lia|reflexivity].
Qed.

(** The scenario of the specification on an element type whose
    operations do not throw: append 1, 2, 3; insert 99 at position 1;
    erase position 0; resize to 1; resize to 4.  The sizes, capacities
    and contents after each step are those of the final memory: block 2
    is the buffer of four slots that the third append allocated. *)
Example specification_scenario :
  ∃ s1 p s2 q s3 s4 s5,
    (Vector_ctor_default 0 ;;;
     appends (E := nat_elem true true never) 0 [ByCopy 1; ByMove 2; ByArgs 3]) empty_vector = Ret () s1
    ∧ is_vector s1 0 (Ptr 2 0) [1; 2; 3] 4
    ∧ Insert_copy (E := nat_elem true true never) 0 (Ptr 2 1) 99 s1 = Ret p s2
    ∧ p = Ptr 2 1
    ∧ is_vector s2 0 (Ptr 2 0) [1; 99; 2; 3] 4
    ∧ Erase (E := nat_elem true true never) 0 (Ptr 2 0) s2 = Ret q s3
    ∧ q = Ptr 2 0
    ∧ is_vector s3 0 (Ptr 2 0) [99; 2; 3] 4
    ∧ Resize (E := nat_elem true true never) 0 1 s3 = Ret () s4
    ∧ is_vector s4 0 (Ptr 2 0) [99] 4
    ∧ Resize (E := nat_elem true true never) 0 4 s4 = Ret () s5
    ∧ is_vector s5 0 (Ptr 2 0) [99; 7; 7; 7] 4.
Proof.
  do 7 eexists.
  split_and!; try (vm_compute; reflexivity);
    try (unfold is_vector; split_and!; [reflexivity|simpl; lia|reflexivity]).
Qed.

(** ** Instances of the properties of construction, access and removal *)

Lemma index_is_checked_against_size_witness :
  is_vector (one_vector [1; 2; 3] 4) 0 (Ptr 0 0) [1; 2; 3] 4
  ∧ [1; 2; 3] !! 1 = Some 2
  ∧ length [1; 2; 3] ≤ 3
  ∧ Vector_index 0 1 (one_vector [1; 2; 3] 4) = Ret (Ptr 0 1) (one_vector [1; 2; 3] 4)
  ∧ load (Ptr 0 1) (one_vector [1; 2; 3] 4) = Ret 2 (one_vector [1; 2; 3] 4)
  ∧ Vector_index 0 3 (one_vector [1; 2; 3] 4) = Undef.
Proof.
  assert (H0 : is_vector (one_vector [1; 2; 3] 4) 0 (Ptr 0 0) [1; 2; 3] 4)
    by (unfold is_vector; split_and!; [reflexivity|simpl; lia|reflexivity]).
  assert (H1 : [1; 2; 3] !! 1 = Some 2) by reflexivity.
  assert (H2 : length [1; 2; 3] ≤ 3) by (simpl; lia).
  split; [exact H0|]. split; [exact H1|]. split; [exact H2|].
  destruct (proj1 (index_is_checked_against_size _ 0 _ _ _ 1 H0) 2 H1) as [Hi Hl].
  split; [exact Hi|]. split; [exact Hl|].
  exact (proj2 (index_is_checked_against_size _ 0 _ _ _ 3 H0) H2).
Defined.

Lemma iterators_delimit_the_elements_witness :
  is_vector (one_vector [1; 2; 3] 4) 0 (Ptr 0 0) [1; 2; 3] 4
  ∧ begin 0 (one_vector [1; 2; 3] 4) = Ret (Ptr 0 0) (one_vector [1; 2; 3] 4)
  ∧ end_ 0 (one_vector [1; 2; 3] 4) = Ret (Ptr 0 3) (one_vector [1; 2; 3] 4)
  ∧ ptr_diff (Ptr 0 3) (Ptr 0 0) = Some 3.
Proof.
  assert (H0 : is_vector (one_vector [1; 2; 3] 4) 0 (Ptr 0 0) [1; 2; 3] 4)
    by (unfold is_vector; split_and!; [reflexivity|simpl; lia|reflexivity]).
  split; [exact H0|].
  destruct (iterators_delimit_the_elements _ 0 _ _ _ H0)
    as (Hb & He & _ & _ & _ & _ & Hd & _).
  split; [exact Hb|]. split; [exact He|exact Hd].
Defined.

Lemma PopBack_removes_the_last_element_witness :
  is_vector (one_vector [1; 2; 3] 4) 0 (Ptr 0 0) [1; 2; 3] 4
  ∧ [1; 2; 3] = [1; 2] ++ [3]
  ∧ ∃ s', PopBack 0 (one_vector [1; 2; 3] 4) = Ret () s'
          ∧ is_vector s' 0 (Ptr 0 0) [1; 2] 4
          ∧ trace s' = [EvDtor 3].
Proof.
  assert (H0 : is_vector (one_vector [1; 2; 3] 4) 0 (Ptr 0 0) [1; 2; 3] 4)
    by (unfold is_vector; split_and!; [reflexivity|simpl; lia|reflexivity]).
  assert (H1 : [1; 2; 3] = [1; 2] ++ [3]) by reflexivity.
  split; [exact H0|]. split; [exact H1|].
  destruct (proj2 (PopBack_removes_the_last_element _ 0 _ _ _ H0) [1; 2] 3 H1)
    as (s' & Hrun & Hv & Htr & _).
  exists s'. split; [exact Hrun|]. split; [exact Hv|exact Htr].
Defined.

Lemma Swap_is_symmetric_and_involutive_witness :
  is_Some (vecs two_vectors !! 0) ∧ is_Some (vecs two_vectors !! 1)
  ∧ Swap 0 1 two_vectors = Swap 1 0 two_vectors
  ∧ (Swap 0 1 ;;; Swap 0 1) two_vectors = Ret () two_vectors.
Proof.
  assert (H0 : is_Some (vecs two_vectors !! 0)) by (eexists; reflexivity).
  assert (H1 : is_Some (vecs two_vectors !! 1)) by (eexists; reflexivity).
  split; [exact H0|]. split; [exact H1|].
  destruct (Swap_is_symmetric_and_involutive two_vectors 0 1 H0 H1) as (Hs & Hi & _).
  split; [exact Hs|exact Hi].
Defined.

Lemma destructor_destroys_elements_and_frees_buffer_witness :
  is_vector (one_vector [1; 2; 3] 4) 0 (Ptr 0 0) [1; 2; 3] 4
  ∧ ∃ s', Vector_dtor 0 (one_vector [1; 2; 3] 4) = Ret () s'
          ∧ mem s' = freed (Ptr 0 0) (mem (one_vector [1; 2; 3] 4))
          ∧ trace s' = [EvDtor 1; EvDtor 2; EvDtor 3; EvDelete 0].
Proof.
  assert (H0 : is_vector (one_vector [1; 2; 3] 4) 0 (Ptr 0 0) [1; 2; 3] 4)
    by (unfold is_vector; split_and!; [reflexivity|simpl; lia|reflexivity]).
  split; [exact H0|].
  destruct (destructor_destroys_elements_and_frees_buffer _ 0 _ _ _ H0)
    as (s' & Hrun & Hm & Htr & _).
  exists s'. split; [exact Hrun|]. split; [exact Hm|exact Htr].
Defined.

Lemma move_construction_empties_the_source_witness :
  is_vector vector_and_storage 0 (Ptr 0 0) [1; 2; 3] 4
  ∧ is_Some (vecs vector_and_storage !! 1)
  ∧ 1 ≠ 0
  ∧ ∃ s', Vector_ctor_move 1 0 vector_and_storage = Ret () s'
          ∧ is_vector s' 1 (Ptr 0 0) [1; 2; 3] 4
          ∧ is_vector s' 0 Null [] 0
          ∧ trace s' = [].
Proof.
  assert (H0 : is_vector vector_and_storage 0 (Ptr 0 0) [1; 2; 3] 4)
    by (unfold is_vector; split_and!; [reflexivity|simpl; lia|reflexivity]).
  assert (H1 : is_Some (vecs vector_and_storage !! 1)) by (eexists; reflexivity).
  assert (H2 : 1 ≠ 0) by lia.
  split; [exact H0|]. split; [exact H1|]. split; [exact H2|].
  destruct (move_construction_empties_the_source _ 1 0 _ _ _ H0 H1 H2)
    as (s' & Hrun & Hv1 & Hv0 & _ & Htr & _).
  exists s'. split; [exact Hrun|]. split; [exact Hv1|]. split; [exact Hv0|exact Htr].
Defined.



(** [Vector(4)] whose third constructor call throws: the two objects
    constructed are destroyed, the block is freed, the exception
    propagates. *)
Example sized_construction_failure_scenario :
  ∃ s', Vector_ctor_size (E := nat_elem true true (throws_after 3)) 1 4 vector_and_storage
        = Throw s'
        ∧ trace s' = [EvNew 4; EvCtorValue; EvCtorValue; EvThrow EvCtorValue;
                      EvDtor 0; EvDtor 0; EvDelete 1]
        ∧ mem s' = mem vector_and_storage.
Proof.
  eexists. split; [vm_compute; reflexivity|]. split; vm_compute; reflexivity.
Qed.

(** ** Instances of the properties of copying and of capacity *)

Lemma copy_construction_is_deep_and_tight_witness :
  is_vector vector_and_storage 0 (Ptr 0 0) [1; 2; 3] 4
  ∧ is_Some (vecs vector_and_storage !! 1)
  ∧ 1 ≠ 0
  ∧ ∃ s' buf,
      Vector_ctor_copy (E := nat_elem true true never) 1 0 vector_and_storage = Ret () s'
      ∧ is_vector s' 1 buf [1; 2; 3] 3
      ∧ is_vector s' 0 (Ptr 0 0) [1; 2; 3] 4.
Proof.
  assert (H0 : is_vector vector_and_storage 0 (Ptr 0 0) [1; 2; 3] 4)
    by (unfold is_vector; split_and!; [reflexivity|simpl; lia|reflexivity]).
  assert (H1 : is_Some (vecs vector_and_storage !! 1)) by (eexists; reflexivity).
  assert (H2 : 1 ≠ 0) by lia.
  split; [exact H0|]. split; [exact H1|]. split; [exact H2|].
  destruct (copy_construction_is_deep_and_tight (E := nat_elem true true never)
              (never_NeverThrows true true) _ 1 0 _ _ _ H0 H1 H2)
    as (s' & buf & Hrun & Hv1 & Hv0 & _).
  exists s', buf. split; [exact Hrun|]. split; [exact Hv1|exact Hv0].
Defined.


(** The copy of [[1; 2; 3]] whose third element copy throws: the two
    copies made are destroyed, the block is freed, the exception
    propagates and the source is untouched. *)
Example copy_construction_failure_scenario :
  ∃ s', Vector_ctor_copy (E := nat_elem false true (kth_copy_throws 3)) 1 0
          vector_and_storage = Throw s'
        ∧ trace s' = [EvNew 3; EvCtorCopy 1; EvCtorCopy 2; EvThrow (EvCtorCopy 3);
                      EvDtor 2; EvDtor 1; EvDelete 1]
        ∧ mem s' = mem vector_and_storage.
Proof.
  eexists. split; [vm_compute; reflexivity|]. split; vm_compute; reflexivity.
Qed.

Lemma copy_assignment_copies_the_source_witness :
  is_vector two_vectors 0 (Ptr 0 0) [1; 2] 2
  ∧ is_vector two_vectors 1 (Ptr 1 0) [5; 6; 7] 4
  ∧ 0 ≠ 1
  ∧ (∀ b, Ptr 0 0 = Ptr b 0 → Ptr 1 0 ≠ Ptr b 0)
  ∧ ∃ s' buf',
      Vector_assign_copy (E := nat_elem true true never) 0 1 two_vectors = Ret () s'
      ∧ is_vector s' 0 buf' [5; 6; 7] 3
      ∧ is_vector s' 1 (Ptr 1 0) [5; 6; 7] 4.
Proof.
  assert (H0 : is_vector two_vectors 0 (Ptr 0 0) [1; 2] 2)
    by (unfold is_vector; split_and!; [reflexivity|simpl; lia|reflexivity]).
  assert (H1 : is_vector two_vectors 1 (Ptr 1 0) [5; 6; 7] 4)
    by (unfold is_vector; split_and!; [reflexivity|simpl; lia|reflexivity]).
  assert (H2 : 0 ≠ 1) by lia.
  assert (H3 : ∀ b, Ptr 0 0 = Ptr b 0 → Ptr 1 0 ≠ Ptr b 0) by (intros b Hb; congruence).
  split; [exact H0|]. split; [exact H1|]. split; [exact H2|]. split; [exact H3|].
  destruct (copy_assignment_copies_the_source (E := nat_elem true true never)
              (never_NeverThrows true true) _ 0 1 _ _ _ _ _ _ H0 H1 H2 H3)
    as (s' & buf' & Hrun & Hv0 & Hv1 & _).
  exists s', buf'. split; [exact Hrun|]. split; [exact Hv0|exact Hv1].
Defined.

Lemma copy_assignment_by_copy_and_swap_is_strong_witness :
  is_vector two_vectors 0 (Ptr 0 0) [1; 2] 2
  ∧ is_vector two_vectors 1 (Ptr 1 0) [5; 6; 7] 4
  ∧ 0 ≠ 1
  ∧ (∀ b, Ptr 0 0 = Ptr b 0 → Ptr 1 0 ≠ Ptr b 0)
  ∧ 2 < length [5; 6; 7]
  ∧ strong_guarantee two_vectors
      (Vector_assign_copy (E := nat_elem false true (kth_copy_throws 2)) 0 1 two_vectors)
      (fun s' => ∃ buf', is_vector s' 0 buf' [5; 6; 7] 3
                         ∧ is_vector s' 1 (Ptr 1 0) [5; 6; 7] 4).
Proof.
  assert (H0 : is_vector two_vectors 0 (Ptr 0 0) [1; 2] 2)
    by (unfold is_vector; split_and!; [reflexivity|simpl; lia|reflexivity]).
  assert (H1 : is_vector two_vectors 1 (Ptr 1 0) [5; 6; 7] 4)
    by (unfold is_vector; split_and!; [reflexivity|simpl; lia|reflexivity]).
  assert (H2 : 0 ≠ 1) by lia.
  assert (H3 : ∀ b, Ptr 0 0 = Ptr b 0 → Ptr 1 0 ≠ Ptr b 0) by (intros b Hb; congruence).
  assert (H4 : 2 < length [5; 6; 7]) by (simpl; lia).
  split; [exact H0|]. split; [exact H1|]. split; [exact H2|]. split; [exact H3|].
  split; [exact H4|].
  exact (copy_assignment_by_copy_and_swap_is_strong
           (E := nat_elem false true (kth_copy_throws 2)) _ 0 1 _ _ _ _ _ _ H0 H1 H2 H3 H4).
Defined.


Lemma EmplaceBack_returns_the_new_element_witness :
  is_vector (one_vector [1; 2] 2) 0 (Ptr 0 0) [1; 2] 2
  ∧ ∃ s' p,
      EmplaceBack (E := nat_elem true true never) 0 (ByArgs 9) (one_vector [1; 2] 2)
      = Ret p s'
      ∧ load p s' = Ret 9 s'
      ∧ Vector_index 0 2 s' = Ret p s'.
Proof.
  assert (H0 : is_vector (one_vector [1; 2] 2) 0 (Ptr 0 0) [1; 2] 2)
    by (unfold is_vector; split_and!; [reflexivity|simpl; lia|reflexivity]).
  split; [exact H0|].
  destruct (EmplaceBack_returns_the_new_element (E := nat_elem true true never)
              (never_NeverThrows true true) _ 0 _ _ _ (ByArgs 9) H0)
    as (s' & p & Hrun & Hl & _ & Hi & _).
  exists s', p. split; [exact Hrun|]. split; [exact Hl|exact Hi].
Defined.

Lemma PopBack_undoes_EmplaceBack_witness :
  is_vector (one_vector [1; 2; 3] 4) 0 (Ptr 0 0) [1; 2; 3] 4
  ∧ ∃ s',
      (EmplaceBack (E := nat_elem true true never) 0 (ByArgs 9) ;;; PopBack 0)
        (one_vector [1; 2; 3] 4) = Ret () s'
      ∧ is_vector s' 0 (Ptr 0 0) [1; 2; 3] 4
      ∧ unchanged (one_vector [1; 2; 3] 4) s'.
Proof.
  assert (H0 : is_vector (one_vector [1; 2; 3] 4) 0 (Ptr 0 0) [1; 2; 3] 4)
    by (unfold is_vector; split_and!; [reflexivity|simpl; lia|reflexivity]).
  split; [exact H0|].
  destruct (PopBack_undoes_EmplaceBack (E := nat_elem true true never)
              (never_NeverThrows true true) _ 0 _ _ _ (ByArgs 9) H0)
    as (s' & buf' & Hrun & Hv & Hroom).
  destruct Hroom as [-> Hun]; [simpl; lia|].
  exists s'. split; [exact Hrun|]. split; [exact Hv|exact Hun].
Defined.




(** [Resize(4)] of [[1; 2]] whose second default construction throws:
    the relocation into the block of four slots has happened, the one
    object constructed is destroyed again, and the vector holds
    [[1; 2]] with capacity 4. *)
Example Resize_failure_scenario :
  ∃ s', Resize (E := nat_elem true true (throws_after 7)) 0 4 (one_vector [1; 2] 2)
        = Throw s'
        ∧ trace s' = [EvNew 4; EvCtorMove 1; EvCtorMove 2; EvDtor 0; EvDtor 0; EvDelete 0;
                      EvCtorDefault; EvThrow EvCtorDefault; EvDtor 7]
        ∧ is_vector s' 0 (Ptr 1 0) [1; 2] 4.
Proof.
  eexists. split; [vm_compute; reflexivity|]. split; [reflexivity|].
  unfold is_vector; split_and!; [reflexivity|simpl; lia|reflexivity].
Qed.

Lemma RawMemory_Swap_exchanges_ownership_witness :
  raw_at two_raws (Local 0) = Some (mkRawMemory (Ptr 0 0) 2)
  ∧ raw_at two_raws (Local 1) = Some (mkRawMemory (Ptr 1 0) 3)
  ∧ (∃ s', RawMemory_Swap (Local 0) (Local 1) two_raws = Ret () s'
           ∧ raw_at s' (Local 0) = Some (mkRawMemory (Ptr 1 0) 3)
           ∧ raw_at s' (Local 1) = Some (mkRawMemory (Ptr 0 0) 2))
  ∧ (RawMemory_Swap (Local 0) (Local 1) ;;; RawMemory_Swap (Local 0) (Local 1)) two_raws
    = Ret () two_raws.
Proof.
  assert (H0 : raw_at two_raws (Local 0) = Some (mkRawMemory (Ptr 0 0) 2)) by reflexivity.
  assert (H1 : raw_at two_raws (Local 1) = Some (mkRawMemory (Ptr 1 0) 3)) by reflexivity.
  split; [exact H0|]. split; [exact H1|].
  destruct (RawMemory_Swap_exchanges_ownership two_raws (Local 0) (Local 1) _ _ H0 H1)
    as ((s' & Hrun & Ha & Hb & _) & _ & Hinv).
  split; [|exact Hinv]. exists s'. split; [exact Hrun|]. split; [exact Ha|exact Hb].
Defined.

Lemma copy_assignment_in_place_keeps_a_valid_vector_witness :
  is_vector two_vectors 1 (Ptr 1 0) [5; 6; 7] 4
  ∧ is_vector two_vectors 0 (Ptr 0 0) [1; 2] 2
  ∧ 1 ≠ 0
  ∧ (∀ b, Ptr 1 0 = Ptr b 0 → Ptr 0 0 ≠ Ptr b 0)
  ∧ length [1; 2] ≤ 4
  ∧ match Vector_assign_copy (E := nat_elem true true (throws_after 1)) 1 0 two_vectors with
    | Ret _ s' => quiet two_vectors s'
                  ∧ is_vector s' 1 (Ptr 1 0) [1; 2] 4
                  ∧ is_vector s' 0 (Ptr 0 0) [1; 2] 2
    | Throw s' => (∃ k, k ≤ length [5; 6; 7] ∧ k ≤ length [1; 2]
                        ∧ is_vector s' 1 (Ptr 1 0) (take k [1; 2] ++ drop k [5; 6; 7]) 4)
                  ∧ is_vector s' 0 (Ptr 0 0) [1; 2] 2
                  ∧ (∀ b, Ptr 1 0 ≠ Ptr b 0 → mem s' !! b = mem two_vectors !! b)
    | Undef => False
    end.
Proof.
  assert (H0 : is_vector two_vectors 1 (Ptr 1 0) [5; 6; 7] 4)
    by (unfold is_vector; split_and!; [reflexivity|simpl; lia|reflexivity]).
  assert (H1 : is_vector two_vectors 0 (Ptr 0 0) [1; 2] 2)
    by (unfold is_vector; split_and!; [reflexivity|simpl; lia|reflexivity]).
  assert (H2 : 1 ≠ 0) by lia.
  assert (H3 : ∀ b, Ptr 1 0 = Ptr b 0 → Ptr 0 0 ≠ Ptr b 0) by (intros b Hb; congruence).
  assert (H4 : length [1; 2] ≤ 4) by (simpl; lia).
  split; [exact H0|]. split; [exact H1|]. split; [exact H2|]. split; [exact H3|].
  split; [exact H4|].
  exact (copy_assignment_in_place_keeps_a_valid_vector
           (E := nat_elem true true (throws_after 1)) _ 1 0 _ _ _ _ _ _ H0 H1 H2 H3 H4).
Defined.

(** The assignment of [[1; 2]] to [[5; 6; 7]] whose second element
    assignment throws: the first element is assigned, the others are the
    old ones, the size is still 3. *)
Example copy_assignment_failure_scenario :
  ∃ s', Vector_assign_copy (E := nat_elem true true (throws_after 1)) 1 0 two_vectors
        = Throw s'
        ∧ trace s' = [EvAssignCopy 1 5; EvThrow (EvAssignCopy 2 6)]
        ∧ is_vector s' 1 (Ptr 1 0) [1; 6; 7] 4
        ∧ is_vector s' 0 (Ptr 0 0) [1; 2] 2.
Proof.
  eexists. split; [vm_compute; reflexivity|]. split; [reflexivity|].
  split; unfold is_vector; split_and!; (reflexivity || (simpl; lia)).
Qed.

Lemma Erase_and_Insert_undo_each_other_witness :
  is_vector (one_vector [1; 2; 3] 4) 0 (Ptr 0 0) [1; 2; 3] 4
  ∧ 1 ≤ length [1; 2; 3]
  ∧ ∃ s1 p s2 buf',
      Emplace (E := nat_elem true true never) 0 (Ptr 0 1) (ByArgs 9) (one_vector [1; 2; 3] 4)
      = Ret p s1
      ∧ Erase (E := nat_elem true true never) 0 p s1 = Ret p s2
      ∧ is_vector s2 0 buf' [1; 2; 3] 4.
Proof.
  assert (H0 : is_vector (one_vector [1; 2; 3] 4) 0 (Ptr 0 0) [1; 2; 3] 4)
    by (unfold is_vector; split_and!; [reflexivity|simpl; lia|reflexivity]).
  assert (H1 : 1 ≤ length [1; 2; 3]) by (simpl; lia).
  split; [exact H0|]. split; [exact H1|].
  destruct (proj1 (Erase_and_Insert_undo_each_other (E := nat_elem true true never)
                     (never_NeverThrows true true) _ 0 _ _ _ 1 H0) (ByArgs 9) H1)
    as (s1 & p & s2 & buf' & Hrun1 & Hrun2 & Hv & _).
  exists s1, p, s2, buf'. split; [exact Hrun1|]. split; [exact Hrun2|exact Hv].
Defined.

Lemma Emplace_at_end_has_strong_guarantee_witness :
  is_vector (one_vector [1; 2] 2) 0 (Ptr 0 0) [1; 2] 2
  ∧ safe_relocation (E := nat_elem false true (copy_throws_on 1))
  ∧ Emplace (E := nat_elem false true (copy_throws_on 1)) 0 (Ptr 0 2) (ByArgs 9)
      (one_vector [1; 2] 2)
    = EmplaceBack (E := nat_elem false true (copy_throws_on 1)) 0 (ByArgs 9)
        (one_vector [1; 2] 2)
  ∧ strong_guarantee (one_vector [1; 2] 2)
      (Emplace (E := nat_elem false true (copy_throws_on 1)) 0 (Ptr 0 2) (ByArgs 9)
         (one_vector [1; 2] 2))
      (fun s' => ∃ buf', is_vector s' 0 buf' [1; 2; 9] 4).
Proof.
  assert (H0 : is_vector (one_vector [1; 2] 2) 0 (Ptr 0 0) [1; 2] 2)
    by (unfold is_vector; split_and!; [reflexivity|simpl; lia|reflexivity]).
  assert (Hs : safe_relocation (E := nat_elem false true (copy_throws_on 1)))
    by (left; reflexivity).
  split; [exact H0|]. split; [exact Hs|].
  destruct (Emplace_at_end_has_strong_guarantee (E := nat_elem false true (copy_throws_on 1))
              _ 0 _ _ _ (ByArgs 9) H0) as (Heq & _ & _ & Hg).
  split; [exact Heq|exact (Hg Hs)].
Defined.

Lemma Emplace_into_full_vector_by_noexcept_move_is_strong_witness :
  is_nothrow_move_constructible (ElemType := nat_elem true true (throws_after 1)) = true
  ∧ is_vector (one_vector [1; 2] 2) 0 (Ptr 0 0) [1; 2] 2
  ∧ 1 < length [1; 2]
  ∧ length [1; 2] = 2
  ∧ strong_guarantee (one_vector [1; 2] 2)
      (Emplace (E := nat_elem true true (throws_after 1)) 0 (Ptr 0 1) (ByArgs 9)
         (one_vector [1; 2] 2))
      (fun s' => ∃ buf', is_vector s' 0 buf' [1; 9; 2] 4).
Proof.
  assert (Hm : is_nothrow_move_constructible
                 (ElemType := nat_elem true true (throws_after 1)) = true) by reflexivity.
  assert (H0 : is_vector (one_vector [1; 2] 2) 0 (Ptr 0 0) [1; 2] 2)
    by (unfold is_vector; split_and!; [reflexivity|simpl; lia|reflexivity]).
  assert (H1 : 1 < length [1; 2]) by (simpl; lia).
  assert (H2 : length [1; 2] = 2) by reflexivity.
  split; [exact Hm|]. split; [exact H0|]. split; [exact H1|]. split; [exact H2|].
  exact (Emplace_into_full_vector_by_noexcept_move_is_strong
           (E := nat_elem true true (throws_after 1)) _ 0 _ _ _ 1 (ByArgs 9) Hm H0 H1 H2).
Defined.

Lemma Erase_failure_keeps_a_valid_vector_witness :
  is_vector (one_vector [1; 2; 3] 4) 0 (Ptr 0 0) [1; 2; 3] 4
  ∧ 0 < length [1; 2; 3]
  ∧ match Erase (E := nat_elem true true (throws_after 1)) 0 (Ptr 0 0)
            (one_vector [1; 2; 3] 4) with
    | Ret _ s' => quiet (one_vector [1; 2; 3] 4) s'
                  ∧ ∃ zs, length zs = length [1; 2; 3] - 1
                          ∧ is_vector s' 0 (Ptr 0 0) (take 0 [1; 2; 3] ++ zs) 4
    | Throw s' => ∃ zs, length zs = length [1; 2; 3] - 0
                        ∧ is_vector s' 0 (Ptr 0 0) (take 0 [1; 2; 3] ++ zs) 4
    | Undef => False
    end.
Proof.
  assert (H0 : is_vector (one_vector [1; 2; 3] 4) 0 (Ptr 0 0) [1; 2; 3] 4)
    by (unfold is_vector; split_and!; [reflexivity|simpl; lia|reflexivity]).
  assert (H1 : 0 < length [1; 2; 3]) by (simpl; lia).
  split; [exact H0|]. split; [exact H1|].
  exact (Erase_failure_keeps_a_valid_vector (E := nat_elem true true (throws_after 1))
           _ 0 _ _ _ 0 H0 H1).
Defined.

(** [Erase] of the first of [[1; 2; 3]] whose second move assignment
    throws: the first assignment has happened, and the vector holds
    [[2; 0; 3]], the second element being the moved-from one. *)
Example Erase_failure_scenario :
  ∃ s', Erase (E := nat_elem true true (throws_after 1)) 0 (Ptr 0 0)
          (one_vector [1; 2; 3] 4) = Throw s'
        ∧ is_vector s' 0 (Ptr 0 0) [2; 0; 3] 4.
Proof.
  eexists. split; [vm_compute; reflexivity|].
  unfold is_vector. split_and!; [reflexivity|simpl; lia|reflexivity].
Qed.

Lemma Emplace_in_place_failure_behaviour_witness :
  is_vector (one_vector [1; 2; 3] 5) 0 (Ptr 0 0) [1; 2; 3] 5
  ∧ 1 < length [1; 2; 3]
  ∧ length [1; 2; 3] < 5
  ∧ match Emplace (E := nat_elem true true (throws_after 2)) 0 (Ptr 0 1) (ByArgs 9)
            (one_vector [1; 2; 3] 5) with
    | Ret p s' => p = Ptr 0 1 ∧ quiet (one_vector [1; 2; 3] 5) s'
                  ∧ ∃ zs, length zs = S (length [1; 2; 3] - 1)
                          ∧ is_vector s' 0 (Ptr 0 0) (take 1 [1; 2; 3] ++ zs) 5
    | Throw s' => unchanged (one_vector [1; 2; 3] 5) s'
                  ∨ (vecs s' = vecs (one_vector [1; 2; 3] 5)
                     ∧ locals s' = locals (one_vector [1; 2; 3] 5)
                     ∧ (∃ zs, length zs = S (length [1; 2; 3] - 1)
                              ∧ block_of s' (Ptr 0 0)
                                = Some (layout (take 1 [1; 2; 3] ++ zs) 5))
                     ∧ (∀ b, Ptr 0 0 ≠ Ptr b 0 →
                             mem s' !! b = mem (one_vector [1; 2; 3] 5) !! b)
                     ∧ ∀ ws, ¬ is_vector s' 0 (Ptr 0 0) ws 5)
    | Undef => False
    end.
Proof.
  assert (H0 : is_vector (one_vector [1; 2; 3] 5) 0 (Ptr 0 0) [1; 2; 3] 5)
    by (unfold is_vector; split_and!; [reflexivity|simpl; lia|reflexivity]).
  assert (H1 : 1 < length [1; 2; 3]) by (simpl; lia).
  assert (H2 : length [1; 2; 3] < 5) by (simpl; lia).
  split; [exact H0|]. split; [exact H1|]. split; [exact H2|].
  exact (Emplace_in_place_failure_behaviour (E := nat_elem true true (throws_after 2))
           _ 0 _ _ _ 1 (ByArgs 9) H0 H1 H2).
Defined.

(** [Emplace] of [9] at position 1 of [[1; 2; 3]] with capacity 5 whose
    first move assignment throws: the last element has been move
    constructed into the slot behind it, the size is still 3, and the
    buffer holds four live objects. *)
Example Emplace_in_place_failure_scenario :
  ∃ s', Emplace (E := nat_elem true true (throws_after 2)) 0 (Ptr 0 1) (ByArgs 9)
          (one_vector [1; 2; 3] 5) = Throw s'
        ∧ size_at s' 0 = Some 3
        ∧ mem s' !! 0 = Some [Some 1; Some 2; Some 0; Some 3; None].
Proof. eexists. split; [vm_compute; reflexivity|]. split; reflexivity. Qed.
